(** * maestro: a shallow embedding of the task runner's registry,
    dependency resolver, execution engine, lexer and meta decoder.

    The development follows the Go sources: [maestro.go] (engine and
    registry), the lexer and the decoder ([decodeMeta] and the parsing
    helpers it calls).  Go maps are [gmap]/[gset], slices are lists,
    [error] values are an inductive type, and loops whose termination is
    not structural carry a fuel argument: [None] means "out of fuel",
    never a result of the program. *)

From stdpp Require Import gmap strings list fin_maps.
From Stdlib Require Import ZArith Lia Sorted.
From Stdlib Require String Ascii.

Open Scope string_scope.
Open Scope list_scope.
Open Scope nat_scope.

(** ** Token kinds of the decoder *)

(** Modelled from the spec: the token type of the scanner that feeds the
    decoder is not part of the sources at hand; these are the kinds the
    decoder names ("identifier, command-keyword, meta-directive,
    variable-reference, quoted/bare value, punctuation, dependency-name,
    script-line, comment, newline, end-of-input, invalid"). [Zero] is
    the kind of Go's zero [Token]. *)
Inductive kind : Type :=
| Zero | Eof | Invalid | Ident | String_ | Hidden | Meta | Keyword | Comment
| Assign | Append | Eol | Blank | Quote | Variable_ | BegList | EndList | Comma
| BegScript | EndScript | Script_ | Dependency.

(** ** Errors and results *)

Inductive error : Type :=
| ErrNotDefined (name : string)        (* "%s: command not defined" *)
| ErrDuplicate (name : string)         (* "%s %w" with ErrDuplicate *)
| ErrDuplicateValue (value : string)   (* "DUPLICATE: unknown value %s" *)
| ErrBlocked (name : string)           (* "%s: command can not be called" *)
| ErrNotAllowed (name : string)        (* "current user is not allowed ..." *)
| ErrNotRemote (name : string)         (* "%s can not be executly on remote system" *)
| ErrNoDefault                         (* "default command not defined" *)
| ErrCanceled                          (* ctx.Err() of a cancelled context *)
| ErrUnexpected (k : kind) (literal : string)  (* decoder: unexpected token *)
| ErrUnknownMeta (literal : string)    (* "%s: unknown/unsupported meta" *)
| ErrTooManyValues                     (* "too many values" *)
| ErrQuoteValues                       (* "quote: too many values" *)
| ErrOther (msg : string).             (* failures of collaborators *)

Inductive result (A : Type) : Type :=
| Ok (a : A)
| Err (e : error).
Arguments Ok {A} a.
Arguments Err {A} e.

(** ** Go's [sort] package, as far as the engine uses it *)

Module GoSort.

(** [sort.Search(n, f)]: the loop [for i < j] halves the interval each
    turn, so [j - i] turns always suffice; the fuel is that bound. *)
Fixpoint search_loop (fuel : nat) (f : nat -> bool) (i j : nat) : nat :=
  match fuel with
  | O => i
  | S fuel' =>
      if i <? j then
        let h := (i + j) / 2 in
        if f h then search_loop fuel' f i h
        else search_loop fuel' f (h + 1) j
      else i
  end.

Definition Search (n : nat) (f : nat -> bool) : nat :=
  search_loop n f 0 n.

(** [sort.Strings]: the sorted rearrangement under byte-wise order. *)
Fixpoint insert_sorted (x : string) (l : list string) : list string :=
  match l with
  | [] => [x]
  | y :: r => if String.leb x y then x :: y :: r else y :: insert_sorted x r
  end.

Fixpoint Strings (l : list string) : list string :=
  match l with
  | [] => []
  | x :: r => insert_sorted x (Strings r)
  end.

(** [sort.SearchStrings(a, x)]: [Search(len(a), a[i] >= x)]. *)
Definition SearchStrings (a : list string) (x : string) : nat :=
  Search (length a) (fun i => String.leb x (nth i a "")).

End GoSort.

(** ** Commands *)

(** Modelled from the spec: the [Dep] type is not part of the sources at
    hand; a dependency edge is "{target command name, literal argument
    list, background flag, optional flag}", read by the engine as
    [d.Name], [d.Args], [d.Bg] and [d.Optional]. *)
Record Dep : Type := mkDep {
  dName : string;
  dArgs : list string;
  Bg : bool;
  Optional : bool
}.

(** Modelled from the spec: [Single] is the command definition (the
    sources keep its settings in [CommandSettings]); the engine reads
    [Name], the sorted [Alias] list, [Deps], visibility and the remote
    target addresses. *)
Record Single : Type := mkSingle {
  Name : string;
  Alias : list string;
  Deps : list Dep;
  Visible : bool;
  Hosts : list string;
  Lines : list string
}.

(** [Command] is the interface implemented by [*Single] and by
    [Combined], a slice of commands. *)
#[warnings="-register-all"]
Inductive Command : Type :=
| CmdSingle (s : Single)
| CmdCombined (mul : list Command).

(** [Command()] is [s.Name] for a single command.  Modelled from the
    spec: the methods of [Combined] are not part of the sources at hand;
    its members are "combined ... under one name", the name of the
    first. *)
Definition cmdName (c : Command) : string :=
  match c with
  | CmdSingle s => Name s
  | CmdCombined (CmdSingle s :: _) => Name s
  | CmdCombined _ => ""
  end.

(** [Blocked()] is [!s.Visible] and [Remote()] is [len(s.Hosts) > 0], as
    in [CommandSettings]; a combined command is taken as visible and
    local, its methods being absent from the sources. *)
Definition Blocked (c : Command) : bool :=
  match c with
  | CmdSingle s => negb (Visible s)
  | CmdCombined _ => false
  end.

Definition IsRemote (c : Command) : bool :=
  match c with
  | CmdSingle s => match Hosts s with [] => false | _ => true end
  | CmdCombined _ => false
  end.

(** ** The registry *)

Module MetaExec.
Record t : Type := mk {
  WorkDir : string;
  Dry : bool;
  Ignore : bool;
  Trace : bool;
  All : list string;
  Default : string;
  Before : list string;
  After : list string;
  Error : list string;
  Success : list string
}.
Definition empty : t := mk "" false false false [] "" [] [] [] [].
Definition set_WorkDir (v : string) (e : t) : t :=
  mk v (Dry e) (Ignore e) (Trace e) (All e) (Default e) (Before e) (After e)
     (Error e) (Success e).
Definition set_Trace (v : bool) (e : t) : t :=
  mk (WorkDir e) (Dry e) (Ignore e) v (All e) (Default e) (Before e) (After e)
     (Error e) (Success e).
Definition set_All (v : list string) (e : t) : t :=
  mk (WorkDir e) (Dry e) (Ignore e) (Trace e) v (Default e) (Before e) (After e)
     (Error e) (Success e).
Definition set_Default (v : string) (e : t) : t :=
  mk (WorkDir e) (Dry e) (Ignore e) (Trace e) (All e) v (Before e) (After e)
     (Error e) (Success e).
Definition set_Before (v : list string) (e : t) : t :=
  mk (WorkDir e) (Dry e) (Ignore e) (Trace e) (All e) (Default e) v (After e)
     (Error e) (Success e).
Definition set_After (v : list string) (e : t) : t :=
  mk (WorkDir e) (Dry e) (Ignore e) (Trace e) (All e) (Default e) (Before e) v
     (Error e) (Success e).
Definition set_Error (v : list string) (e : t) : t :=
  mk (WorkDir e) (Dry e) (Ignore e) (Trace e) (All e) (Default e) (Before e)
     (After e) v (Success e).
Definition set_Success (v : list string) (e : t) : t :=
  mk (WorkDir e) (Dry e) (Ignore e) (Trace e) (All e) (Default e) (Before e)
     (After e) (Error e) v.
End MetaExec.

Module MetaAbout.
Record t : Type := mk {
  File : string;
  Author : string;
  Email : string;
  Version : string;
  Help : string;
  Usage : string
}.
Definition set_Author (v : string) (a : t) : t :=
  mk (File a) v (Email a) (Version a) (Help a) (Usage a).
Definition set_Email (v : string) (a : t) : t :=
  mk (File a) (Author a) v (Version a) (Help a) (Usage a).
Definition set_Version (v : string) (a : t) : t :=
  mk (File a) (Author a) (Email a) v (Help a) (Usage a).
Definition set_Help (v : string) (a : t) : t :=
  mk (File a) (Author a) (Email a) (Version a) v (Usage a).
Definition set_Usage (v : string) (a : t) : t :=
  mk (File a) (Author a) (Email a) (Version a) (Help a) v.
End MetaAbout.

Module MetaSSH.
(** [Key] and [Hosts] hold a parsed signer and the known-host entries;
    only their presence matters here. *)
Record t : Type := mk {
  Parallel : Z;
  User : string;
  Pass : string;
  Key : option string;
  Hosts : list string
}.
Definition set_Parallel (v : Z) (s : t) : t :=
  mk v (User s) (Pass s) (Key s) (Hosts s).
Definition set_User (v : string) (s : t) : t :=
  mk (Parallel s) v (Pass s) (Key s) (Hosts s).
Definition set_Pass (v : string) (s : t) : t :=
  mk (Parallel s) (User s) v (Key s) (Hosts s).
End MetaSSH.

Module MetaHttp.
Record t : Type := mk {
  CertFile : string;
  KeyFile : string;
  Addr : string
}.
Definition set_CertFile (v : string) (h : t) : t := mk v (KeyFile h) (Addr h).
Definition set_KeyFile (v : string) (h : t) : t := mk (CertFile h) v (Addr h).
End MetaHttp.

Record Maestro : Type := mkMaestro {
  mExec : MetaExec.t;
  mAbout : MetaAbout.t;
  mSSH : MetaSSH.t;
  mHttp : MetaHttp.t;
  Duplicate : string;
  Commands : gmap string Command;
  Remote : bool;
  NoDeps : bool;
  WithPrefix : bool
}.

Definition dupError : string := "error".
Definition dupAppend : string := "append".
Definition dupReplace : string := "replace".

Definition DefaultFile : string := "maestro.mf".
Definition DefaultVersion : string := "0.1.0".
Definition DefaultHttpAddr : string := ":9090".

(** [New()] *)
Definition New : Maestro :=
  mkMaestro MetaExec.empty
            (MetaAbout.mk DefaultFile "" "" DefaultVersion "" "")
            (MetaSSH.mk 0 "" "" None [])
            (MetaHttp.mk "" "" DefaultHttpAddr)
            dupReplace ∅ false false false.

Definition set_Commands (cs : gmap string Command) (m : Maestro) : Maestro :=
  mkMaestro (mExec m) (mAbout m) (mSSH m) (mHttp m) (Duplicate m) cs
            (Remote m) (NoDeps m) (WithPrefix m).

Definition set_Exec (e : MetaExec.t) (m : Maestro) : Maestro :=
  mkMaestro e (mAbout m) (mSSH m) (mHttp m) (Duplicate m) (Commands m)
            (Remote m) (NoDeps m) (WithPrefix m).

Definition set_About (a : MetaAbout.t) (m : Maestro) : Maestro :=
  mkMaestro (mExec m) a (mSSH m) (mHttp m) (Duplicate m) (Commands m)
            (Remote m) (NoDeps m) (WithPrefix m).

Definition set_SSH (s : MetaSSH.t) (m : Maestro) : Maestro :=
  mkMaestro (mExec m) (mAbout m) s (mHttp m) (Duplicate m) (Commands m)
            (Remote m) (NoDeps m) (WithPrefix m).

Definition set_Http (h : MetaHttp.t) (m : Maestro) : Maestro :=
  mkMaestro (mExec m) (mAbout m) (mSSH m) h (Duplicate m) (Commands m)
            (Remote m) (NoDeps m) (WithPrefix m).

(** [Register]: the switch on [m.Duplicate].  In the [dupAppend] branch
    with an entry that is already [Combined], the source assigns the
    longer slice to the local [curr] and breaks: the map keeps the old
    slice header, so the registry is returned as it was. *)
Definition Register (m : Maestro) (cmd : Single) : result Maestro :=
  match Commands m !! Name cmd with
  | None => Ok (set_Commands (<[Name cmd := CmdSingle cmd]> (Commands m)) m)
  | Some curr =>
      if String.eqb (Duplicate m) dupError then Err (ErrDuplicate (Name cmd))
      else if String.eqb (Duplicate m) dupReplace || String.eqb (Duplicate m) "" then
        Ok (set_Commands (<[Name cmd := CmdSingle cmd]> (Commands m)) m)
      else if String.eqb (Duplicate m) dupAppend then
        match curr with
        | CmdCombined mul => Ok m
        | _ =>
            let mul := [curr; CmdSingle cmd] in
            Ok (set_Commands (<[Name cmd := CmdCombined mul]> (Commands m)) m)
        end
      else Err (ErrDuplicateValue (Duplicate m))
  end.

(** [lookup]: the empty name stands for the default command; then the
    exact key, then the alias lists of every [*Single] in the map.  Go
    ranges over a map in no specified order; the scan here follows
    [map_to_list], and which command answers matters only when two
    commands share an alias. *)
Definition hasAlias (name : string) (c : Command) : bool :=
  match c with
  | CmdSingle s =>
      let i := GoSort.SearchStrings (Alias s) name in
      (i <? length (Alias s)) && String.eqb (nth i (Alias s) "") name
  | CmdCombined _ => false
  end.

Definition lookup (m : Maestro) (name : string) : result Command :=
  let name := if String.eqb name "" then MetaExec.Default (mExec m) else name in
  match Commands m !! name with
  | Some cmd => Ok cmd
  | None =>
      match List.find (fun kc => hasAlias name (snd kc)) (map_to_list (Commands m)) with
      | Some kc => Ok (snd kc)
      | None => Err (ErrNotDefined name)
      end
  end.

(** [hasHelp] *)
Definition isHelpFlag (s : string) : bool :=
  String.eqb s "-h" || String.eqb s "-help" || String.eqb s "--help".

Definition hasHelp (args : list string) : bool :=
  let as_ := GoSort.Strings args in
  let i := GoSort.Search (length as_) (fun i =>
             String.leb "-h" (nth i as_ "") || String.leb "-help" (nth i as_ "")
             || String.leb "--help" (nth i as_ "")) in
  if length as_ <=? i then false else isHelpFlag (nth i as_ "").

(** ** Execution nodes *)

(** Modelled from the spec: the executer variants ([createMain],
    [createDep], [trace], [createTree]) are not part of the sources at
    hand; they are "root (the user-invoked command plus its resolved
    dependency subtree and the hook lists), dependency node (one resolved
    edge, carrying its own resolved sub-dependencies), tree wrapper,
    trace decorator". *)
#[warnings="-register-all"]
Inductive executer : Type :=
| ExMain (cmd : Command) (args : list string) (deps : list executer)
         (pre post errors success : list Command)
| ExDep (cmd : Command) (args : list string) (deps : list executer)
        (background : bool)
| ExTrace (inner : executer)
| ExTree (root : executer) (prefix : bool).

Definition deplist : Type := list executer.

Definition createDep (c : Command) (args : list string) (deps : deplist)
  : executer := ExDep c args deps false.

Definition set_background (b : bool) (ex : executer) : executer :=
  match ex with
  | ExDep c args deps _ => ExDep c args deps b
  | _ => ex
  end.

Definition trace (ex : executer) : executer := ExTrace ex.

(** Modelled from the spec: the run order of a resolved tree when every
    node succeeds: a node "executes every foreground dependency node
    synchronously in declaration order ... then executes the command's
    own script body"; background nodes run the same commands, only
    concurrently. *)
Fixpoint executed (ex : executer) : list Command :=
  match ex with
  | ExMain c _ l pre post _ success =>
      List.flat_map executed l ++ pre ++ [c] ++ success ++ post
  | ExDep c _ l _ => List.flat_map executed l ++ [c]
  | ExTrace e => executed e
  | ExTree e _ => executed e
  end.

(** The commands held by a tree, node before sub-dependencies. *)
Fixpoint nodes (ex : executer) : list Command :=
  match ex with
  | ExMain c _ l _ _ _ _ => c :: List.flat_map nodes l
  | ExDep c _ l _ => c :: List.flat_map nodes l
  | ExTrace e => nodes e
  | ExTree e _ => nodes e
  end.

(** Modelled from the spec: a [Combined] command, "when executed, runs
    every member in declaration order, stopping at the first failure";
    [run] is the outcome of one member. *)
Fixpoint executeCombined (run : Command -> option error) (mul : list Command)
  : list Command * option error :=
  match mul with
  | [] => ([], None)
  | c :: rest =>
      match run c with
      | Some e => ([c], Some e)
      | None => let '(done, r) := executeCombined run rest in (c :: done, r)
      end
  end.

(** ** The engine *)

(** What running the dependencies of a command did: the commands handed
    to [executeCommand], in launch order, and the returned error. *)
Definition runlog : Type := (list (Command * list string) * option error)%type.

(** Events of one host's remote run and of the fan-out over hosts. *)
Inductive hostEvent : Type :=
| EvDial (addr : string)
| EvSession (i : nat)
| EvRun (i : nat) (line : string).

Inductive remoteEvent : Type :=
| EvSema (capacity : Z)
| EvAcquire (n : Z)
| EvGo (host : string)
| EvWait.

(** The network as one host task sees it: [Dial], the state of the
    context at the check that precedes session [i], [client.NewSession]
    and [sess.Run]. *)
Record HostEnv : Type := mkHostEnv {
  Dial : string -> option error;
  cancelled : nat -> bool;
  NewSession : nat -> option error;
  Run : nat -> string -> option error
}.

(** The loop [for i := range scripts] of [executeHost]. *)
Fixpoint hostLoop (env : HostEnv) (i : nat) (scripts : list string)
    (log : list hostEvent) : list hostEvent * option error :=
  match scripts with
  | [] => (log, None)
  | line :: rest =>
      if cancelled env i then (log, Some ErrCanceled)
      else
        match NewSession env i with
        | Some e => (log, Some e)
        | None =>
            match Run env i line with
            | Some e => (log ++ [EvSession i; EvRun i line], Some e)
            | None => hostLoop env (S i) rest (log ++ [EvSession i; EvRun i line])
            end
        end
  end.

Definition executeHost (env : HostEnv) (addr : string) (scripts : list string)
  : list hostEvent * option error :=
  match Dial env addr with
  | Some e => ([], Some e)
  | None => hostLoop env 0 scripts [EvDial addr]
  end.

(** [grp.Wait()]: the first error among the tasks of the group. The
    group keeps the error of the task that fails first in time; the
    list is in launch order, and the statements below depend only on
    whether some task returned an error. *)
Definition groupWait (results : list (option error)) : option error :=
  List.fold_right (fun r acc => match r with Some e => Some e | None => acc end)
                  None results.

Section Engine.

(** Collaborators that are not part of the sources at hand: the
    nearest-match decoration of a lookup error ([Suggest]), and the
    methods [Can], [Script], [Targets] and [Execute] of a command: its
    authorisation, the rendering of its script, the addresses of its
    remote targets and the outcome of running it. *)
Variable Suggest : error -> string -> list string -> error.
Variable Can : Command -> bool.
Variable Script : Command -> list string -> result (list string).
Variable Targets : Command -> list string.
Variable Execute : Command -> list string -> option error.

Definition allNames (m : Maestro) : list string :=
  List.flat_map (fun kc : string * Command =>
    cmdName (snd kc) ::
    match snd kc with CmdSingle s => Alias s | CmdCombined _ => [] end)
    (map_to_list (Commands m)).

Definition suggest (m : Maestro) (err : error) (name : string) : error :=
  Suggest err name (allNames m).

Definition prepare (m : Maestro) (name : string) : result Command :=
  match lookup m name with
  | Err err => Err (suggest m err name)
  | Ok cmd => Ok cmd
  end.

Definition canExecute (m : Maestro) (cmd : Command) : option error :=
  if Blocked cmd then Some (ErrBlocked (cmdName cmd))
  else if negb (Can cmd) then Some (ErrNotAllowed (cmdName cmd))
  else if Remote m && negb (IsRemote cmd) then Some (ErrNotRemote (cmdName cmd))
  else None.

(** [executeCommand]: the error of the command, dropped under
    [m.MetaExec.Ignore]. *)
Definition executeCommand (m : Maestro) (cmd : Command) (args : list string)
  : option error :=
  match Execute cmd args with
  | Some e => if MetaExec.Ignore (mExec m) then None else Some e
  | None => None
  end.

(** *** [resolveDependenciesBis]

    The closure [traverse] shares the map [seen] with every recursive
    call; here the set is threaded through. [walk] is the body of
    [for _, d := range s.Deps]. *)
Fixpoint walk (rec : gset string -> Command -> option (result (gset string * deplist)))
    (m : Maestro) (deps : list Dep) (seen : gset string) (set : deplist)
  : option (result (gset string * deplist)) :=
  match deps with
  | [] => Some (Ok (seen, set))
  | d :: rest =>
      if decide (dName d ∈ seen) then walk rec m rest seen set
      else
        let seen := {[dName d]} ∪ seen in
        match prepare m (dName d) with
        | Err err => if Optional d then walk rec m rest seen set else Some (Err err)
        | Ok c =>
            match rec seen c with
            | None => None
            | Some (Err err) => Some (Err err)
            | Some (Ok (seen', sub)) =>
                let ed := set_background (Bg d) (createDep c (dArgs d) sub) in
                let ex := if MetaExec.Trace (mExec m) then trace ed else ed in
                walk rec m rest seen' (set ++ [ex])
            end
        end
  end.

Fixpoint traverse (fuel : nat) (m : Maestro) (seen : gset string) (cmd : Command)
  : option (result (gset string * deplist)) :=
  match fuel with
  | O => None
  | S fuel' =>
      match cmd with
      | CmdCombined _ => Some (Ok (seen, []))
      | CmdSingle s => walk (traverse fuel' m) m (Deps s) seen []
      end
  end.

Definition resolveDependenciesBis (fuel : nat) (m : Maestro) (cmd : Command)
  : option (result deplist) :=
  match traverse fuel m ∅ cmd with
  | None => None
  | Some (Err err) => Some (Err err)
  | Some (Ok (_, deps)) => Some (Ok deps)
  end.

(** *** [resolveDependencies] and [executeDependencies] *)
Fixpoint collect (rec : Command -> option (result (list Dep)))
    (m : Maestro) (deps : list Dep) (all : list Dep)
  : option (result (list Dep)) :=
  match deps with
  | [] => Some (Ok all)
  | d :: rest =>
      match lookup m (dName d) with
      | Err err => Some (Err err)
      | Ok c =>
          match rec c with
          | None => None
          | Some (Err err) => Some (Err err)
          | Some (Ok set) => collect rec m rest (all ++ set ++ [d])
          end
      end
  end.

Fixpoint resolveDependencies (fuel : nat) (m : Maestro) (cmd : Command)
  : option (result (list Dep)) :=
  match fuel with
  | O => None
  | S fuel' =>
      match cmd with
      | CmdCombined _ => Some (Ok [])
      | CmdSingle s => collect (resolveDependencies fuel' m) m (Deps s) []
      end
  end.

(** The loop [for i := range deps] of [executeDependencies]. [grp]
    collects what each task launched by [grp.Go] returns: the error of
    the nested [executeDependencies], or nil -- the error of the
    task's own [executeCommand] is not returned. *)
Fixpoint runDeps (rec : Command -> option runlog) (m : Maestro)
    (deps : list Dep) (seen : gset string)
    (log : list (Command * list string)) (grp : list (option error))
  : option runlog :=
  match deps with
  | [] => Some (log, groupWait grp)
  | d :: rest =>
      if decide (dName d ∈ seen) then runDeps rec m rest seen log grp
      else
        let seen := {[dName d]} ∪ seen in
        match prepare m (dName d) with
        | Err err =>
            if Optional d then runDeps rec m rest seen log grp
            else Some (log, Some err)
        | Ok cmd =>
            if Bg d then
              match rec cmd with
              | None => None
              | Some (sub, Some err) =>
                  runDeps rec m rest seen (log ++ sub) (grp ++ [Some err])
              | Some (sub, None) =>
                  let _ := executeCommand m cmd (dArgs d) in
                  runDeps rec m rest seen (log ++ sub ++ [(cmd, dArgs d)])
                          (grp ++ [None])
              end
            else
              match executeCommand m cmd (dArgs d) with
              | Some err =>
                  if Optional d
                  then runDeps rec m rest seen (log ++ [(cmd, dArgs d)]) grp
                  else Some (log ++ [(cmd, dArgs d)], Some err)
              | None => runDeps rec m rest seen (log ++ [(cmd, dArgs d)]) grp
              end
        end
  end.

Fixpoint executeDependencies (fuel : nat) (m : Maestro) (cmd : Command)
  : option runlog :=
  match fuel with
  | O => None
  | S fuel' =>
      match resolveDependencies fuel' m cmd with
      | None => None
      | Some (Err err) => Some ([], Some err)
      | Some (Ok deps) => runDeps (executeDependencies fuel' m) m deps ∅ [] []
      end
  end.

(** *** [resolve] and [execute] *)
Fixpoint resolveList (m : Maestro) (names : list string) : result (list Command) :=
  match names with
  | [] => Ok []
  | n :: rest =>
      match lookup m n with
      | Err err => Err err
      | Ok c =>
          match resolveList m rest with
          | Err err => Err err
          | Ok cs => Ok (c :: cs)
          end
      end
  end.

(** The errors of the four [resolveList] calls overwrite one another
    and are never read: a hook list that fails to resolve is empty. *)
Definition hooks (m : Maestro) (names : list string) : list Command :=
  match resolveList m names with Ok l => l | Err _ => [] end.

Definition resolve (fuel : nat) (m : Maestro) (cmd : Command) (args : list string)
  : option (result executer) :=
  let deps :=
    if NoDeps m then Some (Ok [])
    else resolveDependenciesBis fuel m cmd in
  match deps with
  | None => None
  | Some (Err err) => Some (Err err)
  | Some (Ok dl) =>
      let root := ExMain cmd args dl
                    (hooks m (MetaExec.Before (mExec m)))
                    (hooks m (MetaExec.After (mExec m)))
                    (hooks m (MetaExec.Error (mExec m)))
                    (hooks m (MetaExec.Success (mExec m))) in
      let ex := if MetaExec.Trace (mExec m) then trace root else root in
      Some (Ok (ExTree ex (WithPrefix m)))
  end.

(** What [execute] hands control to. *)
Inductive action : Type :=
| ActHelp (name : string)
| ActDry (cmd : Command)
| ActRemote (cmd : Command)
| ActLocal (ex : executer).

Definition execute (fuel : nat) (m : Maestro) (name : string) (args : list string)
  : option (result action) :=
  if hasHelp args then Some (Ok (ActHelp name))
  else if MetaExec.Dry (mExec m) then
    match prepare m name with
    | Err err => Some (Err err)
    | Ok cmd => Some (Ok (ActDry cmd))
    end
  else
    match prepare m name with
    | Err err => Some (Err err)
    | Ok cmd =>
        match canExecute m cmd with
        | Some err => Some (Err err)
        | None =>
            if Remote m then Some (Ok (ActRemote cmd))
            else
              match resolve fuel m cmd args with
              | None => None
              | Some (Err err) => Some (Err err)
              | Some (Ok ex) => Some (Ok (ActLocal ex))
              end
        end
    end.

(** [ExecuteDefault] *)
Definition ExecuteDefault (fuel : nat) (m : Maestro) (args : list string)
  : option (result action) :=
  if String.eqb (MetaExec.Default (mExec m)) "" then Some (Err ErrNoDefault)
  else execute fuel m (MetaExec.Default (mExec m)) args.

(** *** [executeRemote]

    [acquire k] is the outcome of the [k]-th [sema.Acquire(ctx, 1)]
    (an error once the context is cancelled); [env] is the network as
    each host task sees it. *)
Fixpoint remoteLoop (acquire : nat -> option error) (targets : list string)
    (seen : gset string) (k : nat) (log : list remoteEvent)
  : list remoteEvent * option error :=
  match targets with
  | [] => (log, None)
  | h :: rest =>
      if decide (h ∈ seen) then remoteLoop acquire rest seen k log
      else
        match acquire k with
        | Some err => (log, Some err)
        | None =>
            remoteLoop acquire rest ({[h]} ∪ seen) (S k)
                       (log ++ [EvAcquire 1; EvGo h])
        end
  end.

Definition started (log : list remoteEvent) : list string :=
  List.flat_map (fun ev => match ev with EvGo h => [h] | _ => [] end) log.

(** [m.MetaSSH.Parallel] as [executeRemote] leaves it: a value that is
    not positive is overwritten with [len(cmd.Targets())]. *)
Definition capacity (m : Maestro) (cmd : Command) : Z :=
  if (MetaSSH.Parallel (mSSH m) <=? 0)%Z
  then Z.of_nat (length (Targets cmd))
  else MetaSSH.Parallel (mSSH m).

(** The registry after the call, the events and the returned error. *)
Record remoteRun : Type := mkRun {
  after : Maestro;
  events : list remoteEvent;
  failure : option error
}.

Definition executeRemote (m : Maestro) (cmd : Command) (args : list string)
    (acquire : nat -> option error) (env : string -> HostEnv) : remoteRun :=
  match Script cmd args with
  | Err err => mkRun m [] (Some err)
  | Ok scripts =>
      let parallel := capacity m cmd in
      let m := set_SSH (MetaSSH.set_Parallel parallel (mSSH m)) m in
      match remoteLoop acquire (Targets cmd) ∅ 0 [EvSema parallel] with
      | (log, Some err) => mkRun m log (Some err)
      | (log, None) =>
          mkRun m (log ++ [EvAcquire parallel; EvWait])
            (groupWait (List.map (fun h => snd (executeHost (env h) h scripts))
                                 (started log)))
      end
  end.

End Engine.

(** ** The lexer *)

Module Lexer.

Local Open Scope Z_scope.

(** *** [unicode/utf8], on bytes held as [Z] *)
Definition RuneError : Z := 65533.

Definition cont (b : Z) : bool := (128 <=? b) && (b <=? 191).

(** [utf8.DecodeRune]: the rune at the head of [p] and its width;
    [(RuneError, 0)] on empty input, [(RuneError, 1)] on a malformed
    sequence. *)
Definition DecodeRune (p : list Z) : Z * Z :=
  match p with
  | [] => (RuneError, 0)
  | p0 :: r =>
      if p0 <? 128 then (p0, 1)
      else if p0 <? 194 then (RuneError, 1)
      else if p0 <? 224 then
        match r with
        | b1 :: _ =>
            if cont b1 then (Z.lor (Z.shiftl (Z.land p0 31) 6) (Z.land b1 63), 2)
            else (RuneError, 1)
        | _ => (RuneError, 1)
        end
      else if p0 <? 240 then
        match r with
        | b1 :: b2 :: _ =>
            let lo := if p0 =? 224 then 160 else 128 in
            let hi := if p0 =? 237 then 159 else 191 in
            if (lo <=? b1) && (b1 <=? hi) && cont b2 then
              (Z.lor (Z.shiftl (Z.land p0 15) 12)
                 (Z.lor (Z.shiftl (Z.land b1 63) 6) (Z.land b2 63)), 3)
            else (RuneError, 1)
        | _ => (RuneError, 1)
        end
      else if p0 <? 245 then
        match r with
        | b1 :: b2 :: b3 :: _ =>
            let lo := if p0 =? 240 then 144 else 128 in
            let hi := if p0 =? 244 then 143 else 191 in
            if (lo <=? b1) && (b1 <=? hi) && cont b2 && cont b3 then
              (Z.lor (Z.shiftl (Z.land p0 7) 18)
                 (Z.lor (Z.shiftl (Z.land b1 63) 12)
                    (Z.lor (Z.shiftl (Z.land b2 63) 6) (Z.land b3 63))), 4)
            else (RuneError, 1)
        | _ => (RuneError, 1)
        end
      else (RuneError, 1)
  end.

(** [utf8.RuneLen] *)
Definition RuneLen (r : Z) : Z :=
  if r <? 0 then -1
  else if r <=? 127 then 1
  else if r <=? 2047 then 2
  else if (55296 <=? r) && (r <=? 57343) then -1
  else if r <=? 65535 then 3
  else if r <=? 1114111 then 4
  else -1.

(** [utf8.DecodeLastRune(p)] is compared with ['\n'] only: a last byte
    below 0x80 is returned as it is, and no longer sequence decodes
    to 10. *)
Definition lastIsNL (p : list Z) : bool :=
  match List.rev p with
  | b :: _ => b =? 10
  | [] => false
  end.

(** [strings.Builder.WriteRune] stores the encoding of U+FFFD for a
    rune that is not valid; the builder is kept as the runes written. *)
Definition WriteRune (b : list Z) (r : Z) : list Z :=
  b ++ [if RuneLen r <? 0 then RuneError else r].

Definition EncodeRune (r : Z) : list Z :=
  if r <=? 127 then [r]
  else if r <=? 2047 then
    [Z.lor 192 (Z.shiftr r 6); Z.lor 128 (Z.land r 63)]
  else if r <=? 65535 then
    [Z.lor 224 (Z.shiftr r 12); Z.lor 128 (Z.land (Z.shiftr r 6) 63);
     Z.lor 128 (Z.land r 63)]
  else
    [Z.lor 240 (Z.shiftr r 18); Z.lor 128 (Z.land (Z.shiftr r 12) 63);
     Z.lor 128 (Z.land (Z.shiftr r 6) 63); Z.lor 128 (Z.land r 63)].

Definition builderString (b : list Z) : list Z := List.flat_map EncodeRune b.

(** [unicode.IsSpace] *)
Definition unicodeIsSpace (r : Z) : bool :=
  ((9 <=? r) && (r <=? 13)) || (r =? 32) || (r =? 133) || (r =? 160)
  || (r =? 5760) || ((8192 <=? r) && (r <=? 8202)) || (r =? 8232)
  || (r =? 8233) || (r =? 8239) || (r =? 8287) || (r =? 12288).

Fixpoint dropWhile (f : Z -> bool) (l : list Z) : list Z :=
  match l with
  | [] => []
  | x :: r => if f x then dropWhile f r else l
  end.

(** [strings.TrimSpace] and [strings.TrimLeft(s, "\n\t ")], on the
    runes of the builder. *)
Definition TrimSpace (b : list Z) : list Z :=
  List.rev (dropWhile unicodeIsSpace (List.rev (dropWhile unicodeIsSpace b))).

Definition TrimLeft (b : list Z) : list Z :=
  dropWhile (fun r => (r =? 10) || (r =? 9) || (r =? 32)) b.

(** *** Tokens *)
(** The field [Type] is [Type_] here. *)
Record Token : Type := mkToken { Literal : list Z; Type_ : Z }.

Definition space : Z := 32.
Definition tab : Z := 9.
Definition period : Z := 46.
Definition colon : Z := 58.
Definition percent : Z := 37.
Definition lparen : Z := 40.
Definition rparen : Z := 41.
Definition comment : Z := 35.
Definition quote : Z := 34.
Definition tick : Z := 96.
Definition equal : Z := 61.
Definition comma : Z := 44.
Definition nl : Z := 10.
Definition backslash : Z := 92.
Definition plus : Z := 43.
Definition minus : Z := 45.

Definition eof : Z := -1.
Definition meta : Z := -2.
Definition ident : Z := -3.
Definition value : Z := -4.
Definition variable : Z := -5.
Definition command : Z := -6.
Definition script : Z := -7.
Definition dependency : Z := -8.
Definition invalid : Z := -9.

Definition lexDefault : Z := 0.
Definition lexValue : Z := 256.
Definition lexDeps : Z := 512.
Definition lexScript : Z := 768.

Definition lexNoop : Z := 0.
Definition lexProps : Z := 1.
Definition lexMeta : Z := 2.

Record lexer : Type := mkLexer {
  inner : list Z;
  state : Z;
  char : Z;
  pos : Z;
  next : Z;
  line : Z;
  column : Z
}.

Definition isQuote (x : Z) : bool := (x =? quote) || (x =? tick).
Definition isSpace (x : Z) : bool := (x =? space) || (x =? tab) || (x =? nl).
Definition isComment (x : Z) : bool := x =? comment.
Definition isIdent (x : Z) : bool :=
  ((97 <=? x) && (x <=? 122)) || ((65 <=? x) && (x <=? 90)).
Definition isDigit (x : Z) : bool := (48 <=? x) && (x <=? 57).

(** [x.inner[a:b]] *)
Definition slice (l : list Z) (a b : Z) : list Z :=
  List.firstn (Z.to_nat (b - a)) (List.skipn (Z.to_nat a) l).

Definition set_state (s : Z) (x : lexer) : lexer :=
  mkLexer (inner x) s (char x) (pos x) (next x) (line x) (column x).

Definition readRune (x : lexer) : lexer :=
  if (0 <? pos x) && ((char x =? eof) || (char x =? invalid)) then x
  else
    let '(k, n) := DecodeRune (List.skipn (Z.to_nat (next x)) (inner x)) in
    let c := if k =? RuneError then (if n =? 0 then eof else invalid) else k in
    let atnl := lastIsNL (List.firstn (Z.to_nat (next x)) (inner x)) in
    mkLexer (inner x) (state x) c (next x) (next x + n)
            (if atnl then line x + 1 else line x)
            ((if atnl then 0 else column x) + 1).

Definition unreadRune (x : lexer) : lexer :=
  let atnl := lastIsNL (List.firstn (Z.to_nat (pos x)) (inner x)) in
  mkLexer (inner x) (state x) (char x) (pos x - RuneLen (char x)) (pos x)
          (if atnl && (1 <? line x) then line x - 1 else line x)
          (column x - 1).

Definition peekRune (x : lexer) : Z :=
  fst (DecodeRune (List.skipn (Z.to_nat (next x)) (inner x))).

(** [Lex] *)
Definition Lex (xs : list Z) : lexer :=
  readRune (mkLexer xs lexDefault 0 0 0 1 0).

Fixpoint skipSpace (fuel : nat) (x : lexer) : option lexer :=
  match fuel with
  | O => None
  | S fuel' => if isSpace (char x) then skipSpace fuel' (readRune x) else Some x
  end.

Section WithCommands.

(** The table [commands] of keyword literals is not part of the
    sources at hand. *)
Variable commands : list Z -> bool.

Fixpoint identLoop (fuel : nat) (x : lexer) : option lexer :=
  match fuel with
  | O => None
  | S fuel' =>
      if isIdent (char x) || isDigit (char x)
      then identLoop fuel' (readRune x) else Some x
  end.

Definition readIdent (fuel : nat) (x : lexer) : option (Token * lexer) :=
  match identLoop fuel x with
  | None => None
  | Some x' =>
      let lit := slice (inner x') (pos x) (pos x') in
      Some (mkToken lit (if commands lit then command else ident),
            unreadRune x')
  end.

Fixpoint readValue (fuel : nat) (start : Z) (x : lexer)
  : option (Token * lexer) :=
  match fuel with
  | O => None
  | S fuel' =>
      if (char x =? space) || (char x =? nl) || (char x =? comma)
         || (char x =? rparen)
      then Some (mkToken (slice (inner x) start (pos x)) value, unreadRune x)
      else readValue fuel' start (readRune x)
  end.

Fixpoint commentLoop (fuel : nat) (x : lexer) : option lexer :=
  match fuel with
  | O => None
  | S fuel' =>
      if char x =? nl then Some x else commentLoop fuel' (readRune x)
  end.

Definition readComment (fuel : nat) (x : lexer) : option (Token * lexer) :=
  let x := readRune x in
  match (if char x =? space then skipSpace fuel x else Some x) with
  | None => None
  | Some x1 =>
      match commentLoop fuel x1 with
      | None => None
      | Some x2 => Some (mkToken (slice (inner x2) (pos x1) (pos x2)) comment, x2)
      end
  end.

(** The loop [for x.char != eos] of [readString]. *)
Fixpoint stringLoop (fuel : nat) (ticky : bool) (eos : Z) (x : lexer)
    (b : list Z) : option (list Z * lexer) :=
  match fuel with
  | O => None
  | S fuel' =>
      if char x =? eos then Some (b, x)
      else
        let x1 :=
          if negb ticky && (char x =? backslash) && (peekRune x =? quote)
          then readRune x else x in
        stringLoop fuel' ticky eos (readRune x1) (WriteRune b (char x1))
  end.

Definition readString (fuel : nat) (x : lexer) : option (Token * lexer) :=
  let ticky := char x =? tick in
  let eos := if ticky then tick else quote in
  match stringLoop fuel ticky eos (readRune x) [] with
  | None => None
  | Some (b, x') =>
      let lit := if ticky then TrimLeft b else b in
      Some (mkToken (builderString lit) value, x')
  end.

Fixpoint variableLoop (fuel : nat) (start : Z) (x : lexer)
  : option (Token * lexer) :=
  match fuel with
  | O => None
  | S fuel' =>
      if char x =? rparen
      then Some (mkToken (slice (inner x) start (pos x)) variable, x)
      else if (char x =? space) || (char x =? nl)
      then Some (mkToken [] invalid, x)
      else variableLoop fuel' start (readRune x)
  end.

Definition readVariable (fuel : nat) (x : lexer) : option (Token * lexer) :=
  let x := readRune x in
  if negb (char x =? lparen) then Some (mkToken [] invalid, x)
  else let x := readRune x in variableLoop fuel (pos x) x.

Definition scriptDone (x : lexer) : bool :=
  if char x =? eof then true
  else
    let peek := peekRune x in
    (char x =? nl) && (negb (isSpace peek) || (peek =? eof) || (peek =? comment)).

Fixpoint scriptLoop (fuel : nat) (x : lexer) (str : list Z)
  : option (list Z * lexer) :=
  match fuel with
  | O => None
  | S fuel' =>
      if scriptDone x then Some (str, x)
      else
        let step :=
          if (char x =? nl) && negb (peekRune x =? nl) then
            match skipSpace fuel' (readRune x) with
            | None => None
            | Some x1 => Some (WriteRune str (char x), x1)
            end
          else Some (str, x) in
        match step with
        | None => None
        | Some (str1, x1) =>
            scriptLoop fuel' (readRune x1) (WriteRune str1 (char x1))
        end
  end.

Definition nextScript (fuel : nat) (x : lexer) : option (Token * lexer) :=
  match scriptLoop fuel x [] with
  | None => None
  | Some (str, x') => Some (mkToken (builderString (TrimSpace str)) script, x')
  end.

Definition nextValue (fuel : nat) (x : lexer) : option (Token * lexer) :=
  match (if char x =? space then skipSpace fuel x else Some x) with
  | None => None
  | Some x =>
      if (char x =? nl) || (char x =? comma) || (char x =? rparen)
      then Some (mkToken [] (char x), x)
      else if char x =? minus then Some (mkToken [minus] value, x)
      else if isQuote (char x) then readString fuel x
      else if char x =? percent then readVariable fuel x
      else readValue fuel (pos x) x
  end.

Definition nextDependency (fuel : nat) (x : lexer) : option (Token * lexer) :=
  match (if char x =? space then skipSpace fuel x else Some x) with
  | None => None
  | Some x =>
      if isIdent (char x) then
        match readIdent fuel x with
        | None => None
        | Some (t, x') => Some (mkToken (Literal t) dependency, x')
        end
      else if (char x =? nl) || (char x =? plus)
      then Some (mkToken [] (char x), x)
      else Some (mkToken [] invalid, x)
  end.

Definition nextDefault (fuel : nat) (x : lexer) : option (Token * lexer) :=
  match skipSpace fuel x with
  | None => None
  | Some x =>
      if isIdent (char x) then readIdent fuel x
      else if isQuote (char x) then readString fuel x
      else if isComment (char x) then readComment fuel x
      else if char x =? period then
        match readIdent fuel (readRune x) with
        | None => None
        | Some (t, x') => Some (mkToken (Literal t) meta, x')
        end
      else Some (mkToken [] (char x), x)
  end.

(** [updateState]: the new lexer and the [repeat] flag. *)
Definition updateState (x : lexer) (t : Token) : lexer * bool :=
  if Type_ t =? colon then (set_state (Z.lor lexDeps lexNoop) x, false)
  else if (Type_ t =? equal) || (Type_ t =? command)
  then (set_state (Z.lor (state x) lexValue) x, false)
  else if (Type_ t =? lparen) || (Type_ t =? comma)
  then (set_state (Z.lor lexDefault lexProps) x, false)
  else if Type_ t =? nl then
    if Z.land (state x) 65280 =? lexDeps
    then (set_state (Z.lor (state x) lexScript) x, true)
    else (set_state (Z.lor lexDefault lexNoop) x, false)
  else if Type_ t =? rparen then (set_state (Z.lor lexDefault lexNoop) x, false)
  else if Type_ t =? script
  then (set_state (Z.lor lexDefault lexNoop) x,
        match Literal t with [] => true | _ => false end)
  else (x, false).

(** [Next]; [None] when the fuel does not suffice for the call. *)
Fixpoint Next (fuel : nat) (x : lexer) : option (Token * lexer) :=
  match fuel with
  | O => None
  | S fuel' =>
      if (char x =? eof) || (char x =? invalid)
      then Some (mkToken [] (char x), x)
      else
        let st := Z.land (state x) 65280 in
        let r :=
          if st =? lexValue then
            match nextValue fuel' x with
            | None => None
            | Some (t, x1) =>
                if (Z.land (state x1) 255 =? lexProps) && isSpace (peekRune x1)
                then
                  match skipSpace fuel' (readRune x1) with
                  | None => None
                  | Some x2 => Some (t, unreadRune x2)
                  end
                else Some (t, x1)
            end
          else if st =? lexScript then nextScript fuel' x
          else if st =? lexDeps then nextDependency fuel' x
          else nextDefault fuel' x in
        match r with
        | None => None
        | Some (t, x1) =>
            let '(x2, repeat) := updateState x1 t in
            if repeat then Next fuel' x2 else Some (t, readRune x2)
        end
  end.

End WithCommands.

End Lexer.

(** ** The decoder of meta directives *)

Module Decoder.

Record Token : Type := mkToken { Literal : string; Type_ : kind }.

Definition zeroToken : Token := mkToken "" Zero.
Definition eofToken : Token := mkToken "" Eof.

(** Modelled from the spec: the scanner is "a lazy sequence of typed
    tokens", here the tokens left to deliver, followed by end-of-input
    for ever. *)
Definition Scan (s : list Token) : Token * list Token :=
  match s with
  | [] => (eofToken, [])
  | t :: r => (t, r)
  end.

Record frame : Type := mkFrame { f_curr : Token; f_peek : Token; f_scan : list Token }.

Definition frame_next (f : frame) : frame :=
  let '(t, s) := Scan (f_scan f) in mkFrame (f_peek f) t s.

Definition makeFrame (tokens : list Token) : frame :=
  frame_next (frame_next (mkFrame zeroToken zeroToken tokens)).

Definition metaWorkDir : string := "WORKDIR".
Definition metaTrace : string := "TRACE".
Definition metaAll : string := "ALL".
Definition metaDefault : string := "DEFAULT".
Definition metaBefore : string := "BEFORE".
Definition metaAfter : string := "AFTER".
Definition metaError : string := "ERROR".
Definition metaSuccess : string := "SUCCESS".
Definition metaAuthor : string := "AUTHOR".
Definition metaEmail : string := "EMAIL".
Definition metaVersion : string := "VERSION".
Definition metaUsage : string := "USAGE".
Definition metaHelp : string := "HELP".
Definition metaUser : string := "SSH_USER".
Definition metaPass : string := "SSH_PASSWORD".
Definition metaPubKey : string := "SSH_PUBKEY".
Definition metaKnownHosts : string := "SSH_KNOWN_HOSTS".
Definition metaParallel : string := "SSH_PARALLEL".
Definition metaCertFile : string := "HTTP_CERT_FILE".
Definition metaKeyFile : string := "HTTP_CERT_KEY".

(** The cases of the switch in [decodeMeta]. *)
Definition metaNames : list string :=
  [metaWorkDir; metaTrace; metaAll; metaDefault; metaBefore; metaAfter;
   metaError; metaSuccess; metaAuthor; metaEmail; metaVersion; metaUsage;
   metaHelp; metaUser; metaPass; metaPubKey; metaKnownHosts; metaParallel;
   metaCertFile; metaKeyFile].

(** [strconv.ParseBool] *)
Definition ParseBool (str : string) : bool * option error :=
  if List.existsb (String.eqb str) ["1"; "t"; "T"; "TRUE"; "true"; "True"]
  then (true, None)
  else if List.existsb (String.eqb str) ["0"; "f"; "F"; "FALSE"; "false"; "False"]
  then (false, None)
  else (false, Some (ErrOther "strconv.ParseBool: invalid syntax")).

Definition isKind (k1 k2 : kind) : bool :=
  match k1, k2 with
  | Zero, Zero | Eof, Eof | Invalid, Invalid | Ident, Ident
  | String_, String_ | Hidden, Hidden | Meta, Meta | Keyword, Keyword
  | Comment, Comment | Assign, Assign | Append, Append | Eol, Eol
  | Blank, Blank | Quote, Quote | Variable_, Variable_ | BegList, BegList
  | EndList, EndList | Comma, Comma | BegScript, BegScript
  | EndScript, EndScript | Script_, Script_ | Dependency, Dependency => true
  | _, _ => false
  end.

Section WithCollaborators.

(** Not part of the sources at hand: the scope chain ([env.Env] with
    [Resolve] and [Unwrap]), the classification methods of a token,
    [slices.AppendValues], and [strconv.ParseInt(str, 0, 64)]. *)
Variable Env : Type.
Variable Resolve : Env -> string -> list string * option error.
Variable Unwrap : Env -> Env.
Variable IsValue IsVariable IsBlank IsEOF : Token -> bool.
Variable AppendValues : list (list string) -> list string -> list (list string).
Variable ParseInt : string -> Z * option error.

(** The frames are kept innermost first: the head is [d.frames[z-1]]. *)
Record Decoder : Type := mkDecoder { locals : Env; frames : list frame }.

Definition frame_done (f : frame) : bool := IsEOF (f_curr f).

Definition pop (d : Decoder) : Decoder :=
  match frames d with
  | _ :: (_ :: _) as rest => mkDecoder (Unwrap (locals d)) rest
  | _ => d
  end.

Definition next (d : Decoder) : Decoder :=
  match frames d with
  | [] => d
  | f :: rest =>
      let d' := mkDecoder (locals d) (frame_next f :: rest) in
      if frame_done (frame_next f) then pop d' else d'
  end.

Definition done (d : Decoder) : bool :=
  match frames d with
  | [f] => frame_done f
  | _ => false
  end.

Definition curr (d : Decoder) : Token :=
  match frames d with
  | f :: _ => f_curr f
  | [] => zeroToken
  end.

(** [d.is(kind)], written [is_]. *)
Definition is_ (d : Decoder) (k : kind) : bool := isKind (Type_ (curr d)) k.

Definition unexpected (d : Decoder) : error :=
  ErrUnexpected (Type_ (curr d)) (Literal (curr d)).

Definition ensureEOL (d : Decoder) : option error * Decoder :=
  match Type_ (curr d) with
  | Eol | Comment => (None, next d)
  | _ => (Some (unexpected d), d)
  end.

Fixpoint skip (fuel : nat) (k : kind) (d : Decoder) : option Decoder :=
  match fuel with
  | O => None
  | S fuel' => if is_ d k then skip fuel' k (next d) else Some d
  end.

Definition skipBlank (fuel : nat) (d : Decoder) : option Decoder :=
  skip fuel Blank d.

(** A call that returns Go's pair [(value, err)] and the decoder it
    leaves behind. *)
Definition out (A : Type) : Type := option ((A * option error) * Decoder).

Fixpoint quoteLoop (fuel : nat) (d : Decoder) (str : list string)
  : out (list string) :=
  match fuel with
  | O => None
  | S fuel' =>
      if negb (done d) && negb (isKind (Type_ (curr d)) Quote) then
        if IsVariable (curr d) then
          match Resolve (locals d) (Literal (curr d)) with
          | (_, Some err) => Some (([], Some err), d)
          | (vs, None) =>
              match vs with
              | [v] => quoteLoop fuel' (next d) (str ++ [v])
              | _ => Some (([], Some ErrQuoteValues), d)
              end
          end
        else quoteLoop fuel' (next d) (str ++ [Literal (curr d)])
      else Some ((str, None), d)
  end.

Definition decodeQuote (fuel : nat) (d : Decoder) : out string :=
  match quoteLoop fuel (next d) [] with
  | None => None
  | Some ((_, Some err), d') => Some (("", Some err), d')
  | Some ((str, None), d') =>
      if negb (isKind (Type_ (curr d')) Quote)
      then Some (("", Some (unexpected d')), d')
      else Some ((String.concat "" str, None), d')
  end.

Fixpoint valueLoop (fuel : nat) (d : Decoder) (str : list (list string))
  : out (list (list string)) :=
  match fuel with
  | O => None
  | S fuel' =>
      if IsValue (curr d) then
        if IsVariable (curr d) then
          match Resolve (locals d) (Literal (curr d)) with
          | (_, Some err) => Some (([], Some err), d)
          | (vs, None) => valueLoop fuel' (next d) (AppendValues str vs)
          end
        else if isKind (Type_ (curr d)) Quote then
          match decodeQuote fuel' d with
          | None => None
          | Some ((_, Some err), d') => Some (([], Some err), d')
          | Some ((s, None), d') => valueLoop fuel' (next d') (AppendValues str [s])
          end
        else valueLoop fuel' (next d) (AppendValues str [Literal (curr d)])
      else Some ((str, None), d)
  end.

Definition decodeValue (fuel : nat) (d : Decoder) : out (list string) :=
  match valueLoop fuel d [] with
  | None => None
  | Some ((_, Some err), d') => Some (([], Some err), d')
  | Some ((str, None), d') => Some ((List.map (String.concat "") str, None), d')
  end.

Fixpoint stringListLoop (fuel : nat) (d : Decoder) (str : list string)
  : out (list string) :=
  match fuel with
  | O => None
  | S fuel' =>
      if negb (done d) then
        match decodeValue fuel' d with
        | None => None
        | Some ((_, Some err), d') => Some (([], Some err), d')
        | Some ((xs, None), d') =>
            if negb (IsBlank (curr d')) then Some ((str ++ xs, None), d')
            else
              match skipBlank fuel' d' with
              | None => None
              | Some d'' => stringListLoop fuel' d'' (str ++ xs)
              end
        end
      else Some ((str, None), d)
  end.

Definition atEOL (d : Decoder) : bool :=
  isKind (Type_ (curr d)) Eol || isKind (Type_ (curr d)) Comment.

Definition parseStringList (fuel : nat) (d : Decoder) : out (list string) :=
  if atEOL d then Some (([], None), d) else stringListLoop fuel d [].

Definition parseString (fuel : nat) (d : Decoder) : out string :=
  if atEOL d then Some (("", None), d)
  else if negb (IsValue (curr d)) then Some (("", Some (unexpected d)), d)
  else
    match decodeValue fuel d with
    | None => None
    | Some ((_, Some err), d') => Some (("", Some err), d')
    | Some ((str, None), d') =>
        match str with
        | [v] => Some ((v, None), d')
        | _ => Some (("", Some ErrTooManyValues), d')
        end
    end.

Definition parseBool (fuel : nat) (d : Decoder) : out bool :=
  match parseString fuel d with
  | None => None
  | Some ((str, err), d') =>
      match err with
      | Some _ => Some ((false, err), d')
      | None =>
          if String.eqb str "" then Some ((false, None), d')
          else Some (ParseBool str, d')
      end
  end.

Definition parseInt (fuel : nat) (d : Decoder) : out Z :=
  match parseString fuel d with
  | None => None
  | Some ((str, err), d') =>
      match err with
      | Some _ => Some ((0%Z, err), d')
      | None =>
          if String.eqb str "" then Some ((0%Z, None), d')
          else Some (ParseInt str, d')
      end
  end.

(** The tail of [decodeMeta]: [if err == nil { err = d.ensureEOL() }]. *)
Definition finish (mst : Maestro) (err : option error) (d : Decoder)
  : option error * Decoder * Maestro :=
  match err with
  | Some _ => (err, d, mst)
  | None => let '(e, d') := ensureEOL d in (e, d', mst)
  end.

(** One case of the switch: [field, err = d.parse...()]. The field is
    assigned whatever the call returns, also when [err] is set. *)
Definition store {A : Type} (p : out A) (set : A -> Maestro -> Maestro)
    (mst : Maestro) : option (option error * Decoder * Maestro) :=
  match p with
  | None => None
  | Some ((v, err), d) => Some (finish (set v mst) err d)
  end.

Definition onExec (f : MetaExec.t -> MetaExec.t) (m : Maestro) : Maestro :=
  set_Exec (f (mExec m)) m.
Definition onAbout (f : MetaAbout.t -> MetaAbout.t) (m : Maestro) : Maestro :=
  set_About (f (mAbout m)) m.
Definition onSSH (f : MetaSSH.t -> MetaSSH.t) (m : Maestro) : Maestro :=
  set_SSH (f (mSSH m)) m.
Definition onHttp (f : MetaHttp.t -> MetaHttp.t) (m : Maestro) : Maestro :=
  set_Http (f (mHttp m)) m.

Definition decodeMeta (fuel : nat) (d : Decoder) (mst : Maestro)
  : option (option error * Decoder * Maestro) :=
  let meta := curr d in
  let d := next d in
  if negb (is_ d Assign) then Some (Some (unexpected d), d, mst)
  else
    let d := next d in
    let name := Literal meta in
    if String.eqb name metaWorkDir then
      store (parseString fuel d) (fun v => onExec (MetaExec.set_WorkDir v)) mst
    else if String.eqb name metaTrace then
      store (parseBool fuel d) (fun v => onExec (MetaExec.set_Trace v)) mst
    else if String.eqb name metaAll then
      store (parseStringList fuel d) (fun v => onExec (MetaExec.set_All v)) mst
    else if String.eqb name metaDefault then
      store (parseString fuel d) (fun v => onExec (MetaExec.set_Default v)) mst
    else if String.eqb name metaBefore then
      store (parseStringList fuel d) (fun v => onExec (MetaExec.set_Before v)) mst
    else if String.eqb name metaAfter then
      store (parseStringList fuel d) (fun v => onExec (MetaExec.set_After v)) mst
    else if String.eqb name metaError then
      store (parseStringList fuel d) (fun v => onExec (MetaExec.set_Error v)) mst
    else if String.eqb name metaSuccess then
      store (parseStringList fuel d) (fun v => onExec (MetaExec.set_Success v)) mst
    else if String.eqb name metaAuthor then
      store (parseString fuel d) (fun v => onAbout (MetaAbout.set_Author v)) mst
    else if String.eqb name metaEmail then
      store (parseString fuel d) (fun v => onAbout (MetaAbout.set_Email v)) mst
    else if String.eqb name metaVersion then
      store (parseString fuel d) (fun v => onAbout (MetaAbout.set_Version v)) mst
    else if String.eqb name metaUsage then
      store (parseString fuel d) (fun v => onAbout (MetaAbout.set_Usage v)) mst
    else if String.eqb name metaHelp then
      store (parseString fuel d) (fun v => onAbout (MetaAbout.set_Help v)) mst
    else if String.eqb name metaUser then
      store (parseString fuel d) (fun v => onSSH (MetaSSH.set_User v)) mst
    else if String.eqb name metaPass then
      store (parseString fuel d) (fun v => onSSH (MetaSSH.set_Pass v)) mst
    else if String.eqb name metaPubKey then
      Some (finish mst None d)
    else if String.eqb name metaKnownHosts then
      Some (finish mst None d)
    else if String.eqb name metaParallel then
      store (parseInt fuel d) (fun v => onSSH (MetaSSH.set_Parallel v)) mst
    else if String.eqb name metaCertFile then
      store (parseString fuel d) (fun v => onHttp (MetaHttp.set_CertFile v)) mst
    else if String.eqb name metaKeyFile then
      store (parseString fuel d) (fun v => onHttp (MetaHttp.set_KeyFile v)) mst
    else Some (Some (ErrUnknownMeta name), d, mst).

End WithCollaborators.

End Decoder.

(** ** [CheckHostKey] *)

(** A known host: its name and the marshalled bytes of its public key,
    which is all [CheckHostKey] compares. *)
Record hostEntry : Type := mkEntry { heHost : string; heKey : string }.

(** [MetaSSH.CheckHostKey] over the entries [m.Hosts]; [key] is
    [key.Marshal()]. *)
Definition CheckHostKey (hosts : list hostEntry) (host addr key : string)
  : option error :=
  match hosts with
  | [] => None
  | _ =>
      let entry := fun i => nth i hosts (mkEntry "" "") in
      let i := GoSort.Search (length hosts)
                 (fun i => String.leb host (heHost (entry i))) in
      if (i <? length hosts) && String.eqb (heHost (entry i)) host then
        if String.eqb (heKey (entry i)) key then None
        else Some (ErrOther (host ++ ": public key mismatched"))
      else Some (ErrOther (host ++ " unknwon host (" ++ addr ++ ")"))
  end.

(** ** [Graph] *)

(** [traverseGraph]: the lines printed, [strings.Repeat(" ", level*2)]
    then ["- "] and the name, and the returned pair. *)
Fixpoint indent (n : nat) : string :=
  match n with
  | O => ""
  | S n' => (" " ++ indent n')%string
  end.

Definition graphOut : Type := (list string * result (list string))%type.

Fixpoint graphLoop (rec : string -> option graphOut) (deps : list Dep)
    (out : list string) (names : list string) : option graphOut :=
  match deps with
  | [] => Some (out, Ok names)
  | d :: rest =>
      match rec (dName d) with
      | None => None
      | Some (o, Err err) => Some (out ++ o, Err err)
      | Some (o, Ok others) =>
          graphLoop rec rest (out ++ o) (names ++ others ++ [dName d])
      end
  end.

Fixpoint traverseGraph (fuel : nat) (m : Maestro) (name : string) (level : nat)
  : option graphOut :=
  match lookup m name with
  | Err err => Some ([], Err err)
  | Ok (CmdCombined _) => Some ([], Ok [])
  | Ok (CmdSingle s) =>
      match fuel with
      | O => None
      | S fuel' =>
          graphLoop (fun n => traverseGraph fuel' m n (S level)) (Deps s)
                    [(indent (level * 2) ++ "- " ++ name)%string] []
      end
  end.

(** The loop of [Graph] that keeps the first occurrence of each name. *)
Fixpoint graphDedup (all : list string) (seen : gset string) (deps : list string)
  : list string :=
  match all with
  | [] => deps
  | n :: rest =>
      if decide (n ∈ seen) then graphDedup rest seen deps
      else graphDedup rest ({[n]} ∪ seen) (deps ++ [n])
  end.

(** [Graph]: the lines printed and the returned error; the order line
    is printed also when the traversal failed. *)
Definition Graph (fuel : nat) (m : Maestro) (name : string)
  : option (list string * option error) :=
  match traverseGraph fuel m name 0 with
  | None => None
  | Some (out, r) =>
      let all := match r with Ok l => l | Err _ => [] end in
      let deps := graphDedup all ∅ [] in
      Some (out ++ [("order " ++ String.concat " -> " deps ++ " -> " ++ name)%string],
            match r with Ok _ => None | Err err => Some err end)
  end.

(** ** The decoder of a command's dependencies and script *)

Module CommandDecoder.

Import Decoder.

(** [CommandDep] *)
Record CommandDep : Type := mkCommandDep { Name : string; Args : list string }.

Section WithCollaborators.

(** Not part of the sources at hand: the scope chain, the
    classification methods of a token, and [strings.TrimSpace]. *)
Variable Env : Type.
Variable Resolve : Env -> string -> list string * option error.
Variable Unwrap : Env -> Env.
Variable IsPrimitive IsVariable IsEOF : Token -> bool.
Variable TrimSpace : string -> string.

Abbreviation next := (Decoder.next Env Unwrap IsEOF).
Abbreviation done := (Decoder.done Env IsEOF).
Abbreviation curr := (Decoder.curr Env).
Abbreviation is_ := (Decoder.is_ Env).
Abbreviation unexpected := (Decoder.unexpected Env).
Abbreviation ensureEOL := (Decoder.ensureEOL Env Unwrap IsEOF).

(** The loop over the arguments of one dependency, up to the closing
    parenthesis. *)
Fixpoint argsLoop (fuel : nat) (d : Decoder Env) (args : list string)
  : option (result (list string) * Decoder Env) :=
  match fuel with
  | O => None
  | S fuel' =>
      if negb (done d) && negb (is_ d EndList) then
        let step := fun args' =>
          let d1 := next d in
          argsLoop fuel' (if is_ d1 Comma then next d1 else d1) args' in
        if IsPrimitive (curr d) then step (args ++ [Literal (curr d)])
        else if IsVariable (curr d) then
          match Resolve (locals Env d) (Literal (curr d)) with
          | (_, Some err) => Some (Err err, d)
          | (vs, None) => step (args ++ vs)
          end
        else Some (Err (unexpected d), d)
      else Some (Ok args, d)
  end.

(** The arguments of a dependency, if a list follows its name. *)
Definition depArgs (fuel : nat) (d : Decoder Env)
  : option (result (list string) * Decoder Env) :=
  if is_ d BegList then
    match argsLoop fuel (next d) [] with
    | None => None
    | Some (Err err, d') => Some (Err err, d')
    | Some (Ok args, d') =>
        if negb (is_ d' EndList) then Some (Err (unexpected d'), d')
        else Some (Ok args, next d')
    end
  else Some (Ok [], d).

(** The loop of [decodeCommandDependencies]; [deps] is [cmd.Deps],
    which keeps what was appended when an error is returned. *)
Fixpoint depsLoop (fuel : nat) (d : Decoder Env) (deps : list CommandDep)
  : option (option error * list CommandDep * Decoder Env) :=
  match fuel with
  | O => None
  | S fuel' =>
      if negb (done d) && negb (is_ d BegScript) then
        if negb (is_ d Ident) then Some (Some (unexpected d), deps, d)
        else
          match depArgs fuel' (next d) with
          | None => None
          | Some (Err err, d') => Some (Some err, deps, d')
          | Some (Ok args, d') =>
              let deps' := deps ++ [mkCommandDep (Literal (curr d)) args] in
              match Type_ (curr d') with
              | Comma => depsLoop fuel' (next d') deps'
              | BegScript => depsLoop fuel' d' deps'
              | _ => Some (Some (unexpected d'), deps', d')
              end
          end
      else Some (None, deps, d)
  end.

Definition decodeCommandDependencies (fuel : nat) (d : Decoder Env)
    (deps : list CommandDep)
  : option (option error * list CommandDep * Decoder Env) :=
  match depsLoop fuel (next d) deps with
  | None => None
  | Some (Some err, deps', d') => Some (Some err, deps', d')
  | Some (None, deps', d') =>
      if negb (is_ d' BegScript) then Some (Some (unexpected d'), deps', d')
      else Some (None, deps', d')
  end.

(** The loop of [decodeCommandHelp] over the comments that open a
    script: the text gathered and the last comment seen. *)
Fixpoint helpLoop (fuel : nat) (d : Decoder Env) (help prev : string)
  : option (string * Decoder Env) :=
  match fuel with
  | O => None
  | S fuel' =>
      if negb (done d) && is_ d Comment then
        let str := Literal (curr d) in
        if String.eqb str "" && String.eqb prev ""
        then helpLoop fuel' (next d) help prev
        else helpLoop fuel' (next d)
               (help ++ TrimSpace str ++ String (Ascii.ascii_of_nat 10) "") str
      else Some (help, d)
  end.

(** [decodeCommandHelp]: the value of [cmd.Desc]; the error is always
    nil. *)
Definition decodeCommandHelp (fuel : nat) (d : Decoder Env)
  : option (string * Decoder Env) :=
  match helpLoop fuel d "" "" with
  | None => None
  | Some (help, d') => Some (TrimSpace help, d')
  end.

(** [decodeScriptLine]; the deferred [d.next()] is registered after the
    check of the token. *)
Definition decodeScriptLine (d : Decoder Env) : (string * option error) * Decoder Env :=
  if negb (is_ d Script_) then (("", Some (unexpected d)), d)
  else ((Literal (curr d), None), next d).

(** The loop of [decodeCommandScripts]; [lines] is [cmd.Lines]. *)
Fixpoint scriptsLoop (fuel : nat) (d : Decoder Env) (lines : list string)
  : option (option error * list string * Decoder Env) :=
  match fuel with
  | O => None
  | S fuel' =>
      if negb (done d) && negb (is_ d EndScript) then
        match Type_ (curr d) with
        | Comment => scriptsLoop fuel' (next d) lines
        | _ =>
            match decodeScriptLine d with
            | ((_, Some err), d') => Some (Some err, lines, d')
            | ((line, None), d') => scriptsLoop fuel' d' (lines ++ [line])
            end
        end
      else Some (None, lines, d)
  end.

(** [decodeCommandScripts]: the error, [cmd.Desc], [cmd.Lines] and the
    decoder. *)
Definition decodeCommandScripts (fuel : nat) (d : Decoder Env)
    (lines : list string)
  : option (option error * string * list string * Decoder Env) :=
  match decodeCommandHelp fuel (next d) with
  | None => None
  | Some (desc, d1) =>
      match scriptsLoop fuel d1 lines with
      | None => None
      | Some (Some err, lines', d2) => Some (Some err, desc, lines', d2)
      | Some (None, lines', d2) =>
          if negb (is_ d2 EndScript)
          then Some (Some (unexpected d2), desc, lines', d2)
          else
            let '(e, d3) := ensureEOL (next d2) in
            Some (e, desc, lines', d3)
      end
  end.

End WithCollaborators.

End CommandDecoder.

(** ** The package [wrap] *)

Module Wrap.

Local Open Scope Z_scope.

Definition DefaultLength : Z := 70.
Definition DefaultThreshold : Z := 2.

Definition space : Z := 32.
Definition tab : Z := 9.
Definition nl : Z := 10.

Definition isBlank (r : Z) : bool := (r =? space) || (r =? tab).
Definition isNL (r : Z) : bool := r =? nl.

(** [len] of a string, which is held as its bytes. *)
Definition len (str : list Z) : Z := Z.of_nat (length str).

(** [strings.Builder.WriteRune], the builder held as its bytes: a rune
    that is not valid is written as U+FFFD. *)
Definition WriteRune (ws : list Z) (r : Z) : list Z :=
  ws ++ Lexer.EncodeRune (if Lexer.RuneLen r <? 0 then Lexer.RuneError else r).

(** [skip]: the loop from the offset [n]. *)
Fixpoint skipLoop (fuel : nat) (str : list Z) (fn : Z -> bool) (n : Z)
  : option Z :=
  match fuel with
  | O => None
  | S fuel' =>
      let '(r, z) := Lexer.DecodeRune (List.skipn (Z.to_nat n) str) in
      if negb (fn r) then Some n else skipLoop fuel' str fn (n + z)
  end.

Definition skip (fuel : nat) (str : list Z) (fn : Z -> bool) : option Z :=
  skipLoop fuel str fn 0.

(** The loop of [advance]: the offset [curr] it ends with and the bytes
    of the builder. *)
Fixpoint advanceLoop (fuel : nat) (str : list Z) (n : Z) (curr prev : Z)
    (ws : list Z) : option (Z * list Z) :=
  match fuel with
  | O => None
  | S fuel' =>
      let '(r, z) := Lexer.DecodeRune (List.skipn (Z.to_nat curr) str) in
      let curr := if negb (r =? Lexer.RuneError) then curr + z else curr in
      if isNL r then
        match skip fuel' (List.skipn (Z.to_nat curr) str) isNL with
        | None => None
        | Some k => Some (curr + k, WriteRune ws nl)
        end
      else if isBlank r || (r =? Lexer.RuneError) then
        match skip fuel' (List.skipn (Z.to_nat curr) str) isBlank with
        | None => None
        | Some k =>
            let curr := curr + k in
            let z := len ws in
            if (z =? n) || ((n <? z) && (z - n <? DefaultThreshold))
            then Some (curr, ws)
            else if (n <? z) && (DefaultThreshold <? z - n)
            then Some (prev, ws)
            else advanceLoop fuel' str n curr curr (WriteRune ws r)
        end
      else advanceLoop fuel' str n curr prev (WriteRune ws r)
  end.

Definition advance (fuel : nat) (str : list Z) (n : Z)
  : option (list Z * Z) :=
  match str with
  | [] => Some ([], 0)
  | _ =>
      match advanceLoop fuel str n 0 0 [] with
      | None => None
      | Some (curr, ws) =>
          Some (if curr <? len ws then List.firstn (Z.to_nat curr) ws else ws,
                curr)
      end
  end.

Section WithTrimSpace.

(** [strings.TrimSpace], on the bytes of a string. *)
Variable TrimSpace : list Z -> list Z.

(** The loop of [WrapN]; [first] tells the first round, where [i] is 0. *)
Fixpoint wrapLoop (fuel : nat) (str : list Z) (n : Z) (first : bool)
    (ptr : Z) (ws : list Z) : option (list Z) :=
  match fuel with
  | O => None
  | S fuel' =>
      if ptr <? len str then
        let ws := if first then ws else WriteRune ws nl in
        match advance fuel' (List.skipn (Z.to_nat ptr) str) n with
        | None => None
        | Some (next, x) =>
            if x =? 0 then Some ws
            else wrapLoop fuel' str n false (ptr + x) (ws ++ TrimSpace next)
        end
      else Some ws
  end.

Definition WrapN (fuel : nat) (str : list Z) (n : Z) : option (list Z) :=
  wrapLoop fuel str n true 0 [].

Definition Wrap (fuel : nat) (str : list Z) : option (list Z) :=
  WrapN fuel str DefaultLength.

End WithTrimSpace.

End Wrap.

(** ** Auxiliary definitions for the statements *)

(** The node built for one resolved edge. *)
Definition node (m : Maestro) (c : Command) (d : Dep) (sub : deplist) : executer :=
  let ed := ExDep c (dArgs d) sub (Bg d) in
  if MetaExec.Trace (mExec m) then ExTrace ed else ed.


(** A host that the loop of [executeRemote] has not yet met. *)
Definition unseen (seen : gset string) (h : string) : bool := bool_decide (h ∉ seen).

(** Following the spec's words: "the distinct target host set (in
    first-seen order, deduplicated)". *)
Fixpoint distinctFirstSeen (l : list string) : list string :=
  match l with
  | [] => []
  | x :: r => x :: List.filter (fun y => negb (String.eqb y x)) (distinctFirstSeen r)
  end.

(** The names of the commands a run of the dependencies executed. *)
Definition ran (r : option runlog) : option (list string * option error) :=
  match r with
  | Some (log, err) => Some (List.map (fun ca => cmdName (fst ca)) log, err)
  | None => None
  end.

(** The events of launching the host tasks [hs]. *)
Definition launches (hs : list string) : list remoteEvent :=
  List.flat_map (fun h => [EvAcquire 1; EvGo h]) hs.

(** The events of the sessions for [lines], the first at index [i]. *)
Fixpoint sessions (i : nat) (lines : list string) : list hostEvent :=
  match lines with
  | [] => []
  | line :: rest => EvSession i :: EvRun i line :: sessions (S i) rest
  end.

(** The order of Go strings, as a proposition. *)
Definition lebP (a b : string) : Prop := String.leb a b = true.

(** The name [lookup] searches for. *)
Definition effectiveName (m : Maestro) (name : string) : string :=
  if String.eqb name "" then MetaExec.Default (mExec m) else name.

(** A command stored under [k] carries the name [k], and so does every
    member of a combined command. *)
#[warnings="-register-all"]
Inductive named (k : string) : Command -> Prop :=
| named_single s : Name s = k -> named k (CmdSingle s)
| named_combined mul : List.Forall (named k) mul -> named k (CmdCombined mul).

Definition wellKeyed (m : Maestro) : Prop :=
  forall k c, Commands m !! k = Some c -> named k c.

(** Registering a list of definitions in order, as the decoder does,
    stopping at the first error. *)
Fixpoint registerAll (m : Maestro) (cmds : list Single) : result Maestro :=
  match cmds with
  | [] => Ok m
  | cmd :: rest =>
      match Register m cmd with
      | Err err => Err err
      | Ok m' => registerAll m' rest
      end
  end.

(** The dependency names a command declares, and all the names that a
    resolution started at [cmd] can meet. *)
Definition depNames (c : Command) : gset string :=
  match c with
  | CmdSingle s => list_to_set (List.map dName (Deps s))
  | CmdCombined _ => ∅
  end.

Definition universe (m : Maestro) (cmd : Command) : gset string :=
  depNames cmd ∪ ⋃ (List.map (fun kc => depNames (snd kc)) (map_to_list (Commands m))).

(** What a walk that has returned guarantees: the visited set only
    grows, inside the universe, and no more nodes are added than names. *)
Definition grows (U seen : gset string) (n : nat)
    (r : result (gset string * deplist)) : Prop :=
  match r with
  | Err _ => True
  | Ok (seen', set') =>
      seen ⊆ seen' /\ seen' ⊆ seen ∪ U /\
      length (List.flat_map nodes set') + size seen <= n + size seen'
  end.

(** [c] declares a dependency that [lookup] resolves to [c']. *)
Definition dependsOn (m : Maestro) (c c' : Command) : Prop :=
  exists s d, c = CmdSingle s /\ In d (Deps s) /\ lookup m (dName d) = Ok c'.

(** From [c] a dependency cycle can be reached. *)
Definition reachesCycle (m : Maestro) (c : Command) : Prop :=
  exists c', rtc (dependsOn m) c c' /\ tc (dependsOn m) c' c'.

(** The command at the root of what [resolve] builds. *)
Fixpoint rootCommand (ex : executer) : option Command :=
  match ex with
  | ExMain c _ _ _ _ _ _ => Some c
  | ExDep c _ _ _ => Some c
  | ExTrace e => rootCommand e
  | ExTree e _ => rootCommand e
  end.

(** The command an action of [execute] runs, if it runs one. *)
Definition runs (a : action) : option Command :=
  match a with
  | ActHelp _ => None
  | ActDry _ => None
  | ActRemote cmd => Some cmd
  | ActLocal ex => rootCommand ex
  end.

(** The bytes of the input that the lexer has not read yet. *)
Definition unread (x : Lexer.lexer) : list Z :=
  List.skipn (Z.to_nat (Lexer.next x)) (Lexer.inner x).

(** Neither the current rune nor a byte left to read is one of [stops]. *)
Definition clean (stops : list Z) (x : Lexer.lexer) : Prop :=
  (forall t, In t stops -> ~ In t (unread x)) /\
  (forall t, In t stops -> Lexer.char x <> t).

(** The rune that [readRune] finds at the head of [p]: the end-of-input
    or the invalid marker where [utf8.DecodeRune] answers [RuneError]. *)
Definition runeAt (p : list Z) : Z :=
  let '(k, n) := Lexer.DecodeRune p in
  if (k =? Lexer.RuneError)%Z
  then (if (n =? 0)%Z then Lexer.eof else Lexer.invalid) else k.

(** A letter or a digit: what the loop of [readIdent] accepts. *)
Definition identRune (b : Z) : bool := Lexer.isIdent b || Lexer.isDigit b.

(** Two registries that differ in their meta records at most. *)
Definition sameRegistry (m m' : Maestro) : Prop :=
  Commands m' = Commands m /\ Duplicate m' = Duplicate m /\
  Remote m' = Remote m /\ NoDeps m' = NoDeps m /\ WithPrefix m' = WithPrefix m.

(** The tokens of a dependency list [n1, n2, ...]. *)
Fixpoint depList (ns : list string) : list Decoder.Token :=
  match ns with
  | [] => []
  | [n] => [Decoder.mkToken n Ident]
  | n :: rest => Decoder.mkToken n Ident :: Decoder.mkToken "" Comma :: depList rest
  end.

(** A dependency without arguments. *)
Definition plainDep (n : string) : CommandDecoder.CommandDep :=
  CommandDecoder.mkCommandDep n [].

(** A token of a script body: a script line or a comment. *)
Definition bodyToken (t : Decoder.Token) : Prop :=
  Decoder.Type_ t = Script_ \/ Decoder.Type_ t = Comment.

(** The script lines among the tokens of a body. *)
Definition scriptLines (body : list Decoder.Token) : list string :=
  List.map Decoder.Literal
    (List.filter (fun t => Decoder.isKind (Decoder.Type_ t) Script_) body).

(** Bytes of a line of ASCII text, and of a word in it. *)
Definition lineByte (b : Z) : Prop := (0 <= b < 128)%Z /\ b <> Wrap.nl.
Definition wordByte (b : Z) : Prop := lineByte b /\ Wrap.isBlank b = false.

(** No blank follows another one. *)
Fixpoint singleBlanks (str : list Z) : Prop :=
  match str with
  | b :: (c :: _) as rest =>
      (Wrap.isBlank b = true -> Wrap.isBlank c = false) /\ singleBlanks rest
  | _ => True
  end.

(** The text is over, or goes on with a blank. *)
Definition blankOrEnd (rest : list Z) : Prop :=
  match rest with
  | [] => True
  | b :: _ => Wrap.isBlank b = true
  end.

(** A byte of the text of a double-quoted string: ASCII, neither the
    quote nor the backslash. *)
Definition textByte (b : Z) : Prop :=
  (0 <= b < 128)%Z /\ b <> Lexer.quote /\ b <> Lexer.backslash.

(** After a value, [Next] skips the blanks that follow it in the value
    state of a property list, and in no other state. *)
Definition skipsBlanks (st : Z) : bool :=
  ((Z.land st 65280 =? Lexer.lexValue) && (Z.land st 255 =? Lexer.lexProps))%Z.

(** * Sample data *)

Definition single (name : string) (deps : list Dep) (lines : list string) : Single :=
  mkSingle name [] deps true [] lines.

Definition withDuplicate (policy : string) (m : Maestro) : Maestro :=
  mkMaestro (mExec m) (mAbout m) (mSSH m) (mHttp m) policy (Commands m)
            (Remote m) (NoDeps m) (WithPrefix m).

Definition build1 : Single := single "build" [] ["go build"].
Definition build2 : Single := single "build" [] ["go vet"].
Definition build3 : Single := single "build" [] ["go test"].

Definition registry (cs : list Single) (m : Maestro) : Maestro :=
  set_Commands (list_to_map (List.map (fun s => (Name s, CmdSingle s)) cs)) m.

Definition withDefault (name : string) (m : Maestro) : Maestro :=
  set_Exec (MetaExec.set_Default name (mExec m)) m.

(** A [Suggest] that finds no near match and a policy that allows all. *)
Definition noSuggest (err : error) (name : string) (all : list string) : error := err.
Definition allowAll (c : Command) : bool := true.

Definition edge (name : string) : Dep := mkDep name [] false false.
Definition optionalEdge (name : string) : Dep := mkDep name [] false true.
Definition backgroundEdge (name : string) : Dep := mkDep name [] true false.

(** The diamond [a: b c], [b: d], [c: d]. *)
Definition cmdA : Single := single "a" [edge "b"; edge "c"] ["echo a"].
Definition cmdB : Single := single "b" [edge "d"] ["echo b"].
Definition cmdC : Single := single "c" [edge "d"] ["echo c"].
Definition cmdD : Single := single "d" [] ["echo d"].
Definition diamond : Maestro := registry [cmdA; cmdB; cmdC; cmdD] New.

(** The same diamond with [b] as a background dependency of [a], and
    [o: x? d] with an optional edge to a name that is not declared. *)
Definition cmdAbg : Single := single "a" [backgroundEdge "b"; edge "c"] ["echo a"].
Definition diamondBg : Maestro := registry [cmdAbg; cmdB; cmdC; cmdD] New.
Definition cmdO : Single := single "o" [optionalEdge "x"; edge "d"] ["echo o"].


(** [p: b& c&], two background dependencies. *)
Definition cmdP : Single := single "p" [backgroundEdge "b"; backgroundEdge "c"] ["echo p"].
Definition cmdQ : Single := single "q" [edge "b"; edge "c"] ["echo q"].
Definition leafB : Single := single "b" [] ["exit 1"].
Definition leafC : Single := single "c" [] ["echo c"].
Definition leaves : Maestro := registry [cmdP; cmdQ; leafB; leafC] New.

(** Lexer inputs: an opening double quote, [abc], and no closing quote;
    the same with the closing quote and a newline; a backtick string
    around the byte 0xFF. *)
Definition unterminated : list Z := [34; 97; 98; 99]%Z.
Definition terminated : list Z := [34; 97; 98; 99; 34; 10]%Z.
Definition malformed : list Z := [96; 255; 96]%Z.
Definition noKeywords (lit : list Z) : bool := false.

(** Decoder inputs: [.SSH_PUBKEY = id_rsa], [.SSH_USER = root] and
    [.COLOR = red], each followed by a newline, with sample
    collaborators. *)
Definition metaLine (name value : string) : list Decoder.Token :=
  [Decoder.mkToken name Meta; Decoder.mkToken "" Assign;
   Decoder.mkToken value String_; Decoder.mkToken "" Eol].
Definition sampleResolve (ev : unit) (name : string) : list string * option error :=
  ([], Some (ErrOther "undefined variable")).
Definition sampleIsValue (t : Decoder.Token) : bool :=
  match Decoder.Type_ t with
  | String_ | Ident | Variable_ | Quote => true
  | _ => false
  end.
Definition sampleIsVariable (t : Decoder.Token) : bool :=
  Decoder.isKind (Decoder.Type_ t) Variable_.
Definition sampleIsBlank (t : Decoder.Token) : bool :=
  Decoder.isKind (Decoder.Type_ t) Blank.
Definition sampleIsEOF (t : Decoder.Token) : bool :=
  Decoder.isKind (Decoder.Type_ t) Eof.
Definition sampleAppend (str : list (list string)) (tmp : list string)
  : list (list string) := str ++ [tmp].
Definition sampleParseInt (str : string) : Z * option error := (0%Z, None).
Definition sampleDecoder (tokens : list Decoder.Token) : Decoder.Decoder unit :=
  Decoder.mkDecoder unit tt [Decoder.makeFrame tokens].
Definition sampleDecodeMeta (tokens : list Decoder.Token) (mst : Maestro) :=
  Decoder.decodeMeta unit sampleResolve (fun ev => ev) sampleIsValue sampleIsVariable
    sampleIsBlank sampleIsEOF sampleAppend sampleParseInt 9
    (sampleDecoder tokens) mst.

(** Commands with the same host twice in their target list, the
    targets and script lines read off the command, and a limiter that
    is never interrupted. *)
Definition deploy : Single :=
  mkSingle "deploy" [] [] true ["h1"; "h2"; "h1"] ["uptime"].
Definition twice : Single :=
  mkSingle "twice" [] [] true ["h1"; "h1"] ["uptime"].
Definition hostsOf (c : Command) : list string :=
  match c with
  | CmdSingle s => Hosts s
  | CmdCombined _ => []
  end.
Definition renderLines (c : Command) (args : list string) : result (list string) :=
  match c with
  | CmdSingle s => Ok (Lines s)
  | CmdCombined _ => Ok []
  end.
Definition noCancel (k : nat) : option error := None.

(** A host that answers, with the context cancelled from the check
    before session [k] on. *)
Definition cancelledFrom (k : nat) : HostEnv :=
  mkHostEnv (fun _ => None) (fun i => k <=? i) (fun _ => None) (fun _ _ => None).

(** Outcomes of scripts: all succeed; the command called [name] fails. *)
Definition succeeding (c : Command) (args : list string) : option error := None.

Definition failing (name : string) (c : Command) (args : list string) : option error :=
  if String.eqb (cmdName c) name then Some (ErrOther "exit status 1") else None.

(** A command with two sorted aliases, and two known hosts sorted by name. *)
Definition cmdTest : Single :=
  mkSingle "test" ["check"; "t"] [] true [] ["go test"].
Definition knownHosts : list hostEntry :=
  [mkEntry "alpha" "AAAA"; mkEntry "beta" "BBBB"].

(** A dependency cycle: [ping: pong], [pong: ping]. *)
Definition cmdPing : Single := single "ping" [edge "pong"] ["echo ping"].
Definition cmdPong : Single := single "pong" [edge "ping"] ["echo pong"].
Definition cyclic : Maestro := registry [cmdPing; cmdPong] New.

(** Lexer inputs: a comment that no newline ends; [a= b], and the lexer
    after its first two tokens; [ab1] and a newline. *)
Definition commentOnly : list Z := [35; 32; 97]%Z.
Definition assignment : list Z := [97; 61; 32; 98]%Z.
Definition afterEqual : Lexer.lexer :=
  Lexer.mkLexer assignment 256 32 2 3 1 3.
Definition word : list Z := [97; 98; 49; 10]%Z.

(** Decoder inputs: the dependency list [: a, b {] and the script
    [{ # build / go build / # then / go vet }] followed by a newline. *)
Definition sampleDeps : list Decoder.Token :=
  [Decoder.mkToken "" Dependency; Decoder.mkToken "a" Ident;
   Decoder.mkToken "" Comma; Decoder.mkToken "b" Ident;
   Decoder.mkToken "" BegScript].
Definition sampleScript : list Decoder.Token :=
  [Decoder.mkToken "" BegScript; Decoder.mkToken "build" Comment;
   Decoder.mkToken "go build" Script_; Decoder.mkToken "then" Comment;
   Decoder.mkToken "go vet" Script_; Decoder.mkToken "" EndScript;
   Decoder.mkToken "" Eol].

(** [strings.TrimSpace] on bytes below 128: the blanks of ASCII are cut
    at both ends. *)
Definition asciiSpace (b : Z) : bool :=
  ((9 <=? b) && (b <=? 13) || (b =? 32))%Z.
Definition asciiTrimSpace (str : list Z) : list Z :=
  List.rev (Lexer.dropWhile asciiSpace (List.rev (Lexer.dropWhile asciiSpace str))).

(** [a bc] and [abcdef gh]. *)
Definition shortLine : list Z := [97; 32; 98; 99]%Z.
Definition longWord : list Z := [97; 98; 99; 100; 101; 102; 32; 103; 104]%Z.

(** A quoted string and a newline: ["hi" ] then a line feed, and the
    lexer in the value state on its opening quote. *)
Definition quoted : list Z := [34; 104; 105; 34; 10]%Z.
Definition onQuote : Lexer.lexer := Lexer.set_state Lexer.lexValue (Lexer.Lex quoted).

(** The same string as the value of a property, ["hi"] then two blanks
    and a comma, and the lexer in the value state of a property list. *)
Definition quotedProp : list Z := [34; 104; 105; 34; 32; 32; 44]%Z.
Definition onQuoteProp : Lexer.lexer :=
  Lexer.set_state (Z.lor Lexer.lexValue Lexer.lexProps) (Lexer.Lex quotedProp).

(** * Properties *)

(** ** [sort] and [hasHelp] *)

Lemma search_loop_bounds fuel f i j :
  i <= j -> i <= GoSort.search_loop fuel f i j <= j.
Proof.
  revert i j.
  induction fuel as [|fuel IH]; intros i j Hij; cbn [GoSort.search_loop]; [lia|].
  destruct (Nat.ltb_spec i j) as [Hlt|Hge]; [|lia].
  assert (Hh : i <= (i + j) / 2 < j).
  { split.
    - apply Nat.div_le_lower_bound; lia.
    - apply Nat.Div0.div_lt_upper_bound; lia. }
  destruct (f ((i + j) / 2)).
  - specialize (IH i ((i + j) / 2)). lia.
  - specialize (IH ((i + j) / 2 + 1) j). lia.
Qed.

(** The fuel [j - i] is enough: more of it changes nothing. *)
Lemma search_loop_enough fuel f i j :
  j - i <= fuel ->
  GoSort.search_loop (S fuel) f i j = GoSort.search_loop fuel f i j.
Proof.
  revert i j.
  induction fuel as [|fuel IH]; intros i j Hf.
  - cbn [GoSort.search_loop].
    destruct (Nat.ltb_spec i j); [lia|reflexivity].
  - change (GoSort.search_loop (S (S fuel)) f i j)
      with (if i <? j then
              if f ((i + j) / 2) then GoSort.search_loop (S fuel) f i ((i + j) / 2)
              else GoSort.search_loop (S fuel) f ((i + j) / 2 + 1) j
            else i).
    change (GoSort.search_loop (S fuel) f i j)
      with (if i <? j then
              if f ((i + j) / 2) then GoSort.search_loop fuel f i ((i + j) / 2)
              else GoSort.search_loop fuel f ((i + j) / 2 + 1) j
            else i).
    destruct (Nat.ltb_spec i j) as [Hlt|Hge]; [|reflexivity].
    assert (Hh : i <= (i + j) / 2 < j).
    { split.
      - apply Nat.div_le_lower_bound; lia.
      - apply Nat.Div0.div_lt_upper_bound; lia. }
    destruct (f ((i + j) / 2)); apply IH; lia.
Qed.

Lemma Search_le n f : GoSort.Search n f <= n.
Proof. unfold GoSort.Search. pose proof (search_loop_bounds n f 0 n). lia. Qed.

Lemma In_insert_sorted x y l :
  In y (GoSort.insert_sorted x l) <-> y = x \/ In y l.
Proof.
  induction l as [|z l IH]; simpl.
  - intuition.
  - destruct (String.leb x z); simpl; rewrite ?IH; intuition.
Qed.

Lemma In_Strings y l : In y (GoSort.Strings l) <-> In y l.
Proof.
  induction l as [|x l IH]; simpl; [tauto|].
  rewrite In_insert_sorted, IH. intuition.
Qed.

Lemma length_insert_sorted x l :
  length (GoSort.insert_sorted x l) = S (length l).
Proof.
  induction l as [|z l IH]; simpl; [reflexivity|].
  destruct (String.leb x z); simpl; congruence.
Qed.

Lemma length_Strings l : length (GoSort.Strings l) = length l.
Proof.
  induction l as [|x l IH]; simpl; [reflexivity|].
  rewrite length_insert_sorted. congruence.
Qed.

(** Whatever index the search lands on, [hasHelp] answers with an
    element of the argument list. *)
Lemma hasHelp_true_inv args :
  hasHelp args = true -> exists a, In a args /\ isHelpFlag a = true.
Proof.
  unfold hasHelp.
  set (as_ := GoSort.Strings args). set (i := GoSort.Search _ _).
  destruct (Nat.leb_spec (length as_) i) as [|Hlt]; [discriminate|].
  intros H. exists (nth i as_ ""). split; [|exact H].
  apply In_Strings. apply nth_In. exact Hlt.
Qed.

Lemma hasHelp_none args :
  (forall a, In a args -> isHelpFlag a = false) -> hasHelp args = false.
Proof.
  intros H. destruct (hasHelp args) eqn:E; [|reflexivity].
  destruct (hasHelp_true_inv args E) as (a & Ha & Hf).
  rewrite (H a Ha) in Hf. discriminate.
Qed.

Example hasHelp_samples :
  hasHelp [] = false /\ hasHelp ["-h"] = true /\ hasHelp ["-help"] = true /\
  hasHelp ["--help"] = true /\ hasHelp ["build"; "-h"] = true /\
  hasHelp ["--verbose"; "-help"] = false.
Proof. repeat split; reflexivity. Qed.

Lemma execute_help Suggest Can fuel m name args :
  hasHelp args = true ->
  execute Suggest Can fuel m name args = Some (Ok (ActHelp name)).
Proof. intros H. unfold execute. rewrite H. reflexivity. Qed.

Lemma execute_no_help Suggest Can fuel m name args :
  hasHelp args = false ->
  execute Suggest Can fuel m name args <> Some (Ok (ActHelp name)).
Proof.
  intros H. unfold execute. rewrite H.
  destruct (MetaExec.Dry (mExec m)).
  - destruct (prepare Suggest m name); discriminate.
  - destruct (prepare Suggest m name) as [cmd|]; [|discriminate].
    destruct (canExecute Can m cmd); [discriminate|].
    destruct (Remote m); [discriminate|].
    destruct (resolve Suggest fuel m cmd args) as [[?|?]|]; discriminate.
Qed.

(** C5, at the failing input: [-h] is an argument, yet the binary search
    of [hasHelp] stops on [-f], the first element not below [--help],
    and [execute] does not print the help. *)
Theorem hasHelp_misses_flag_behind_other_option :
  In "-h" ["-f"; "-h"] /\
  GoSort.Strings ["-f"; "-h"] = ["-f"; "-h"] /\
  hasHelp ["-f"; "-h"] = false /\
  forall Suggest Can fuel m name,
    execute Suggest Can fuel m name ["-f"; "-h"] <> Some (Ok (ActHelp name)).
Proof.
  split; [simpl; tauto|]. split; [reflexivity|]. split; [reflexivity|].
  intros. apply execute_no_help. reflexivity.
Qed.

(** ** [Register] *)

Lemma Register_unused m cmd :
  Commands m !! Name cmd = None ->
  Register m cmd = Ok (set_Commands (<[Name cmd := CmdSingle cmd]> (Commands m)) m).
Proof. intros H. unfold Register. rewrite H. reflexivity. Qed.

Lemma Register_error m cmd curr :
  Commands m !! Name cmd = Some curr -> Duplicate m = dupError ->
  Register m cmd = Err (ErrDuplicate (Name cmd)).
Proof. intros H D. unfold Register. rewrite H, D. reflexivity. Qed.

Lemma Register_replace m cmd curr :
  Commands m !! Name cmd = Some curr ->
  Duplicate m = dupReplace \/ Duplicate m = "" ->
  Register m cmd = Ok (set_Commands (<[Name cmd := CmdSingle cmd]> (Commands m)) m).
Proof. intros H [D|D]; unfold Register; rewrite H, D; reflexivity. Qed.

Lemma Register_append_single m cmd prev :
  Commands m !! Name cmd = Some (CmdSingle prev) -> Duplicate m = dupAppend ->
  Register m cmd =
  Ok (set_Commands
        (<[Name cmd := CmdCombined [CmdSingle prev; CmdSingle cmd]]> (Commands m)) m).
Proof. intros H D. unfold Register. rewrite H, D. reflexivity. Qed.

Lemma Register_append_combined m cmd mul :
  Commands m !! Name cmd = Some (CmdCombined mul) -> Duplicate m = dupAppend ->
  Register m cmd = Ok m.
Proof. intros H D. unfold Register. rewrite H, D. reflexivity. Qed.

(** The members of a combined command run in order up to the first
    failure. *)
Lemma executeCombined_all_ok run mul :
  (forall c, In c mul -> run c = None) -> executeCombined run mul = (mul, None).
Proof.
  induction mul as [|c mul IH]; intros H; simpl; [reflexivity|].
  rewrite (H c) by (left; reflexivity).
  rewrite IH by (intros; apply H; right; assumption). reflexivity.
Qed.

Lemma executeCombined_stops run pre c post e :
  (forall x, In x pre -> run x = None) -> run c = Some e ->
  executeCombined run (pre ++ c :: post) = (pre ++ [c], Some e).
Proof.
  induction pre as [|x pre IH]; intros H Hc; simpl.
  - rewrite Hc. reflexivity.
  - rewrite (H x) by (left; reflexivity).
    rewrite IH; [reflexivity| |assumption].
    intros; apply H; right; assumption.
Qed.

(** C2, at the failing input: under the "append" policy the second
    definition of [build] is combined with the first, the third is
    accepted without an error and is not stored. *)
Theorem Register_append_loses_third_definition :
  exists m1 m2,
    Register (withDuplicate dupAppend New) build1 = Ok m1 /\
    Register m1 build2 = Ok m2 /\
    Commands m2 !! "build" = Some (CmdCombined [CmdSingle build1; CmdSingle build2]) /\
    Register m2 build3 = Ok m2.
Proof.
  eexists. eexists.
  split; [reflexivity|]. split; [reflexivity|]. split; [reflexivity|].
  reflexivity.
Qed.

(** ** [lookup] *)

Lemma hasAlias_In name c :
  hasAlias name c = true -> exists s, c = CmdSingle s /\ In name (Alias s).
Proof.
  destruct c as [s|mul]; simpl; [|discriminate].
  intros H. apply andb_prop in H as [Hi He].
  apply Nat.ltb_lt in Hi. apply String.eqb_eq in He.
  exists s. split; [reflexivity|].
  rewrite <- He. apply nth_In. exact Hi.
Qed.

Lemma lookup_default m :
  lookup m "" = lookup m (MetaExec.Default (mExec m)).
Proof.
  unfold lookup. cbn [String.eqb].
  destruct (String.eqb (MetaExec.Default (mExec m)) "") eqn:E; [|reflexivity].
  apply String.eqb_eq in E. rewrite E. reflexivity.
Qed.

Lemma lookup_key m name cmd :
  name <> "" -> Commands m !! name = Some cmd -> lookup m name = Ok cmd.
Proof.
  intros Hn H. unfold lookup.
  destruct (String.eqb name "") eqn:E.
  - apply String.eqb_eq in E. contradiction.
  - rewrite H. reflexivity.
Qed.

Lemma lookup_miss m name :
  let n := if String.eqb name "" then MetaExec.Default (mExec m) else name in
  Commands m !! n = None ->
  (forall k s, Commands m !! k = Some (CmdSingle s) -> ~ In n (Alias s)) ->
  lookup m name = Err (ErrNotDefined n).
Proof.
  intros n Hk Ha. unfold lookup. fold n. rewrite Hk.
  destruct (List.find _ _) as [[k c]|] eqn:F; [exfalso|reflexivity].
  apply List.find_some in F as [Hin Hal]. cbn [snd] in Hal.
  apply list_elem_of_In, elem_of_map_to_list in Hin.
  destruct (hasAlias_In _ _ Hal) as (s & -> & Hs).
  exact (Ha k s Hin Hs).
Qed.

Lemma execute_same_command Suggest Can fuel m n1 n2 args cmd :
  hasHelp args = false ->
  prepare Suggest m n1 = Ok cmd -> prepare Suggest m n2 = Ok cmd ->
  execute Suggest Can fuel m n1 args = execute Suggest Can fuel m n2 args.
Proof.
  intros Hh H1 H2. unfold execute. rewrite Hh, H1, H2. reflexivity.
Qed.

(** C10, as the code has it: the empty name is looked up as the name of
    the default command. Without a help flag among the arguments,
    [execute] on the empty name handles the command that the default
    name resolves to: it dry-runs it in dry mode; otherwise it returns
    the error of [canExecute] if there is one, runs the command on the
    remote hosts in remote mode, and else runs the tree that [resolve]
    builds, which has the command at its root. With no default and no
    command or alias of the empty name it fails with "command not
    defined", as [suggest] decorates it. With a help flag it hands over
    to [ExecuteHelp] with the empty name, before any lookup. *)
Theorem lookup_empty_name_is_default Suggest Can fuel m args :
  lookup m "" = lookup m (MetaExec.Default (mExec m)) /\
  (hasHelp args = true ->
   execute Suggest Can fuel m "" args = Some (Ok (ActHelp ""))) /\
  (hasHelp args = false ->
   (forall cmd,
      lookup m (MetaExec.Default (mExec m)) = Ok cmd ->
      (MetaExec.Dry (mExec m) = true ->
       execute Suggest Can fuel m "" args = Some (Ok (ActDry cmd))) /\
      (MetaExec.Dry (mExec m) = false ->
       (forall err, canExecute Can m cmd = Some err ->
          execute Suggest Can fuel m "" args = Some (Err err)) /\
       (canExecute Can m cmd = None -> Remote m = true ->
          execute Suggest Can fuel m "" args = Some (Ok (ActRemote cmd))) /\
       (canExecute Can m cmd = None -> Remote m = false ->
          forall ex, resolve Suggest fuel m cmd args = Some (Ok ex) ->
            execute Suggest Can fuel m "" args = Some (Ok (ActLocal ex)) /\
            rootCommand ex = Some cmd))) /\
   (MetaExec.Default (mExec m) = "" ->
    Commands m !! "" = None ->
    (forall k s, Commands m !! k = Some (CmdSingle s) -> ~ In "" (Alias s)) ->
    lookup m "" = Err (ErrNotDefined "") /\
    execute Suggest Can fuel m "" args =
    Some (Err (suggest Suggest m (ErrNotDefined "") "")))).
Proof.
  split; [apply lookup_default|]. split.
  { intros Hh. unfold execute. rewrite Hh. reflexivity. }
  intros Hh. split.
  - intros cmd Hc.
    assert (H0 : prepare Suggest m "" = Ok cmd).
    { unfold prepare. rewrite lookup_default, Hc. reflexivity. }
    split; intros Hd.
    + unfold execute. rewrite Hh, Hd, H0. reflexivity.
    + split; [|split].
      * intros err He. unfold execute. rewrite Hh, Hd, H0, He. reflexivity.
      * intros Hn Hr. unfold execute. rewrite Hh, Hd, H0, Hn, Hr. reflexivity.
      * intros Hn Hr ex Hex. split.
        { unfold execute. rewrite Hh, Hd, H0, Hn, Hr, Hex. reflexivity. }
        { revert Hex. unfold resolve.
          destruct (if NoDeps m then _ else _) as [[dl|e]|]; try discriminate.
          intros [= <-]. destruct (MetaExec.Trace (mExec m)); reflexivity. }
  - intros Hd Hk Ha.
    assert (Hl : lookup m "" = Err (ErrNotDefined "")).
    { pose proof (lookup_miss m "") as L. cbn [String.eqb] in L.
      rewrite Hd in L. apply L; assumption. }
    split; [exact Hl|].
    unfold execute, prepare. rewrite Hh, Hl.
    destruct (MetaExec.Dry (mExec m)); reflexivity.
Qed.

Lemma lookup_empty_name_is_default_witness :
  lookup (withDefault "d" diamond) "" = Ok (CmdSingle cmdD) /\
  (exists ex,
     execute noSuggest allowAll 3 (withDefault "d" diamond) "" ["-v"] =
       Some (Ok (ActLocal ex)) /\
     rootCommand ex = Some (CmdSingle cmdD)) /\
  execute noSuggest allowAll 3 New "" ["-v"] = Some (Err (ErrNotDefined "")).
Proof.
  destruct (lookup_empty_name_is_default noSuggest allowAll 3
              (withDefault "d" diamond) ["-v"]) as (H1 & _ & H3).
  destruct (lookup_empty_name_is_default noSuggest allowAll 3 New ["-v"])
    as (_ & _ & N3).
  split; [rewrite H1; reflexivity|]. split.
  - destruct (H3 eq_refl) as [Hrun _].
    destruct (Hrun (CmdSingle cmdD) eq_refl) as [_ Hnd].
    destruct (Hnd eq_refl) as (_ & _ & Hloc).
    destruct (resolve noSuggest 3 (withDefault "d" diamond) (CmdSingle cmdD) ["-v"])
      as [[ex|e]|] eqn:Eres.
    + exists ex. exact (Hloc eq_refl eq_refl ex eq_refl).
    + vm_compute in Eres. discriminate Eres.
    + vm_compute in Eres. discriminate Eres.
  - destruct (N3 eq_refl) as [_ Herr].
    apply Herr.
    + reflexivity.
    + reflexivity.
    + intros k s H. unfold New in H. cbn [Commands] in H.
      rewrite lookup_empty in H. discriminate.
Defined.

(** C10, the claim as stated fails: with a help flag among the
    arguments, [execute] on the empty name runs no command, although
    the default command is registered: it hands over to [ExecuteHelp]
    with the empty name, where the default name hands over with the
    name of the command; and with no default and no command at all it
    returns no lookup error. *)
Lemma help_flag_on_empty_name_runs_nothing :
  hasHelp ["-h"] = true /\
  lookup (withDefault "d" diamond) "" = Ok (CmdSingle cmdD) /\
  execute noSuggest allowAll 3 (withDefault "d" diamond) "" ["-h"] =
    Some (Ok (ActHelp "")) /\
  runs (ActHelp "") = None /\
  execute noSuggest allowAll 3 (withDefault "d" diamond) "d" ["-h"] =
    Some (Ok (ActHelp "d")) /\
  lookup New "" = Err (ErrNotDefined "") /\
  execute noSuggest allowAll 3 New "" ["-h"] = Some (Ok (ActHelp "")).
Proof. repeat split; reflexivity. Qed.

(** ** The dependency resolver *)

(** Membership of a name in a visited set built by unions of singletons. *)
Ltac visited :=
  rewrite ?elem_of_union, ?elem_of_singleton, ?elem_of_empty;
  intuition congruence.

Section Resolver.

Variable Suggest : error -> string -> list string -> error.

Lemma nodes_node m c d sub :
  nodes (node m c d sub) = c :: List.flat_map nodes sub.
Proof. unfold node. destruct (MetaExec.Trace (mExec m)); reflexivity. Qed.

Lemma executed_node m c d sub :
  executed (node m c d sub) = List.flat_map executed sub ++ [c].
Proof. unfold node. destruct (MetaExec.Trace (mExec m)); reflexivity. Qed.

Lemma walk_seen rec m d rest seen set :
  dName d ∈ seen -> walk Suggest rec m (d :: rest) seen set = walk Suggest rec m rest seen set.
Proof. intros H. cbn [walk]. rewrite decide_True by exact H. reflexivity. Qed.


Lemma walk_found rec m d rest seen set c seen' sub :
  dName d ∉ seen -> prepare Suggest m (dName d) = Ok c ->
  rec ({[dName d]} ∪ seen) c = Some (Ok (seen', sub)) ->
  walk Suggest rec m (d :: rest) seen set = walk Suggest rec m rest seen' (set ++ [node m c d sub]).
Proof.
  intros H P R. cbn [walk]. rewrite decide_False by exact H.
  rewrite P, R. reflexivity.
Qed.


(** More fuel does not change what a walk has returned. *)
Lemma walk_mono rec1 rec2 m deps :
  (forall seen c r, rec1 seen c = Some r -> rec2 seen c = Some r) ->
  forall seen set r,
    walk Suggest rec1 m deps seen set = Some r ->
    walk Suggest rec2 m deps seen set = Some r.
Proof.
  intros Hrec. induction deps as [|d deps IH]; intros seen set r H; [exact H|].
  cbn [walk] in *.
  destruct (decide (dName d ∈ seen)); [apply IH; exact H|].
  destruct (prepare Suggest m (dName d)) as [c|err].
  - destruct (rec1 ({[dName d]} ∪ seen) c) as [r1|] eqn:E; [|discriminate].
    rewrite (Hrec _ _ _ E).
    destruct r1 as [[seen' sub]|e]; [apply IH; exact H|exact H].
  - destruct (Optional d); [apply IH; exact H|exact H].
Qed.

Lemma traverse_mono fuel m :
  forall seen c r,
    traverse Suggest fuel m seen c = Some r ->
    traverse Suggest (S fuel) m seen c = Some r.
Proof.
  induction fuel as [|fuel IH]; intros seen c r H; [discriminate|].
  cbn [traverse] in H. change (traverse Suggest (S (S fuel)) m seen c)
    with (match c with
          | CmdCombined _ => Some (Ok (seen, []))
          | CmdSingle s => walk Suggest (traverse Suggest (S fuel) m) m (Deps s) seen []
          end).
  destruct c as [s|mul]; [|exact H].
  apply (walk_mono (traverse Suggest fuel m)); [exact IH|exact H].
Qed.


(** C1: in a diamond the shared dependency is resolved once, under
    the first edge that reaches it, and runs once. *)
Theorem resolve_diamond_once fuel m root eB eC b c eD1 eD2 d :
  3 <= fuel ->
  Deps root = [eB; eC] ->
  dName eB <> dName eC ->
  lookup m (dName eB) = Ok (CmdSingle b) -> Name b = dName eB ->
  lookup m (dName eC) = Ok (CmdSingle c) -> Name c = dName eC ->
  Deps b = [eD1] -> Deps c = [eD2] -> dName eD1 = dName eD2 ->
  dName eD1 <> dName eB -> dName eD1 <> dName eC ->
  lookup m (dName eD1) = Ok (CmdSingle d) -> Name d = dName eD1 ->
  Deps d = [] ->
  exists tree,
    resolveDependenciesBis Suggest fuel m (CmdSingle root) = Some (Ok tree) /\
    tree = [node m (CmdSingle b) eB [node m (CmdSingle d) eD1 []];
            node m (CmdSingle c) eC []] /\
    count_occ String.string_dec (List.map cmdName (List.flat_map nodes tree)) (dName eD1) = 1 /\
    count_occ String.string_dec (List.map cmdName (List.flat_map executed tree)) (dName eD1) = 1.
Proof.
  intros Hf HR HBC LB NB LC NC HB HC HDD HDB HDC LD ND HD.
  destruct fuel as [|[|[|fuel]]]; try lia.
  assert (PB : prepare Suggest m (dName eB) = Ok (CmdSingle b))
    by (unfold prepare; rewrite LB; reflexivity).
  assert (PC : prepare Suggest m (dName eC) = Ok (CmdSingle c))
    by (unfold prepare; rewrite LC; reflexivity).
  assert (PD : prepare Suggest m (dName eD1) = Ok (CmdSingle d))
    by (unfold prepare; rewrite LD; reflexivity).
  eexists. split; [|split; [reflexivity|]].
  - unfold resolveDependenciesBis.
    cbn [traverse]. rewrite HR.
    rewrite (walk_found _ m eB [eC] ∅ [] (CmdSingle b)
               ({[dName eD1]} ∪ ({[dName eB]} ∪ ∅)) [node m (CmdSingle d) eD1 []]);
      [|visited|exact PB|].
    + rewrite (walk_found _ m eC [] _ _ (CmdSingle c)
                 ({[dName eC]} ∪ ({[dName eD1]} ∪ ({[dName eB]} ∪ ∅))) []);
        [reflexivity|visited|exact PC|].
      cbn [traverse]. rewrite HC.
      rewrite walk_seen by (rewrite <- HDD; visited). reflexivity.
    + cbn [traverse]. rewrite HB.
      rewrite (walk_found _ m eD1 [] _ _ (CmdSingle d)
                 ({[dName eD1]} ∪ ({[dName eB]} ∪ ∅)) []);
        [reflexivity|visited|exact PD|].
      cbn [traverse]. rewrite HD. reflexivity.
  - cbn [List.flat_map]. rewrite !nodes_node, !executed_node.
    cbn [List.flat_map app List.map cmdName]. rewrite !nodes_node, !executed_node.
    cbn [List.flat_map app List.map cmdName count_occ].
    rewrite NB, NC, ND.
    destruct (String.string_dec (dName eB) (dName eD1)) as [E|_]; [congruence|].
    destruct (String.string_dec (dName eC) (dName eD1)) as [E|_]; [congruence|].
    destruct (String.string_dec (dName eD1) (dName eD1)) as [_|E]; [|congruence].
    split; reflexivity.
Qed.

End Resolver.

Lemma resolve_diamond_once_witness :
  exists tree,
    resolveDependenciesBis noSuggest 3 diamond (CmdSingle cmdA) = Some (Ok tree) /\
    tree = [node diamond (CmdSingle cmdB) (edge "b") [node diamond (CmdSingle cmdD) (edge "d") []];
            node diamond (CmdSingle cmdC) (edge "c") []] /\
    count_occ String.string_dec (List.map cmdName (List.flat_map nodes tree)) "d" = 1 /\
    count_occ String.string_dec (List.map cmdName (List.flat_map executed tree)) "d" = 1.
Proof.
  apply (resolve_diamond_once noSuggest 3 diamond cmdA (edge "b") (edge "c")
           cmdB cmdC (edge "d") (edge "d") cmdD);
    try (vm_compute; reflexivity); try (simpl; discriminate); lia.
Defined.



(** ** [executeDependencies] *)

(** [executeDependencies] is the older way through the dependencies,
    which [execute] no longer takes. It flattens the dependencies with
    [resolveDependencies] and skips the names it has run; a background
    dependency runs its own dependencies again, and a missing target
    fails in [resolveDependencies] also when the edge is optional. *)
Lemma executeDependencies_diamond_foreground :
  ran (executeDependencies noSuggest succeeding 4 diamond (CmdSingle cmdA)) =
  Some (["d"; "b"; "c"], None).
Proof. vm_compute. reflexivity. Qed.

Lemma executeDependencies_diamond_background :
  ran (executeDependencies noSuggest succeeding 4 diamondBg (CmdSingle cmdAbg)) =
  Some (["d"; "d"; "b"; "c"], None).
Proof. vm_compute. reflexivity. Qed.

Lemma executeDependencies_optional_missing :
  ran (executeDependencies noSuggest succeeding 4 diamond (CmdSingle cmdO)) =
  Some ([], Some (ErrNotDefined "x")).
Proof. vm_compute. reflexivity. Qed.

(** In the foreground the error of a dependency is returned. *)
Lemma foreground_failure_is_reported :
  executeDependencies noSuggest (failing "b") 3 leaves (CmdSingle cmdQ) =
  Some ([(CmdSingle leafB, [])], Some (ErrOther "exit status 1")).
Proof. vm_compute. reflexivity. Qed.

(** C4, at the failing input: of the two background dependencies of
    [p], [b] fails and [c] succeeds; both are run and the group
    reports no error. *)
Theorem background_failure_is_not_reported :
  executeCommand (failing "b") leaves (CmdSingle leafB) [] =
    Some (ErrOther "exit status 1") /\
  executeCommand (failing "b") leaves (CmdSingle leafC) [] = None /\
  executeDependencies noSuggest (failing "b") 3 leaves (CmdSingle cmdP) =
    Some ([(CmdSingle leafB, []); (CmdSingle leafC, [])], None).
Proof. split; [|split]; vm_compute; reflexivity. Qed.

(** ** [executeRemote] *)

Lemma filter_unseen_skip seen h (l : list string) :
  h ∈ seen ->
  List.filter (unseen seen) (List.filter (fun y => negb (String.eqb y h)) l) =
  List.filter (unseen seen) l.
Proof.
  intros Hh. induction l as [|y l IH]; [reflexivity|]. cbn [List.filter].
  destruct (String.eqb_spec y h) as [->|Hne]; cbn [negb List.filter].
  - unfold unseen at 2. rewrite bool_decide_eq_false_2 by tauto. exact IH.
  - rewrite IH. reflexivity.
Qed.

Lemma filter_unseen_add seen h (l : list string) :
  List.filter (unseen seen) (List.filter (fun y => negb (String.eqb y h)) l) =
  List.filter (unseen ({[h]} ∪ seen)) l.
Proof.
  induction l as [|y l IH]; [reflexivity|]. cbn [List.filter].
  destruct (String.eqb_spec y h) as [->|Hne]; cbn [negb List.filter].
  - unfold unseen at 2. rewrite bool_decide_eq_false_2; [exact IH|].
    intros H. apply H. apply elem_of_union_l, elem_of_singleton. reflexivity.
  - rewrite IH. unfold unseen.
    assert (E : bool_decide (y ∉ seen) = bool_decide (y ∉ {[h]} ∪ seen)).
    { apply bool_decide_ext. rewrite elem_of_union, elem_of_singleton. tauto. }
    rewrite E. reflexivity.
Qed.

Lemma launches_app l1 l2 : launches (l1 ++ l2) = launches l1 ++ launches l2.
Proof. unfold launches. apply List.flat_map_app. Qed.

(** The loop launches a front part of the unseen distinct hosts, all of
    them unless an acquisition fails. *)
Lemma remoteLoop_spec acquire targets seen k log :
  exists hs rest,
    List.filter (unseen seen) (distinctFirstSeen targets) = hs ++ rest /\
    fst (remoteLoop acquire targets seen k log) = log ++ launches hs /\
    (snd (remoteLoop acquire targets seen k log) = None -> rest = []) /\
    ((forall i, acquire i = None) ->
     snd (remoteLoop acquire targets seen k log) = None).
Proof.
  revert seen k log. induction targets as [|h targets IH]; intros seen k log.
  - exists [], []. cbn. rewrite List.app_nil_r. auto.
  - cbn [remoteLoop distinctFirstSeen List.filter].
    destruct (decide (h ∈ seen)) as [Hin|Hout].
    + unfold unseen at 1. rewrite bool_decide_eq_false_2 by tauto.
      rewrite filter_unseen_skip by exact Hin. apply IH.
    + unfold unseen at 1. rewrite bool_decide_eq_true_2 by exact Hout.
      rewrite filter_unseen_add.
      destruct (acquire k) as [err|] eqn:A.
      * exists [], (h :: List.filter (unseen ({[h]} ∪ seen)) (distinctFirstSeen targets)).
        cbn. rewrite List.app_nil_r. repeat split; try discriminate.
        intros Hall. rewrite Hall in A. discriminate.
      * destruct (IH ({[h]} ∪ seen) (S k) (log ++ [EvAcquire 1; EvGo h]))
          as (hs & rest & E & Hl & Hn & Ha).
        exists (h :: hs), rest. rewrite E. split; [reflexivity|].
        split; [|split; assumption].
        rewrite Hl, <- List.app_assoc. reflexivity.
Qed.

Lemma filter_unseen_empty (l : list string) : List.filter (unseen ∅) l = l.
Proof.
  induction l as [|y l IH]; [reflexivity|]. cbn [List.filter].
  unfold unseen at 1. rewrite bool_decide_eq_true_2 by apply not_elem_of_empty.
  rewrite IH. reflexivity.
Qed.

Lemma started_launches log hs :
  started (log ++ launches hs) = started log ++ hs.
Proof.
  unfold started. rewrite List.flat_map_app. f_equal.
  induction hs as [|h hs IH]; [reflexivity|]. cbn. f_equal. exact IH.
Qed.

Lemma In_filter_ne x h (l : list string) :
  In x (List.filter (fun y => negb (String.eqb y h)) l) <-> In x l /\ x <> h.
Proof.
  rewrite List.filter_In. destruct (String.eqb_spec x h); cbn; intuition congruence.
Qed.

Lemma NoDup_filter_ne h (l : list string) :
  List.NoDup l -> List.NoDup (List.filter (fun y => negb (String.eqb y h)) l).
Proof. apply List.NoDup_filter. Qed.

Lemma distinctFirstSeen_NoDup l : List.NoDup (distinctFirstSeen l).
Proof.
  induction l as [|x l IH]; cbn; constructor.
  - rewrite In_filter_ne. tauto.
  - apply NoDup_filter_ne. exact IH.
Qed.

Lemma distinctFirstSeen_In x l : In x (distinctFirstSeen l) <-> In x l.
Proof.
  induction l as [|y l IH]; cbn; [tauto|].
  rewrite In_filter_ne, IH. destruct (String.string_dec y x); intuition congruence.
Qed.

Lemma distinctFirstSeen_length l : length (distinctFirstSeen l) <= length l.
Proof.
  induction l as [|y l IH]; cbn; [lia|].
  pose proof (List.filter_length_le (fun z => negb (String.eqb z y)) (distinctFirstSeen l)).
  lia.
Qed.

(** C6, the claim as stated fails: with the same host twice in the
    target list and no configured parallelism the limiter is sized to
    the length of the list, not to the number of distinct hosts. *)
Lemma capacity_counts_duplicate_targets :
  MetaSSH.Parallel (mSSH New) = 0%Z /\
  hostsOf (CmdSingle twice) = ["h1"; "h1"] /\
  distinctFirstSeen (hostsOf (CmdSingle twice)) = ["h1"] /\
  capacity hostsOf New (CmdSingle twice) = 2%Z /\
  events (executeRemote renderLines hostsOf New (CmdSingle twice) [] noCancel
            (fun _ => cancelledFrom 9)) =
    [EvSema 2; EvAcquire 1; EvGo "h1"; EvAcquire 2; EvWait].
Proof. repeat split; vm_compute; reflexivity. Qed.

(** C6, as the code has it: the host tasks are started for a front part
    of the distinct hosts in first-seen order -- all of them when no
    acquisition is interrupted -- each right after acquiring one unit of
    the limiter, and the limiter is sized to the configured parallelism
    or, when that is not positive, to the length of the target list,
    which is at least the number of distinct hosts. *)
Theorem executeRemote_fan_out Script Targets m cmd args acquire env scripts :
  Script cmd args = Ok scripts ->
  exists hs rest tail,
    distinctFirstSeen (Targets cmd) = hs ++ rest /\
    List.NoDup hs /\
    events (executeRemote Script Targets m cmd args acquire env) =
      EvSema (capacity Targets m cmd) :: launches hs ++ tail /\
    started (events (executeRemote Script Targets m cmd args acquire env)) = hs /\
    ((forall i, acquire i = None) ->
     rest = [] /\ tail = [EvAcquire (capacity Targets m cmd); EvWait]) /\
    capacity Targets m cmd =
      (if (MetaSSH.Parallel (mSSH m) <=? 0)%Z
       then Z.of_nat (length (Targets cmd)) else MetaSSH.Parallel (mSSH m)) /\
    ((MetaSSH.Parallel (mSSH m) <= 0)%Z ->
     (Z.of_nat (length (distinctFirstSeen (Targets cmd))) <= capacity Targets m cmd)%Z).
Proof.
  intros HS.
  destruct (remoteLoop_spec acquire (Targets cmd) ∅ 0 [EvSema (capacity Targets m cmd)])
    as (hs & rest & E & Hl & Hn & Ha).
  rewrite filter_unseen_empty in E.
  assert (ND : List.NoDup hs).
  { pose proof (distinctFirstSeen_NoDup (Targets cmd)) as N. rewrite E in N.
    apply List.NoDup_app_remove_r in N. exact N. }
  assert (Hcap : (MetaSSH.Parallel (mSSH m) <= 0)%Z ->
     (Z.of_nat (length (distinctFirstSeen (Targets cmd))) <= capacity Targets m cmd)%Z).
  { intros Hp. unfold capacity.
    destruct (Z.leb_spec (MetaSSH.Parallel (mSSH m)) 0); [|lia].
    pose proof (distinctFirstSeen_length (Targets cmd)). lia. }
  unfold executeRemote. rewrite HS.
  destruct (remoteLoop acquire (Targets cmd) ∅ 0 [EvSema (capacity Targets m cmd)])
    as [log [err|]] eqn:R; cbn [fst snd events] in *.
  - exists hs, rest, []. rewrite List.app_nil_r.
    split; [exact E|]. split; [exact ND|]. split; [exact Hl|].
    split; [rewrite Hl; apply (started_launches [EvSema (capacity Targets m cmd)])|].
    split; [intros Hall; specialize (Ha Hall); discriminate|].
    split; [reflexivity|exact Hcap].
  - exists hs, rest, [EvAcquire (capacity Targets m cmd); EvWait].
    split; [exact E|]. split; [exact ND|].
    split; [rewrite Hl; reflexivity|].
    split.
    { rewrite Hl. unfold started. rewrite List.flat_map_app. cbn [List.flat_map app].
      rewrite List.app_nil_r. apply (started_launches [EvSema (capacity Targets m cmd)]). }
    split; [intros _; split; [apply Hn; reflexivity|reflexivity]|].
    split; [reflexivity|exact Hcap].
Qed.

Lemma executeRemote_fan_out_witness :
  exists hs rest tail,
    distinctFirstSeen (hostsOf (CmdSingle deploy)) = hs ++ rest /\
    List.NoDup hs /\
    events (executeRemote renderLines hostsOf New (CmdSingle deploy) [] noCancel
              (fun _ => cancelledFrom 9)) =
      EvSema (capacity hostsOf New (CmdSingle deploy)) :: launches hs ++ tail /\
    started (events (executeRemote renderLines hostsOf New (CmdSingle deploy) []
                       noCancel (fun _ => cancelledFrom 9))) = hs /\
    ((forall i, noCancel i = None) ->
     rest = [] /\ tail = [EvAcquire (capacity hostsOf New (CmdSingle deploy)); EvWait]) /\
    capacity hostsOf New (CmdSingle deploy) =
      (if (MetaSSH.Parallel (mSSH New) <=? 0)%Z
       then Z.of_nat (length (hostsOf (CmdSingle deploy)))
       else MetaSSH.Parallel (mSSH New)) /\
    ((MetaSSH.Parallel (mSSH New) <= 0)%Z ->
     (Z.of_nat (length (distinctFirstSeen (hostsOf (CmdSingle deploy))))
      <= capacity hostsOf New (CmdSingle deploy))%Z).
Proof.
  apply (executeRemote_fan_out renderLines hostsOf New (CmdSingle deploy) [] noCancel
           (fun _ => cancelledFrom 9) ["uptime"]).
  reflexivity.
Defined.

(** ** [executeHost] *)

Lemma In_sessions_inv j i lines :
  In (EvSession j) (sessions i lines) ->
  i <= j < i + length lines /\
  exists line, nth_error lines (j - i) = Some line /\ In (EvRun j line) (sessions i lines).
Proof.
  revert i. induction lines as [|l lines IH]; intros i H; [destruct H|].
  cbn [sessions] in H. destruct H as [H|[H|H]]; [|discriminate|].
  - injection H as <-. split; [cbn; lia|].
    exists l. rewrite Nat.sub_diag. split; [reflexivity|right; left; reflexivity].
  - destruct (IH (S i) H) as (Hr & line & Hn & Hi). split; [cbn; lia|].
    exists line. split.
    + replace (j - i) with (S (j - S i)) by lia. exact Hn.
    + cbn [sessions]. right; right. exact Hi.
Qed.

(** The loop opens the sessions of a front part of the script, each at
    a check that found the context not cancelled. *)
Lemma hostLoop_spec env scripts :
  forall i log, exists n,
    n <= length scripts /\
    fst (hostLoop env i scripts log) = log ++ sessions i (List.firstn n scripts) /\
    forall j, j < n -> cancelled env (i + j) = false.
Proof.
  induction scripts as [|line rest IH]; intros i log.
  - exists 0. cbn. rewrite List.app_nil_r. repeat split; [lia|intros; lia].
  - cbn [hostLoop]. destruct (cancelled env i) eqn:C.
    { exists 0. cbn. rewrite List.app_nil_r. repeat split; [lia|intros; lia]. }
    destruct (NewSession env i).
    { exists 0. cbn. rewrite List.app_nil_r. repeat split; [lia|intros; lia]. }
    destruct (Run env i line).
    + exists 1. cbn [length List.firstn sessions fst]. split; [lia|]. split; [reflexivity|].
      intros j Hj. replace (i + j) with i by lia. exact C.
    + destruct (IH (S i) (log ++ [EvSession i; EvRun i line])) as (n & Hn & Hl & Hc).
      exists (S n). cbn [length List.firstn sessions]. split; [lia|]. split.
      * rewrite Hl, <- List.app_assoc. reflexivity.
      * intros [|j] Hj; [replace (i + 0) with i by lia; exact C|].
        replace (i + S j) with (S i + j) by lia. apply Hc. lia.
Qed.

(** While sessions open and lines succeed, the loop moves on. *)
Lemma hostLoop_front env pre :
  forall i log rest,
    (forall j line, nth_error pre j = Some line ->
       cancelled env (i + j) = false /\ NewSession env (i + j) = None /\
       Run env (i + j) line = None) ->
    hostLoop env i (pre ++ rest) log =
    hostLoop env (i + length pre) rest (log ++ sessions i pre).
Proof.
  induction pre as [|line pre IH]; intros i log rest H.
  - cbn. rewrite Nat.add_0_r, List.app_nil_r. reflexivity.
  - destruct (H 0 line eq_refl) as (C & N & R). rewrite Nat.add_0_r in C, N, R.
    cbn [app hostLoop]. rewrite C, N, R.
    rewrite IH.
    + cbn [length sessions]. rewrite <- List.app_assoc.
      replace (S i + length pre) with (i + S (length pre)) by lia. reflexivity.
    + intros j l Hj. replace (S i + j) with (i + S j) by lia. apply (H (S j)). exact Hj.
Qed.

(** C9: a session is opened only at a check that found the context not
    cancelled, and what was opened runs its line; when the check before
    session [k] finds the context cancelled, the run ends there with the
    cancellation error, after the sessions before [k]. *)
Theorem executeHost_checks_cancellation env addr scripts log err :
  executeHost env addr scripts = (log, err) ->
  (forall j, In (EvSession j) log ->
     cancelled env j = false /\
     exists line, nth_error scripts j = Some line /\ In (EvRun j line) log) /\
  (forall k,
     Dial env addr = None -> k < length scripts -> cancelled env k = true ->
     (forall j line, j < k -> nth_error scripts j = Some line ->
        cancelled env j = false /\ NewSession env j = None /\ Run env j line = None) ->
     err = Some ErrCanceled /\
     log = EvDial addr :: sessions 0 (List.firstn k scripts)).
Proof.
  unfold executeHost. intros H. split.
  - intros j Hj. destruct (Dial env addr).
    { injection H as <- <-. destruct Hj. }
    destruct (hostLoop_spec env scripts 0 [EvDial addr]) as (n & Hn & Hl & Hc).
    rewrite H in Hl. cbn [fst] in Hl. subst log.
    cbn [app] in Hj. destruct Hj as [Hj|Hj]; [discriminate|].
    destruct (In_sessions_inv _ _ _ Hj) as (Hr & line & Hnth & Hrun).
    rewrite List.length_firstn in Hr. rewrite Nat.sub_0_r in Hnth.
    split; [apply (Hc j); lia|].
    exists line. split.
    + rewrite List.nth_error_firstn in Hnth.
      destruct (Nat.ltb_spec j n); [exact Hnth|discriminate].
    + right. exact Hrun.
  - intros k HD Hk HC Hpre. rewrite HD in H.
    rewrite <- (List.firstn_skipn k scripts) in H.
    rewrite hostLoop_front in H.
    + rewrite List.length_firstn, Nat.min_l in H by lia. cbn [Nat.add] in H.
      destruct (List.skipn k scripts) as [|line rest] eqn:E.
      { apply (f_equal (@length string)) in E. rewrite List.length_skipn in E.
        cbn in E. lia. }
      cbn [hostLoop] in H. rewrite HC in H. injection H as <- <-.
      split; reflexivity.
    + intros j line Hj. rewrite List.nth_error_firstn in Hj.
      destruct (Nat.ltb_spec j k); [|discriminate].
      cbn [Nat.add]. apply Hpre; assumption.
Qed.

Lemma executeHost_checks_cancellation_witness :
  executeHost (cancelledFrom 1) "h1" ["cd /srv"; "make"; "make install"] =
    ([EvDial "h1"; EvSession 0; EvRun 0 "cd /srv"], Some ErrCanceled) /\
  Some ErrCanceled = Some ErrCanceled /\
  [EvDial "h1"; EvSession 0; EvRun 0 "cd /srv"] =
    EvDial "h1" :: sessions 0 (List.firstn 1 ["cd /srv"; "make"; "make install"]).
Proof.
  split; [reflexivity|].
  apply (proj2 (executeHost_checks_cancellation (cancelledFrom 1) "h1"
                  ["cd /srv"; "make"; "make install"]
                  [EvDial "h1"; EvSession 0; EvRun 0 "cd /srv"] (Some ErrCanceled)
                  eq_refl) 1).
  - reflexivity.
  - simpl. lia.
  - reflexivity.
  - intros j line Hj _. assert (j = 0) as -> by lia. repeat split; reflexivity.
Defined.

(** ** The lexer on malformed and unterminated input *)

Section LexerFacts.

Import Lexer.
Local Open Scope Z_scope.

Variable commands : list Z -> bool.

(** Once the lexer sits on end of input or on a malformed byte,
    [readRune] leaves it there. *)
Lemma readRune_stuck x :
  0 < pos x -> char x = eof \/ char x = invalid -> readRune x = x.
Proof.
  intros Hp Hc. unfold readRune.
  apply Z.ltb_lt in Hp. rewrite Hp.
  destruct Hc as [-> | ->]; reflexivity.
Qed.

(** ... and the loop of [readString], which only ends on the closing
    delimiter, runs out of any fuel. *)
Lemma stringLoop_stuck fuel ticky eos x b :
  0 < pos x -> char x = eof \/ char x = invalid ->
  eos = quote \/ eos = tick ->
  stringLoop fuel ticky eos x b = None.
Proof.
  revert b. induction fuel as [|fuel IH]; intros b Hp Hc He; [reflexivity|].
  cbn [stringLoop].
  assert (E1 : (char x =? eos) = false)
    by (destruct Hc as [-> | ->], He as [-> | ->]; reflexivity).
  assert (E2 : (char x =? backslash) = false)
    by (destruct Hc as [-> | ->]; reflexivity).
  rewrite E1, E2, andb_false_r. cbn [andb].
  rewrite readRune_stuck by assumption. apply IH; assumption.
Qed.

Lemma Next_at_end fuel x :
  char x = eof \/ char x = invalid ->
  Next commands (S fuel) x = Some (mkToken [] (char x), x).
Proof. intros [H|H]; cbn [Next]; rewrite H; reflexivity. Qed.

(** A malformed byte between tokens is answered with an invalid token. *)
Lemma Next_malformed_byte fuel :
  exists x, Next commands (S fuel) (Lex [255]) = Some (mkToken [] invalid, x).
Proof. eexists. reflexivity. Qed.

(** A string with its closing quote is a value token. *)
Lemma Next_terminated_string :
  exists x, Next commands 9 (Lex terminated) = Some (mkToken [97; 98; 99] value, x).
Proof. eexists. vm_compute. reflexivity. Qed.

Lemma readString_unterminated fuel : readString fuel (Lex unterminated) = None.
Proof.
  unfold readString.
  replace (stringLoop fuel _ _ _ _)
    with (stringLoop fuel false quote (readRune (Lex unterminated)) [])
    by reflexivity.
  do 3 (destruct fuel as [|fuel]; [reflexivity|]).
  replace (stringLoop (S (S (S fuel))) false quote (readRune (Lex unterminated)) [])
    with (stringLoop fuel false quote
            (mkLexer unterminated lexDefault eof 4 4 1 5) [97; 98; 99])
    by reflexivity.
  rewrite stringLoop_stuck; [reflexivity|reflexivity|left; reflexivity|left; reflexivity].
Qed.

Lemma readString_malformed fuel : readString fuel (Lex malformed) = None.
Proof.
  unfold readString.
  replace (stringLoop fuel _ _ _ _)
    with (stringLoop fuel true tick (mkLexer malformed lexDefault invalid 1 2 1 2) [])
    by reflexivity.
  rewrite stringLoop_stuck; [reflexivity|reflexivity|right; reflexivity|right; reflexivity].
Qed.

(** C7, at the failing input: on an opening double quote followed by
    [abc] and the end of input, [Next] returns no token, whatever the
    fuel; neither does it on a malformed byte inside a backtick
    string. *)
Theorem Next_never_returns_on_unterminated_string :
  (forall fuel, Next commands fuel (Lex unterminated) = None) /\
  (forall fuel, Next commands fuel (Lex malformed) = None).
Proof.
  split; intros fuel.
  - destruct fuel as [|fuel]; [reflexivity|].
    replace (Next commands (S fuel) (Lex unterminated))
      with (match nextDefault commands fuel (Lex unterminated) with
            | None => None
            | Some (t, x1) =>
                let '(x2, repeat) := updateState x1 t in
                if repeat then Next commands fuel x2 else Some (t, readRune x2)
            end) by reflexivity.
    unfold nextDefault. destruct fuel as [|fuel]; [reflexivity|].
    replace (skipSpace (S fuel) (Lex unterminated)) with (Some (Lex unterminated))
      by reflexivity.
    replace (isIdent (char (Lex unterminated))) with false by reflexivity.
    replace (isQuote (char (Lex unterminated))) with true by reflexivity.
    rewrite readString_unterminated. reflexivity.
  - destruct fuel as [|fuel]; [reflexivity|].
    replace (Next commands (S fuel) (Lex malformed))
      with (match nextDefault commands fuel (Lex malformed) with
            | None => None
            | Some (t, x1) =>
                let '(x2, repeat) := updateState x1 t in
                if repeat then Next commands fuel x2 else Some (t, readRune x2)
            end) by reflexivity.
    unfold nextDefault. destruct fuel as [|fuel]; [reflexivity|].
    replace (skipSpace (S fuel) (Lex malformed)) with (Some (Lex malformed))
      by reflexivity.
    replace (isIdent (char (Lex malformed))) with false by reflexivity.
    replace (isQuote (char (Lex malformed))) with true by reflexivity.
    rewrite readString_malformed. reflexivity.
Qed.

End LexerFacts.

(** ** [decodeMeta] *)

Section DecoderFacts.

Import Decoder.

Variable Env : Type.
Variable Resolve : Env -> string -> list string * option error.
Variable Unwrap : Env -> Env.
Variable IsValue IsVariable IsBlank IsEOF : Token -> bool.
Variable AppendValues : list (list string) -> list string -> list (list string).
Variable ParseInt : string -> Z * option error.

Abbreviation decodeMeta :=
  (decodeMeta Env Resolve Unwrap IsValue IsVariable IsBlank IsEOF AppendValues ParseInt).
Abbreviation next := (next Env Unwrap IsEOF).
Abbreviation parseString :=
  (parseString Env Resolve Unwrap IsValue IsVariable IsEOF AppendValues).
Abbreviation ensureEOL := (ensureEOL Env Unwrap IsEOF).

(** With one frame, [next] moves that frame on. *)
Lemma next_single ev f :
  next (mkDecoder Env ev [f]) = mkDecoder Env ev [frame_next f].
Proof.
  unfold Decoder.next. cbn [frames locals].
  destruct (frame_done IsEOF (frame_next f)); reflexivity.
Qed.

(** A name outside the twenty cases is an unknown meta. *)
Lemma decodeMeta_unknown fuel d mst :
  is_ Env (next d) Assign = true ->
  ~ In (Literal (curr Env d)) metaNames ->
  decodeMeta fuel d mst =
  Some (Some (ErrUnknownMeta (Literal (curr Env d))), next (next d), mst).
Proof.
  intros HA HN. unfold Decoder.decodeMeta. rewrite HA. cbn [negb].
  repeat match goal with
  | |- context [String.eqb (Literal (curr Env d)) ?c] =>
      destruct (String.eqb_spec (Literal (curr Env d)) c) as [E|_];
      [exfalso; apply HN; rewrite E; vm_compute; tauto|]
  end.
  reflexivity.
Qed.

(** [SSH_USER], one of the cases that store: the field takes what
    [parseString] returns. *)
Lemma decodeMeta_user fuel d mst v d' :
  is_ Env (next d) Assign = true ->
  Literal (curr Env d) = metaUser ->
  parseString fuel (next (next d)) = Some ((v, None), d') ->
  decodeMeta fuel d mst =
  Some (fst (ensureEOL d'), snd (ensureEOL d'),
        set_SSH (MetaSSH.set_User v (mSSH mst)) mst).
Proof.
  intros HA HL HP. unfold Decoder.decodeMeta. rewrite HA, HL. cbn [negb].
  cbn [String.eqb Ascii.eqb Bool.eqb metaUser metaWorkDir metaTrace metaAll
       metaDefault metaBefore metaAfter metaError metaSuccess metaAuthor
       metaEmail metaVersion metaUsage metaHelp].
  rewrite HP. unfold store, finish, onSSH.
  destruct (ensureEOL d'). reflexivity.
Qed.

(** C8, at the failing input: for [.SSH_PUBKEY = v] and
    [.SSH_KNOWN_HOSTS = v] the switch has an empty case: the value is
    neither parsed nor stored, and the value token left in place is
    reported as unexpected. *)
Theorem decodeMeta_ignores_pubkey_and_known_hosts fuel ev mst v :
  decodeMeta fuel (mkDecoder Env ev [makeFrame (metaLine metaPubKey v)]) mst =
    Some (Some (ErrUnexpected String_ v),
          mkDecoder Env ev
            [mkFrame (mkToken v String_) (mkToken "" Eol) []], mst) /\
  decodeMeta fuel (mkDecoder Env ev [makeFrame (metaLine metaKnownHosts v)]) mst =
    Some (Some (ErrUnexpected String_ v),
          mkDecoder Env ev
            [mkFrame (mkToken v String_) (mkToken "" Eol) []], mst).
Proof.
  split; unfold Decoder.decodeMeta; rewrite !next_single; reflexivity.
Qed.

End DecoderFacts.

(** The same lines on the sample collaborators: the user name is stored,
    the key file is not. *)
Lemma sample_user_stored :
  exists d,
    sampleDecodeMeta (metaLine "SSH_USER" "root") New =
    Some (None, d, set_SSH (MetaSSH.set_User "root" (mSSH New)) New).
Proof. eexists. vm_compute. reflexivity. Qed.

Lemma sample_pubkey_rejected :
  exists d,
    sampleDecodeMeta (metaLine "SSH_PUBKEY" "id_rsa") New =
    Some (Some (ErrUnexpected String_ "id_rsa"), d, New).
Proof. eexists. vm_compute. reflexivity. Qed.

Lemma sample_unknown_meta :
  exists d,
    sampleDecodeMeta (metaLine "COLOR" "red") New =
    Some (Some (ErrUnknownMeta "COLOR"), d, New).
Proof. eexists. vm_compute. reflexivity. Qed.

(** * More properties of the code *)

(** ** The order of strings and [sort.Search] *)

Lemma ascii_compare_spec x y :
  CompareSpec (x = y) (N.lt (Ascii.N_of_ascii x) (Ascii.N_of_ascii y))
              (N.lt (Ascii.N_of_ascii y) (Ascii.N_of_ascii x)) (Ascii.compare x y).
Proof.
  unfold Ascii.compare. destruct (N.compare_spec (Ascii.N_of_ascii x) (Ascii.N_of_ascii y)) as [E|L|L];
    constructor; try assumption.
  rewrite <- (Ascii.ascii_N_embedding x), <- (Ascii.ascii_N_embedding y), E. reflexivity.
Qed.

Lemma string_leb_refl s : String.leb s s = true.
Proof.
  unfold String.leb. induction s as [|a s IH]; [reflexivity|].
  cbn [String.compare]. destruct (ascii_compare_spec a a) as [_|L|L]; [exact IH|lia|lia].
Qed.

Lemma string_leb_trans a : forall b c,
  String.leb a b = true -> String.leb b c = true -> String.leb a c = true.
Proof.
  unfold String.leb.
  induction a as [|x a IH]; intros [|y b] [|z c]; cbn [String.compare]; try (intros; congruence).
  intros H1 H2.
  destruct (ascii_compare_spec x y) as [->|L1|L1]; [| |discriminate].
  - destruct (ascii_compare_spec y z) as [->|L2|L2]; [|reflexivity|discriminate].
    destruct (ascii_compare_spec z z) as [_|L|L]; [|lia|lia].
    apply (IH b c); assumption.
  - destruct (ascii_compare_spec y z) as [->|L2|L2]; [| |discriminate].
    + destruct (ascii_compare_spec x z) as [->|L|L]; [lia|reflexivity|lia].
    + destruct (ascii_compare_spec x z) as [->|L|L]; [lia|reflexivity|lia].
Qed.

Lemma insert_sorted_sorted x l :
  StronglySorted lebP l -> StronglySorted lebP (GoSort.insert_sorted x l).
Proof.
  induction 1 as [|y l Hs IH Hy]; cbn [GoSort.insert_sorted].
  - repeat constructor.
  - destruct (String.leb x y) eqn:E.
    + constructor; [constructor; assumption|].
      constructor; [exact E|].
      apply List.Forall_forall. intros z Hz.
      apply (string_leb_trans x y z); [exact E|].
      rewrite List.Forall_forall in Hy. apply Hy, Hz.
    + constructor; [exact IH|].
      apply List.Forall_forall. intros z Hz. apply In_insert_sorted in Hz as [->|Hz].
      * destruct (String.leb_total x y) as [H|H]; [congruence|exact H].
      * rewrite List.Forall_forall in Hy. apply Hy, Hz.
Qed.

Lemma Strings_sorted l : StronglySorted lebP (GoSort.Strings l).
Proof.
  induction l as [|x l IH]; cbn [GoSort.Strings]; [constructor|].
  apply insert_sorted_sorted, IH.
Qed.

Lemma sorted_nth l :
  StronglySorted lebP l ->
  forall i j, i <= j -> j < length l -> lebP (nth i l "") (nth j l "").
Proof.
  induction 1 as [|y l Hs IH Hy]; intros i j Hij Hj; [cbn in Hj; lia|].
  destruct i as [|i], j as [|j]; cbn [nth]; cbn [length] in Hj.
  - apply string_leb_refl.
  - rewrite List.Forall_forall in Hy. apply Hy, nth_In. lia.
  - lia.
  - apply IH; lia.
Qed.

Lemma search_loop_spec (n : nat) f :
  (forall x y, x <= y -> y < n -> f x = true -> f y = true) ->
  forall fuel i j,
    j - i <= fuel -> i <= j -> j <= n ->
    (forall x, x < i -> f x = false) ->
    (forall x, j <= x -> x < n -> f x = true) ->
    let k := GoSort.search_loop fuel f i j in
    k <= n /\ (forall x, x < k -> f x = false) /\ (forall x, k <= x -> x < n -> f x = true).
Proof.
  intros Hmono. induction fuel as [|fuel IH]; intros i j Hf Hij Hjn HA HB.
  - cbn. assert (i = j) as -> by lia. auto.
  - cbn [GoSort.search_loop].
    destruct (Nat.ltb_spec i j) as [Hlt|Hge].
    2:{ assert (i = j) as -> by lia. auto. }
    assert (Hh : i <= (i + j) / 2 < j).
    { split.
      - apply Nat.div_le_lower_bound; lia.
      - apply Nat.Div0.div_lt_upper_bound; lia. }
    destruct (f ((i + j) / 2)) eqn:E.
    + apply IH; try lia; [exact HA|].
      intros x Hx Hn. apply (Hmono ((i + j) / 2) x); [lia|exact Hn|exact E].
    + apply IH; try lia; [|exact HB].
      intros x Hx. destruct (f x) eqn:Ex; [|reflexivity].
      rewrite (Hmono x ((i + j) / 2)) in E; [discriminate|lia|lia|exact Ex].
Qed.

Lemma Search_spec n f :
  (forall x y, x <= y -> y < n -> f x = true -> f y = true) ->
  GoSort.Search n f <= n /\
  (forall x, x < GoSort.Search n f -> f x = false) /\
  (forall x, GoSort.Search n f <= x -> x < n -> f x = true).
Proof.
  intros Hmono. unfold GoSort.Search.
  apply (search_loop_spec n f Hmono n 0 n); try lia; intros; lia.
Qed.

Lemma help_floor s :
  (String.leb "-h" s || String.leb "-help" s || String.leb "--help" s) = String.leb "--help" s.
Proof.
  destruct (String.leb "--help" s) eqn:E; [apply orb_true_r|].
  rewrite orb_false_r.
  destruct (String.leb "-h" s) eqn:E1.
  { rewrite (string_leb_trans "--help" "-h" s) in E; [discriminate|reflexivity|exact E1]. }
  destruct (String.leb "-help" s) eqn:E2; [|reflexivity].
  rewrite (string_leb_trans "--help" "-help" s) in E; [discriminate|reflexivity|exact E2].
Qed.

Lemma isHelpFlag_floor a : isHelpFlag a = true -> String.leb "--help" a = true.
Proof.
  unfold isHelpFlag. intros H.
  apply orb_prop in H as [H|H]; [apply orb_prop in H as [H|H]|];
    apply String.eqb_eq in H; subst; reflexivity.
Qed.

(** X1: [hasHelp] answers true exactly when the least argument that is
    not below [--help] is one of the three flags. *)
Theorem hasHelp_iff args :
  hasHelp args = true <->
  exists a, In a args /\ isHelpFlag a = true /\
            forall b, In b args -> String.leb "--help" b = true -> String.leb a b = true.
Proof.
  unfold hasHelp.
  set (as_ := GoSort.Strings args).
  set (f := fun i => String.leb "-h" (nth i as_ "") || String.leb "-help" (nth i as_ "")
                     || String.leb "--help" (nth i as_ "")).
  assert (Hs : StronglySorted lebP as_) by apply Strings_sorted.
  assert (Hf : forall i, f i = String.leb "--help" (nth i as_ "")) by (intros; apply help_floor).
  assert (Hmono : forall x y, x <= y -> y < length as_ -> f x = true -> f y = true).
  { intros x y Hxy Hy. rewrite !Hf. intros Hx.
    apply (string_leb_trans _ (nth x as_ "")); [exact Hx|].
    apply sorted_nth; assumption. }
  destruct (Search_spec (length as_) f Hmono) as (Hk & Hlow & Hup).
  set (k := GoSort.Search (length as_) f) in *.
  split.
  - destruct (Nat.leb_spec (length as_) k) as [|Hlt]; [discriminate|].
    intros Hflag. exists (nth k as_ ""). split; [apply In_Strings, nth_In, Hlt|].
    split; [exact Hflag|].
    intros b Hb Hfl. apply In_Strings in Hb.
    destruct (In_nth _ _ "" Hb) as (j & Hj & <-).
    apply sorted_nth; [exact Hs| |exact Hj].
    destruct (Nat.le_gt_cases k j) as [|Hjk]; [assumption|].
    specialize (Hlow j Hjk). rewrite Hf in Hlow. unfold as_ in Hlow. congruence.
  - intros (a & Ha & Hflag & Hmin).
    apply In_Strings in Ha. destruct (In_nth _ _ "" Ha) as (j & Hj & Ej).
    change (GoSort.Strings args) with as_ in Hj, Ej.
    assert (Hkj : k <= j).
    { destruct (Nat.le_gt_cases k j) as [|Hjk]; [assumption|].
      specialize (Hlow j Hjk). rewrite Hf, Ej, (isHelpFlag_floor a Hflag) in Hlow.
      discriminate. }
    destruct (Nat.leb_spec (length as_) k) as [|Hlt]; [lia|].
    assert (E : nth k as_ "" = a).
    { apply String.leb_antisym.
      - rewrite <- Ej. apply sorted_nth; assumption.
      - apply Hmin; [apply In_Strings, nth_In, Hlt|].
        rewrite <- Hf. apply Hup; [lia|exact Hlt]. }
    rewrite E. exact Hflag.
Qed.

(** [--help] is found wherever it stands. *)
Corollary hasHelp_long_flag args : In "--help" args -> hasHelp args = true.
Proof.
  intros H. apply hasHelp_iff. exists "--help". split; [exact H|]. split; [reflexivity|].
  intros b _ Hb. exact Hb.
Qed.

(** ** [lookup] *)

Lemma lookup_effective m name :
  lookup m name =
  match Commands m !! effectiveName m name with
  | Some cmd => Ok cmd
  | None =>
      match List.find (fun kc => hasAlias (effectiveName m name) (snd kc))
                      (map_to_list (Commands m)) with
      | Some kc => Ok (snd kc)
      | None => Err (ErrNotDefined (effectiveName m name))
      end
  end.
Proof. reflexivity. Qed.

(** X2: what [lookup] returns is a registered command, stored under the
    name searched for or holding it as an alias; the exact key is
    preferred to an alias. *)
Theorem lookup_sound m name c :
  lookup m name = Ok c ->
  Commands m !! effectiveName m name = Some c \/
  (Commands m !! effectiveName m name = None /\
   exists k s, Commands m !! k = Some c /\ c = CmdSingle s /\
               In (effectiveName m name) (Alias s)).
Proof.
  rewrite lookup_effective.
  destruct (Commands m !! effectiveName m name) as [cmd|] eqn:K.
  - intros [= <-]. left. reflexivity.
  - destruct (List.find _ _) as [[k c']|] eqn:F; [|discriminate].
    intros [= <-]. right. split; [reflexivity|].
    apply List.find_some in F as [Hin Hal]. cbn [snd] in *.
    apply list_elem_of_In, elem_of_map_to_list in Hin.
    destruct (hasAlias_In _ _ Hal) as (s & -> & Hs).
    exists k, s. auto.
Qed.

Lemma lookup_sound_witness :
  Commands diamond !! effectiveName diamond "b" = Some (CmdSingle cmdB) \/
  (Commands diamond !! effectiveName diamond "b" = None /\
   exists k s, Commands diamond !! k = Some (CmdSingle cmdB) /\
               CmdSingle cmdB = CmdSingle s /\
               In (effectiveName diamond "b") (Alias s)).
Proof. apply (lookup_sound diamond "b" (CmdSingle cmdB)). vm_compute. reflexivity. Defined.

(** On a sorted alias list the binary search finds every alias. *)
Lemma hasAlias_sorted name s :
  StronglySorted lebP (Alias s) -> In name (Alias s) ->
  hasAlias name (CmdSingle s) = true.
Proof.
  intros Hs Hin. cbn [hasAlias]. unfold GoSort.SearchStrings.
  set (f := fun i => String.leb name (nth i (Alias s) "")).
  assert (Hmono : forall x y, x <= y -> y < length (Alias s) -> f x = true -> f y = true).
  { intros x y Hxy Hy Hx. apply (string_leb_trans _ (nth x (Alias s) "")); [exact Hx|].
    apply sorted_nth; assumption. }
  destruct (Search_spec (length (Alias s)) f Hmono) as (Hk & Hlow & Hup).
  set (k := GoSort.Search (length (Alias s)) f) in *.
  destruct (In_nth _ _ "" Hin) as (j & Hj & Ej).
  assert (Hkj : k <= j).
  { destruct (Nat.le_gt_cases k j) as [|Hjk]; [assumption|].
    specialize (Hlow j Hjk). unfold f in Hlow. rewrite Ej, string_leb_refl in Hlow.
    discriminate. }
  assert (E : nth k (Alias s) "" = name).
  { apply String.leb_antisym.
    - rewrite <- Ej. apply sorted_nth; [exact Hs|exact Hkj|exact Hj].
    - apply (Hup k); lia. }
  apply andb_true_intro. split; [apply Nat.ltb_lt; lia|].
  rewrite E. apply String.eqb_eq. reflexivity.
Qed.

(** X3: an alias of a registered command is found when the alias list
    of that command is sorted. *)
Theorem lookup_alias_found m name k s :
  Commands m !! k = Some (CmdSingle s) ->
  StronglySorted lebP (Alias s) ->
  In (effectiveName m name) (Alias s) ->
  exists c, lookup m name = Ok c.
Proof.
  intros Hk Hs Hin. rewrite lookup_effective.
  destruct (Commands m !! effectiveName m name) as [cmd|]; [eexists; reflexivity|].
  destruct (List.find _ _) as [kc|] eqn:F; [eexists; reflexivity|exfalso].
  pose proof (List.find_none _ _ F (k, CmdSingle s)) as N. cbn [snd] in N.
  rewrite hasAlias_sorted in N by assumption.
  assert (In (k, CmdSingle s) (map_to_list (Commands m)))
    by (apply list_elem_of_In, elem_of_map_to_list; exact Hk).
  specialize (N H). discriminate.
Qed.

Lemma lookup_alias_found_witness :
  exists c, lookup (registry [cmdTest] New) "t" = Ok c.
Proof.
  apply (lookup_alias_found (registry [cmdTest] New) "t" "test" cmdTest).
  - vm_compute. reflexivity.
  - repeat constructor.
  - simpl. tauto.
Defined.

(** ** [CheckHostKey] *)

Lemma CheckHostKey_no_hosts host addr key : CheckHostKey [] host addr key = None.
Proof. reflexivity. Qed.

(** X4: with known hosts sorted by name, one entry per name, a key is
    accepted exactly when the entry of that host holds the same key. *)
Theorem CheckHostKey_sorted hosts host addr key :
  hosts <> [] ->
  StronglySorted lebP (List.map heHost hosts) ->
  List.NoDup (List.map heHost hosts) ->
  (CheckHostKey hosts host addr key = None <-> In (mkEntry host key) hosts).
Proof.
  intros Hne Hs Hnd.
  set (d := mkEntry "" "").
  set (f := fun i => String.leb host (heHost (nth i hosts d))).
  assert (Hnth : forall i, heHost (nth i hosts d) = nth i (List.map heHost hosts) "").
  { intros i. symmetry. exact (List.map_nth heHost hosts d i). }
  assert (Hmono : forall x y, x <= y -> y < length hosts -> f x = true -> f y = true).
  { intros x y Hxy Hy Hx. unfold f in *. rewrite Hnth in *.
    apply (string_leb_trans _ (nth x (List.map heHost hosts) "")); [exact Hx|].
    apply sorted_nth; [exact Hs|exact Hxy|]. rewrite List.length_map. exact Hy. }
  destruct (Search_spec (length hosts) f Hmono) as (Hk & Hlow & Hup).
  assert (E : CheckHostKey hosts host addr key =
    let i := GoSort.Search (length hosts) f in
    if (i <? length hosts) && String.eqb (heHost (nth i hosts d)) host then
      if String.eqb (heKey (nth i hosts d)) key then None
      else Some (ErrOther (host ++ ": public key mismatched"))
    else Some (ErrOther (host ++ " unknwon host (" ++ addr ++ ")"))).
  { destruct hosts; [contradiction|reflexivity]. }
  rewrite E. clear E. cbn zeta.
  set (k := GoSort.Search (length hosts) f) in *.
  split.
  - destruct (Nat.ltb_spec k (length hosts)) as [Hlt|]; [|discriminate]. cbn [andb].
    destruct (String.eqb_spec (heHost (nth k hosts d)) host) as [Eh|]; [|discriminate].
    destruct (String.eqb_spec (heKey (nth k hosts d)) key) as [Ek|]; [|discriminate].
    intros _. replace (mkEntry host key) with (nth k hosts d).
    + apply nth_In. exact Hlt.
    + destruct (nth k hosts d). cbn in *. congruence.
  - intros Hin. destruct (In_nth _ _ d Hin) as (j & Hj & Ej).
    assert (Hkj : k <= j).
    { destruct (Nat.le_gt_cases k j) as [|Hjk]; [assumption|].
      specialize (Hlow j Hjk). unfold f in Hlow. rewrite Ej in Hlow. cbn in Hlow.
      rewrite string_leb_refl in Hlow. discriminate. }
    assert (Ehost : heHost (nth k hosts d) = host).
    { apply String.leb_antisym.
      - rewrite Hnth. replace host with (nth j (List.map heHost hosts) "").
        + apply sorted_nth; [exact Hs|exact Hkj|]. rewrite List.length_map. exact Hj.
        + rewrite <- Hnth, Ej. reflexivity.
      - apply (Hup k); lia. }
    assert (k = j) as ->.
    { apply (proj1 (List.NoDup_nth (List.map heHost hosts) "") Hnd);
        rewrite ?List.length_map; try lia.
      rewrite <- !Hnth, Ehost, Ej. reflexivity. }
    destruct (Nat.ltb_spec j (length hosts)); [|lia]. cbn [andb].
    rewrite Ej. cbn [heHost heKey]. rewrite !String.eqb_refl. reflexivity.
Qed.

Lemma CheckHostKey_sorted_witness :
  CheckHostKey knownHosts "beta" "10.0.0.2:22" "BBBB" = None <->
  In (mkEntry "beta" "BBBB") knownHosts.
Proof.
  apply (CheckHostKey_sorted knownHosts "beta" "10.0.0.2:22" "BBBB").
  - discriminate.
  - repeat constructor.
  - repeat constructor; simpl; intuition discriminate.
Defined.

(** ** [Register] *)

Lemma Register_cases m cmd m' :
  Register m cmd = Ok m' ->
  m' = set_Commands (<[Name cmd := CmdSingle cmd]> (Commands m)) m \/
  (exists prev, Commands m !! Name cmd = Some (CmdSingle prev) /\
     m' = set_Commands
            (<[Name cmd := CmdCombined [CmdSingle prev; CmdSingle cmd]]> (Commands m)) m) \/
  (exists mul, Commands m !! Name cmd = Some (CmdCombined mul) /\ m' = m).
Proof.
  unfold Register. destruct (Commands m !! Name cmd) as [curr|] eqn:K.
  - destruct (String.eqb (Duplicate m) dupError); [discriminate|].
    destruct (String.eqb (Duplicate m) dupReplace || String.eqb (Duplicate m) "").
    { intros [= <-]. left. reflexivity. }
    destruct (String.eqb (Duplicate m) dupAppend); [|discriminate].
    destruct curr as [prev|mul]; intros [= <-]; right.
    + left. exists prev. auto.
    + right. exists mul. auto.
  - intros [= <-]. left. reflexivity.
Qed.

(** X5: a successful [Register] leaves the name registered, touches no
    other name and no other setting; no name is ever removed. *)
Theorem Register_frame m cmd m' :
  Register m cmd = Ok m' ->
  is_Some (Commands m' !! Name cmd) /\
  (forall k, k <> Name cmd -> Commands m' !! k = Commands m !! k) /\
  (forall k, is_Some (Commands m !! k) -> is_Some (Commands m' !! k)) /\
  Duplicate m' = Duplicate m /\ mExec m' = mExec m /\ mSSH m' = mSSH m /\
  mAbout m' = mAbout m /\ mHttp m' = mHttp m.
Proof.
  intros H.
  destruct (Register_cases m cmd m' H) as [->|[(prev & K & ->)|(mul & K & ->)]];
    cbn [set_Commands Commands Duplicate mExec mSSH mAbout mHttp].
  - split; [rewrite lookup_insert_eq; eauto|].
    split; [intros k Hk; apply lookup_insert_ne; congruence|].
    split; [|auto 10].
    intros k Hk. destruct (decide (Name cmd = k)) as [<-|Hne].
    + rewrite lookup_insert_eq. eauto.
    + rewrite lookup_insert_ne by exact Hne. exact Hk.
  - split; [rewrite lookup_insert_eq; eauto|].
    split; [intros k Hk; apply lookup_insert_ne; congruence|].
    split; [|auto 10].
    intros k Hk. destruct (decide (Name cmd = k)) as [<-|Hne].
    + rewrite lookup_insert_eq. eauto.
    + rewrite lookup_insert_ne by exact Hne. exact Hk.
  - split; [rewrite K; eauto|]. auto 10.
Qed.

Lemma Register_frame_witness :
  is_Some (Commands (registry [build1] New) !! Name build1).
Proof.
  refine (proj1 (Register_frame New build1 (registry [build1] New) _)).
  vm_compute. reflexivity.
Defined.

(** X6: every command is stored under its own name: [Register] keeps
    that, whatever the policy. *)
Theorem Register_wellKeyed m cmd m' :
  wellKeyed m -> Register m cmd = Ok m' -> wellKeyed m'.
Proof.
  intros W H k c.
  destruct (Register_cases m cmd m' H) as [->|[(prev & K & ->)|(mul & K & ->)]];
    cbn [set_Commands Commands].
  - destruct (decide (Name cmd = k)) as [<-|Hne].
    + rewrite lookup_insert_eq. intros [= <-]. constructor. reflexivity.
    + rewrite lookup_insert_ne by exact Hne. apply W.
  - destruct (decide (Name cmd = k)) as [<-|Hne].
    + rewrite lookup_insert_eq. intros [= <-]. constructor.
      constructor; [exact (W _ _ K)|].
      constructor; [constructor; reflexivity|constructor].
    + rewrite lookup_insert_ne by exact Hne. apply W.
  - apply W.
Qed.

Lemma wellKeyed_New : wellKeyed New.
Proof. intros k c H. unfold New in H. cbn [Commands] in H. rewrite lookup_empty in H. discriminate. Qed.

Lemma registerAll_wellKeyed cmds :
  forall m m', wellKeyed m -> registerAll m cmds = Ok m' -> wellKeyed m'.
Proof.
  induction cmds as [|cmd cmds IH]; intros m m' W H; cbn [registerAll] in H.
  - injection H as <-. exact W.
  - destruct (Register m cmd) as [m1|] eqn:R; [|discriminate].
    apply (IH m1); [|exact H]. apply (Register_wellKeyed m cmd); assumption.
Qed.

Lemma Register_wellKeyed_witness :
  wellKeyed (registry [build1] New).
Proof.
  apply (Register_wellKeyed New build1).
  - apply wellKeyed_New.
  - vm_compute. reflexivity.
Defined.

(** X7: a definition registered under a fresh name, or under the
    "replace" policy, is what [lookup] returns for its name. *)
Theorem Register_then_lookup m cmd m' :
  Register m cmd = Ok m' ->
  Name cmd <> "" ->
  Commands m !! Name cmd = None \/ Duplicate m = dupReplace \/ Duplicate m = "" ->
  lookup m' (Name cmd) = Ok (CmdSingle cmd).
Proof.
  intros H Hn Hp.
  assert (E : m' = set_Commands (<[Name cmd := CmdSingle cmd]> (Commands m)) m).
  { destruct Hp as [K|[D|D]].
    - rewrite Register_unused in H by exact K. congruence.
    - destruct (Commands m !! Name cmd) as [curr|] eqn:K.
      + rewrite (Register_replace m cmd curr K) in H by (left; exact D). congruence.
      + rewrite Register_unused in H by exact K. congruence.
    - destruct (Commands m !! Name cmd) as [curr|] eqn:K.
      + rewrite (Register_replace m cmd curr K) in H by (right; exact D). congruence.
      + rewrite Register_unused in H by exact K. congruence. }
  subst m'. apply lookup_key; [exact Hn|].
  cbn [set_Commands Commands]. apply lookup_insert_eq.
Qed.

Lemma Register_then_lookup_witness :
  lookup (registry [build2] New) (Name build2) = Ok (CmdSingle build2).
Proof.
  apply (Register_then_lookup (registry [build1] New) build2 (registry [build2] New)).
  - vm_compute. reflexivity.
  - discriminate.
  - right. left. reflexivity.
Defined.

(** ** Termination of [resolveDependenciesBis] *)

Section ResolverTermination.

Variable Suggest : error -> string -> list string -> error.

Lemma depNames_universe m cmd k c :
  Commands m !! k = Some c -> depNames c ⊆ universe m cmd.
Proof.
  intros H x Hx. unfold universe. apply elem_of_union_r, elem_of_union_list.
  exists (depNames c). split; [|exact Hx].
  apply list_elem_of_In, List.in_map_iff. exists (k, c). split; [reflexivity|].
  apply list_elem_of_In, elem_of_map_to_list. exact H.
Qed.

Lemma prepare_registered m name c :
  prepare Suggest m name = Ok c -> exists k, Commands m !! k = Some c.
Proof.
  unfold prepare. destruct (lookup m name) as [c'|] eqn:L; [|discriminate].
  intros [= <-]. destruct (lookup_sound m name c' L) as [H|(_ & k & s & H & _)]; eauto.
Qed.

Lemma dName_depNames s d : In d (Deps s) -> dName d ∈ depNames (CmdSingle s).
Proof.
  intros H. cbn [depNames]. apply elem_of_list_to_set, list_elem_of_In, List.in_map. exact H.
Qed.

Lemma size_fresh (d : string) (seen : gset string) :
  d ∉ seen -> size ({[d]} ∪ seen) = S (size seen).
Proof.
  intros H. rewrite size_union by set_solver. rewrite size_singleton. reflexivity.
Qed.

Lemma size_remaining (U seen : gset string) (d : string) :
  d ∈ U -> d ∉ seen -> size (U ∖ ({[d]} ∪ seen)) < size (U ∖ seen).
Proof. intros HU Hs. apply subset_size. set_solver. Qed.

Lemma size_remaining_mono (U seen seen' : gset string) :
  seen ⊆ seen' -> size (U ∖ seen') <= size (U ∖ seen).
Proof. intros H. apply subseteq_size. set_solver. Qed.

Lemma walk_total m U rec fuel :
  (forall k c, Commands m !! k = Some c -> depNames c ⊆ U) ->
  (forall seen c, depNames c ⊆ U -> size (U ∖ seen) < fuel ->
     exists r, rec seen c = Some r /\ grows U seen 0 r) ->
  forall deps seen set,
    (forall d, In d deps -> dName d ∈ U) ->
    size (U ∖ seen) <= fuel ->
    exists r, walk Suggest rec m deps seen set = Some r /\
              grows U seen (length (List.flat_map nodes set)) r.
Proof.
  intros HU Hrec. induction deps as [|d deps IH]; intros seen set Hd Hf.
  - eexists. split; [reflexivity|]. cbn [grows].
    split; [reflexivity|]. split; [apply union_subseteq_l|lia].
  - assert (HdU : dName d ∈ U) by (apply Hd; left; reflexivity).
    assert (Hd' : forall x, In x deps -> dName x ∈ U) by (intros; apply Hd; right; assumption).
    cbn [walk]. destruct (decide (dName d ∈ seen)) as [Hin|Hout]; [apply IH; assumption|].
    pose proof (size_remaining U seen (dName d) HdU Hout) as Hlt.
    pose proof (size_fresh (dName d) seen Hout) as Hsz.
    destruct (prepare Suggest m (dName d)) as [c|err] eqn:P.
    + destruct (prepare_registered m _ _ P) as (k & Hk).
      destruct (Hrec ({[dName d]} ∪ seen) c (HU k c Hk)) as (r & Hr & Hg); [lia|].
      rewrite Hr. destruct r as [[seen' sub]|e]; [|eexists; split; [reflexivity|exact I]].
      cbn [grows] in Hg. destruct Hg as (G1 & G2 & G3).
      destruct (IH seen' (set ++ [node m c d sub]) Hd') as (r2 & Hr2 & Hg2).
      { pose proof (size_remaining_mono U ({[dName d]} ∪ seen) seen' G1). lia. }
      exists r2. split; [exact Hr2|].
      destruct r2 as [[seen2 set2]|e]; [|exact I]. cbn [grows] in *.
      destruct Hg2 as (K1 & K2 & K3).
      rewrite List.flat_map_app, List.length_app in K3. cbn [List.flat_map] in K3.
      rewrite nodes_node, List.app_nil_r in K3. cbn [length] in K3.
      split; [set_solver|]. split; [set_solver|]. lia.
    + destruct (Optional d); [|eexists; split; [reflexivity|exact I]].
      destruct (IH ({[dName d]} ∪ seen) set Hd') as (r2 & Hr2 & Hg2); [lia|].
      exists r2. split; [exact Hr2|].
      destruct r2 as [[seen2 set2]|e]; [|exact I]. cbn [grows] in *.
      destruct Hg2 as (K1 & K2 & K3).
      split; [set_solver|]. split; [set_solver|]. lia.
Qed.

Lemma traverse_total m U :
  (forall k c, Commands m !! k = Some c -> depNames c ⊆ U) ->
  forall fuel seen c,
    depNames c ⊆ U -> size (U ∖ seen) < fuel ->
    exists r, traverse Suggest fuel m seen c = Some r /\ grows U seen 0 r.
Proof.
  intros HU. induction fuel as [|fuel IH]; intros seen c Hc Hf; [lia|].
  cbn [traverse]. destruct c as [s|mul].
  - apply (walk_total m U (traverse Suggest fuel m) fuel HU IH (Deps s) seen []).
    + intros d Hd. apply Hc, dName_depNames, Hd.
    + lia.
  - eexists. split; [reflexivity|]. cbn [grows List.flat_map length].
    split; [reflexivity|]. split; [apply union_subseteq_l|lia].
Qed.

Lemma traverse_more k : forall fuel m seen c r,
  traverse Suggest fuel m seen c = Some r ->
  traverse Suggest (k + fuel) m seen c = Some r.
Proof.
  induction k as [|k IH]; intros fuel m seen c r H; [exact H|].
  cbn [Nat.add]. apply traverse_mono, IH, H.
Qed.

(** X8: [resolveDependenciesBis] returns on every registry, cyclic ones
    included, with fuel above the number of dependency names. *)
Theorem resolveDependenciesBis_terminates fuel m cmd :
  size (universe m cmd) < fuel ->
  exists r, resolveDependenciesBis Suggest fuel m cmd = Some r.
Proof.
  intros Hf. unfold resolveDependenciesBis.
  destruct (traverse_total m (universe m cmd) (depNames_universe m cmd) fuel ∅ cmd)
    as (r & Hr & _).
  - unfold universe. set_solver.
  - pose proof (size_remaining_mono (universe m cmd) ∅ ∅). 
    assert (size (universe m cmd ∖ ∅) <= size (universe m cmd))
      by (apply subseteq_size; set_solver).
    lia.
  - rewrite Hr. destruct r as [[seen deps]|e]; eexists; reflexivity.
Qed.

(** X9: no name is expanded twice: a resolved tree has at most as many
    nodes as there are dependency names. *)
Theorem resolveDependenciesBis_size fuel m cmd tree :
  resolveDependenciesBis Suggest fuel m cmd = Some (Ok tree) ->
  length (List.flat_map nodes tree) <= size (universe m cmd).
Proof.
  unfold resolveDependenciesBis.
  destruct (traverse Suggest fuel m ∅ cmd) as [[[seen deps]|e]|] eqn:T; try discriminate.
  intros [= <-].
  pose proof (traverse_more (S (size (universe m cmd))) fuel m ∅ cmd _ T) as T'.
  destruct (traverse_total m (universe m cmd) (depNames_universe m cmd)
              (S (size (universe m cmd)) + fuel) ∅ cmd) as (r & Hr & Hg).
  - unfold universe. set_solver.
  - assert (size (universe m cmd ∖ ∅) <= size (universe m cmd))
      by (apply subseteq_size; set_solver).
    lia.
  - rewrite T' in Hr. injection Hr as <-. cbn [grows] in Hg.
    destruct Hg as (_ & G2 & G3). rewrite size_empty in G3.
    assert (size seen <= size (universe m cmd)) by (apply subseteq_size; set_solver).
    lia.
Qed.

End ResolverTermination.

Lemma resolveDependenciesBis_terminates_witness :
  exists r, resolveDependenciesBis noSuggest 3 cyclic (CmdSingle cmdPing) = Some r.
Proof.
  apply (resolveDependenciesBis_terminates noSuggest 3 cyclic (CmdSingle cmdPing)).
  vm_compute. lia.
Defined.

Lemma resolveDependenciesBis_size_witness :
  length (List.flat_map nodes
            [node diamond (CmdSingle cmdB) (edge "b") [node diamond (CmdSingle cmdD) (edge "d") []];
             node diamond (CmdSingle cmdC) (edge "c") []])
  <= size (universe diamond (CmdSingle cmdA)).
Proof.
  apply (resolveDependenciesBis_size noSuggest 3 diamond (CmdSingle cmdA)).
  vm_compute. reflexivity.
Defined.

(** ** [resolveDependencies] on a dependency cycle *)

Section Cycles.

Variable Suggest : error -> string -> list string -> error.
Variable Execute : Command -> list string -> option error.

Lemma reachesCycle_step m c :
  reachesCycle m c -> exists c1, dependsOn m c c1 /\ reachesCycle m c1.
Proof.
  intros (c' & Hr & Ht). destruct Hr as [c|c y c' Hstep Hrest].
  - inversion Ht as [a b Hstep|a y b Hstep Hrest]; subst.
    + exists c. split; [exact Hstep|]. exists c. split; [constructor|exact Ht].
    + exists y. split; [exact Hstep|]. exists y. split; [constructor|].
      apply (tc_r y c y Hrest Hstep).
  - exists y. split; [exact Hstep|]. exists c'. split; assumption.
Qed.

(** A list of edges that [collect] has gone through: each edge resolved
    and the recursive call on its target returned a list. *)
Lemma collect_ok_inv rec m deps :
  forall all r, collect rec m deps all = Some (Ok r) ->
  forall d, In d deps ->
    exists c set, lookup m (dName d) = Ok c /\ rec c = Some (Ok set).
Proof.
  induction deps as [|x deps IH]; intros all r H d Hd; [destruct Hd|].
  cbn [collect] in H.
  destruct (lookup m (dName x)) as [c|] eqn:L; [|discriminate].
  destruct (rec c) as [[set|e]|] eqn:R; try discriminate.
  destruct Hd as [<-|Hd]; [eauto|]. apply (IH _ _ H d Hd).
Qed.

Lemma resolveDependencies_cycle m fuel :
  forall c, reachesCycle m c ->
  forall deps, resolveDependencies fuel m c <> Some (Ok deps).
Proof.
  induction fuel as [|fuel IH]; intros c Hc deps; [discriminate|].
  destruct (reachesCycle_step m c Hc) as (c1 & (s & d & -> & Hd & L) & Hc1).
  cbn [resolveDependencies]. intros H.
  destruct (collect_ok_inv _ _ _ _ _ H d Hd) as (c' & set & L' & R).
  rewrite L in L'. injection L' as <-.
  exact (IH c1 Hc1 set R).
Qed.

(** X10: a command on a dependency cycle never gets a dependency list
    from [resolveDependencies], whatever the fuel, and
    [executeDependencies] runs none of its dependencies. *)
Theorem resolveDependencies_never_returns_on_cycle m c fuel :
  tc (dependsOn m) c c ->
  (forall deps, resolveDependencies fuel m c <> Some (Ok deps)) /\
  (forall log err, executeDependencies Suggest Execute fuel m c = Some (log, err) ->
     log = [] /\ err <> None).
Proof.
  intros Hc.
  assert (R : reachesCycle m c) by (exists c; split; [constructor|exact Hc]).
  split; [apply resolveDependencies_cycle; exact R|].
  intros log err. destruct fuel as [|fuel]; [discriminate|].
  cbn [executeDependencies].
  destruct (resolveDependencies fuel m c) as [[deps|e]|] eqn:E; [|intros [= <- <-]; split; [reflexivity|discriminate]|discriminate].
  exfalso. exact (resolveDependencies_cycle m fuel c R deps E).
Qed.

End Cycles.

Lemma resolveDependencies_never_returns_on_cycle_witness :
  match resolveDependencies 7 cyclic (CmdSingle cmdPing) with
  | Some (Ok _) => False
  | _ => True
  end.
Proof.
  assert (Hc : tc (dependsOn cyclic) (CmdSingle cmdPing) (CmdSingle cmdPing)).
  { apply (tc_l _ _ (CmdSingle cmdPong)).
    - exists cmdPing, (edge "pong"). split; [reflexivity|].
      split; [left; reflexivity|vm_compute; reflexivity].
    - apply tc_once. exists cmdPong, (edge "ping"). split; [reflexivity|].
      split; [left; reflexivity|vm_compute; reflexivity]. }
  destruct (resolveDependencies 7 cyclic (CmdSingle cmdPing)) as [[deps|e]|] eqn:E;
    [|exact I|exact I].
  exact (proj1 (resolveDependencies_never_returns_on_cycle noSuggest succeeding
                  cyclic (CmdSingle cmdPing) 7 Hc) deps E).
Defined.

(** ** [Graph] and [resolveDependencies] *)

Lemma graphDedup_spec all : forall seen deps,
  graphDedup all seen deps = deps ++ List.filter (unseen seen) (distinctFirstSeen all).
Proof.
  induction all as [|n all IH]; intros seen deps; cbn [graphDedup distinctFirstSeen List.filter].
  - rewrite List.app_nil_r. reflexivity.
  - destruct (decide (n ∈ seen)) as [Hin|Hout].
    + unfold unseen at 1. rewrite bool_decide_eq_false_2 by tauto.
      rewrite filter_unseen_skip by exact Hin. apply IH.
    + unfold unseen at 1. rewrite bool_decide_eq_true_2 by exact Hout.
      rewrite filter_unseen_add, IH, <- List.app_assoc. reflexivity.
Qed.

Lemma graphLoop_collect m rec1 rec2 deps :
  (forall d c r, lookup m (dName d) = Ok c -> rec2 c = Some r ->
     exists o, rec1 (dName d) =
               Some (o, match r with Ok l => Ok (List.map dName l) | Err e => Err e end)) ->
  (forall d e, lookup m (dName d) = Err e -> rec1 (dName d) = Some ([], Err e)) ->
  forall out names all r,
    collect rec2 m deps all = Some r ->
    exists o, graphLoop rec1 deps out (names ++ List.map dName all) =
              Some (o, match r with
                       | Ok l => Ok (names ++ List.map dName l)
                       | Err e => Err e
                       end).
Proof.
  intros Hok Herr. induction deps as [|d deps IH]; intros out names all r H.
  - cbn in H. injection H as <-. eexists. reflexivity.
  - cbn [collect] in H. cbn [graphLoop].
    destruct (lookup m (dName d)) as [c|e] eqn:L.
    + destruct (rec2 c) as [[set|e]|] eqn:R; try discriminate.
      * destruct (Hok d c _ L R) as (o & ->).
        replace ((names ++ List.map dName all) ++ List.map dName set ++ [dName d])
          with (names ++ List.map dName (all ++ set ++ [d])).
        { apply IH. exact H. }
        rewrite !List.map_app. cbn [List.map]. rewrite <- !List.app_assoc. reflexivity.
      * destruct (Hok d c _ L R) as (o & ->). injection H as <-. eexists. reflexivity.
    + rewrite (Herr d e L). injection H as <-. eexists. reflexivity.
Qed.

Lemma traverseGraph_resolve m fuel :
  forall name level c r,
    lookup m name = Ok c ->
    resolveDependencies fuel m c = Some r ->
    exists o, traverseGraph fuel m name level =
              Some (o, match r with Ok l => Ok (List.map dName l) | Err e => Err e end).
Proof.
  induction fuel as [|fuel IH]; intros name level c r L R; [discriminate|].
  cbn [resolveDependencies] in R. cbn [traverseGraph]. rewrite L.
  destruct c as [s|mul].
  - apply (graphLoop_collect m _ (resolveDependencies fuel m) (Deps s)) with (names := []) (all := []);
      [| |exact R].
    + intros d c r' Ld Rd. apply (IH _ _ c r' Ld Rd).
    + intros d e Ld. destruct fuel; cbn [traverseGraph]; rewrite Ld; reflexivity.
  - injection R as <-. eexists. reflexivity.
Qed.

(** X11: when [resolveDependencies] lists the dependencies of a command,
    [Graph] prints that list as its order line, each name at its first
    occurrence, and returns no error. *)
Theorem Graph_order m fuel name c deps :
  lookup m name = Ok c ->
  resolveDependencies fuel m c = Some (Ok deps) ->
  exists tree,
    Graph fuel m name =
    Some (tree ++ [("order " ++ String.concat " -> " (distinctFirstSeen (List.map dName deps))
                    ++ " -> " ++ name)%string], None).
Proof.
  intros L R. unfold Graph.
  destruct (traverseGraph_resolve m fuel name 0 c _ L R) as (o & ->).
  exists o. rewrite graphDedup_spec, filter_unseen_empty. reflexivity.
Qed.

Lemma Graph_order_witness :
  exists tree,
    Graph 3 diamond "a" =
    Some (tree ++ [("order " ++ String.concat " -> "
                      (distinctFirstSeen (List.map dName [edge "d"; edge "b"; edge "d"; edge "c"]))
                    ++ " -> " ++ "a")%string], None).
Proof.
  apply (Graph_order diamond 3 "a" (CmdSingle cmdA)); vm_compute; reflexivity.
Defined.

(** ** [execute] *)

Section ExecuteFacts.

Variable Suggest : error -> string -> list string -> error.
Variable Can : Command -> bool.

Lemma canExecute_None m cmd :
  canExecute Can m cmd = None ->
  Blocked cmd = false /\ Can cmd = true /\ (Remote m = true -> IsRemote cmd = true).
Proof.
  unfold canExecute. destruct (Blocked cmd); [discriminate|].
  destruct (Can cmd); [|discriminate]. cbn [negb].
  destruct (Remote m); cbn [andb].
  - destruct (IsRemote cmd); [|discriminate]. intros _. auto.
  - intros _. repeat split. discriminate.
Qed.

Lemma resolve_root fuel m cmd args ex :
  resolve Suggest fuel m cmd args = Some (Ok ex) -> rootCommand ex = Some cmd.
Proof.
  unfold resolve.
  destruct (if NoDeps m then _ else _) as [[dl|e]|]; try discriminate.
  intros [= <-]. destruct (MetaExec.Trace (mExec m)); reflexivity.
Qed.

(** X12: what [execute] runs, here or on remote hosts, is the command
    that [prepare] found for the name, and it is neither hidden nor
    refused by the policy; it is run remotely only if it has targets. *)
Theorem execute_runs_authorized fuel m name args a cmd :
  execute Suggest Can fuel m name args = Some (Ok a) ->
  runs a = Some cmd ->
  prepare Suggest m name = Ok cmd /\ Blocked cmd = false /\ Can cmd = true /\
  (Remote m = true -> IsRemote cmd = true).
Proof.
  unfold execute. destruct (hasHelp args); [intros [= <-]; discriminate|].
  destruct (MetaExec.Dry (mExec m)).
  { destruct (prepare Suggest m name); intros [= <-]; discriminate. }
  destruct (prepare Suggest m name) as [c|]; [|discriminate].
  destruct (canExecute Can m c) eqn:CE; [discriminate|].
  apply canExecute_None in CE.
  destruct (Remote m).
  - intros [= <-] [= <-]. tauto.
  - destruct (resolve Suggest fuel m c args) as [[ex|]|] eqn:R; try discriminate.
    intros [= <-] Hr. cbn [runs] in Hr. rewrite (resolve_root _ _ _ _ _ R) in Hr.
    injection Hr as <-. tauto.
Qed.

(** X13: with a default command that resolves and no help flag,
    [ExecuteDefault] does what [execute] does for the empty name. *)
Theorem ExecuteDefault_is_execute_empty fuel m args cmd :
  MetaExec.Default (mExec m) <> "" ->
  hasHelp args = false ->
  lookup m (MetaExec.Default (mExec m)) = Ok cmd ->
  ExecuteDefault Suggest Can fuel m args = execute Suggest Can fuel m "" args.
Proof.
  intros Hd Hh L. unfold ExecuteDefault.
  destruct (String.eqb_spec (MetaExec.Default (mExec m)) ""); [contradiction|].
  symmetry. apply execute_same_command with (cmd := cmd); [exact Hh| |].
  - unfold prepare. rewrite lookup_default, L. reflexivity.
  - unfold prepare. rewrite L. reflexivity.
Qed.

End ExecuteFacts.

Lemma execute_runs_authorized_witness :
  prepare noSuggest diamond "d" = Ok (CmdSingle cmdD) /\
  Blocked (CmdSingle cmdD) = false /\ allowAll (CmdSingle cmdD) = true /\
  (Remote diamond = true -> IsRemote (CmdSingle cmdD) = true).
Proof.
  apply (execute_runs_authorized noSuggest allowAll 3 diamond "d" []
           (ActLocal (ExTree (ExMain (CmdSingle cmdD) [] [] [] [] [] []) false)));
    vm_compute; reflexivity.
Defined.

Lemma ExecuteDefault_is_execute_empty_witness :
  ExecuteDefault noSuggest allowAll 3 (withDefault "d" diamond) [] =
  execute noSuggest allowAll 3 (withDefault "d" diamond) "" [].
Proof.
  apply (ExecuteDefault_is_execute_empty noSuggest allowAll 3 (withDefault "d" diamond) []
           (CmdSingle cmdD)).
  - discriminate.
  - reflexivity.
  - vm_compute. reflexivity.
Defined.

(** ** [executeHost] and [executeRemote] *)




Lemma groupWait_None results :
  groupWait results = None <-> forall r, In r results -> r = None.
Proof.
  induction results as [|r results IH]; cbn.
  - split; [intros _ r []|reflexivity].
  - destruct r as [e|].
    + split; [discriminate|]. intros H. specialize (H (Some e) (or_introl eq_refl)). discriminate.
    + rewrite IH. split.
      * intros H r [<-|Hr]; [reflexivity|apply H, Hr].
      * intros H r Hr. apply H. right. exact Hr.
Qed.

(** X15: when the script renders and no acquisition is interrupted, the
    remote call returns no error exactly when the task of every target
    host returns none. *)
Theorem executeRemote_fails_iff_host_fails Script Targets m cmd args acquire env scripts :
  Script cmd args = Ok scripts ->
  (forall i, acquire i = None) ->
  (failure (executeRemote Script Targets m cmd args acquire env) = None <->
   forall h, In h (Targets cmd) -> snd (executeHost (env h) h scripts) = None).
Proof.
  intros HS HA. unfold executeRemote. rewrite HS.
  destruct (remoteLoop_spec acquire (Targets cmd) ∅ 0 [EvSema (capacity Targets m cmd)])
    as (hs & rest & E & Hl & Hn & Ha).
  specialize (Ha HA). rewrite filter_unseen_empty in E.
  destruct (remoteLoop acquire (Targets cmd) ∅ 0 [EvSema (capacity Targets m cmd)])
    as [log [err|]] eqn:R; cbn [fst snd] in *; [discriminate|].
  rewrite (Hn eq_refl), List.app_nil_r in E. cbn [failure].
  assert (Hst : started log = hs).
  { rewrite Hl. apply (started_launches [EvSema (capacity Targets m cmd)]). }
  rewrite Hst, <- E, groupWait_None. split.
  - intros H h Hh. apply H. apply List.in_map_iff. exists h. split; [reflexivity|].
    apply distinctFirstSeen_In. exact Hh.
  - intros H r Hr. apply List.in_map_iff in Hr as (h & <- & Hh).
    apply H, distinctFirstSeen_In, Hh.
Qed.

Lemma executeRemote_fails_iff_host_fails_witness :
  failure (executeRemote renderLines hostsOf New (CmdSingle deploy) [] noCancel
             (fun _ => cancelledFrom 9)) = None <->
  forall h, In h (hostsOf (CmdSingle deploy)) ->
            snd (executeHost (cancelledFrom 9) h ["uptime"]) = None.
Proof.
  apply (executeRemote_fails_iff_host_fails renderLines hostsOf New (CmdSingle deploy) []
           noCancel (fun _ => cancelledFrom 9) ["uptime"]).
  - reflexivity.
  - reflexivity.
Defined.


(** ** The lexer's loops at the end of input *)

Section LexerLoops.

Import Lexer.
Local Open Scope Z_scope.

Lemma lor_ge_128 a b : 128 <= a -> 0 <= b -> 128 <= Z.lor a b.
Proof.
  intros Ha Hb.
  assert (Hpos : 0 < Z.lor a b).
  { assert (0 <= Z.lor a b) by (apply Z.lor_nonneg; lia).
    destruct (Z.eq_dec (Z.lor a b) 0) as [E|E]; [|lia].
    apply Z.lor_eq_0_l in E. lia. }
  change 128 with (2 ^ 7). apply Z.log2_le_pow2; [exact Hpos|].
  rewrite Z.log2_lor by lia.
  assert (7 <= Z.log2 a) by (apply Z.log2_le_pow2; [lia|exact Ha]).
  lia.
Qed.

Lemma land_low_nonneg a k : 0 <= k -> 0 <= Z.land a k.
Proof. intros Hk. apply Z.land_nonneg. right. exact Hk. Qed.

Lemma shiftl_land_ge a m k j :
  0 <= k -> 0 <= j -> 128 <= (a mod 2 ^ k) * 2 ^ j -> m = Z.ones k ->
  128 <= Z.shiftl (Z.land a m) j.
Proof.
  intros Hk Hj H ->. rewrite Z.land_ones by exact Hk.
  rewrite Z.shiftl_mul_pow2 by exact Hj. exact H.
Qed.

(** A rune below 128 that [utf8.DecodeRune] returns is the first byte of
    its input: the replacement rune and every rune decoded from a longer
    sequence are above. *)
Lemma DecodeRune_low p :
  fst (DecodeRune p) < 128 -> exists r, p = fst (DecodeRune p) :: r.
Proof.
  destruct p as [|p0 r]; [cbn; unfold RuneError; lia|].
  unfold DecodeRune.
  destruct (Z.ltb_spec p0 128) as [H0|H0]; [intros _; exists r; reflexivity|].
  destruct (Z.ltb_spec p0 194) as [H1|H1]; [cbn; unfold RuneError; lia|].
  destruct (Z.ltb_spec p0 224) as [H2|H2].
  { destruct r as [|b1 r]; [cbn; unfold RuneError; lia|].
    destruct (cont b1); [|cbn; unfold RuneError; lia].
    cbn [fst]. intros H. exfalso.
    assert (128 <= Z.lor (Z.shiftl (Z.land p0 31) 6) (Z.land b1 63)); [|lia].
    apply lor_ge_128; [|apply land_low_nonneg; lia].
    apply (shiftl_land_ge p0 31 5 6); [lia|lia| |reflexivity].
    change (2 ^ 5) with 32. change (2 ^ 6) with 64.
    Z.div_mod_to_equations. lia. }
  destruct (Z.ltb_spec p0 240) as [H3|H3].
  { destruct r as [|b1 [|b2 r]]; try (cbn; unfold RuneError; lia).
    cbv zeta.
    destruct ((_ <=? b1) && (b1 <=? _) && cont b2) eqn:E;
      [|cbn; unfold RuneError; lia].
    cbn [fst]. intros H. exfalso.
    apply andb_prop in E as [E _]. apply andb_prop in E as [E1 E2].
    assert (128 <= Z.lor (Z.shiftl (Z.land p0 15) 12)
                     (Z.lor (Z.shiftl (Z.land b1 63) 6) (Z.land b2 63))); [|lia].
    destruct (Z.eq_dec p0 224) as [E0|E0].
    - rewrite Z.lor_comm. apply lor_ge_128.
      + apply lor_ge_128; [|apply land_low_nonneg; lia].
        apply (shiftl_land_ge b1 63 6 6); [lia|lia| |reflexivity].
        change (2 ^ 6) with 64.
        subst p0. cbn in E1, E2. apply Z.leb_le in E1, E2.
        Z.div_mod_to_equations. lia.
      + apply Z.shiftl_nonneg. apply land_low_nonneg. lia.
    - apply lor_ge_128.
      + apply (shiftl_land_ge p0 15 4 12); [lia|lia| |reflexivity].
        change (2 ^ 4) with 16. change (2 ^ 12) with 4096.
        Z.div_mod_to_equations. lia.
      + apply Z.lor_nonneg. split; [|apply land_low_nonneg; lia].
        apply Z.shiftl_nonneg. apply land_low_nonneg. lia. }
  destruct (Z.ltb_spec p0 245) as [H4|H4]; [|cbn; unfold RuneError; lia].
  destruct r as [|b1 [|b2 [|b3 r]]]; try (cbn; unfold RuneError; lia).
  cbv zeta.
  destruct ((_ <=? b1) && (b1 <=? _) && cont b2 && cont b3) eqn:E;
    [|cbn; unfold RuneError; lia].
  cbn [fst]. intros H. exfalso.
  apply andb_prop in E as [E _]. apply andb_prop in E as [E _].
  apply andb_prop in E as [E1 E2].
  assert (128 <= Z.lor (Z.shiftl (Z.land p0 7) 18)
                   (Z.lor (Z.shiftl (Z.land b1 63) 12)
                      (Z.lor (Z.shiftl (Z.land b2 63) 6) (Z.land b3 63)))); [|lia].
  destruct (Z.eq_dec p0 240) as [E0|E0].
  - rewrite Z.lor_comm. apply lor_ge_128.
    + apply lor_ge_128.
      * apply (shiftl_land_ge b1 63 6 12); [lia|lia| |reflexivity].
        change (2 ^ 6) with 64. change (2 ^ 12) with 4096.
        subst p0. cbn in E1, E2. apply Z.leb_le in E1, E2.
        Z.div_mod_to_equations. lia.
      * apply Z.lor_nonneg. split; [|apply land_low_nonneg; lia].
        apply Z.shiftl_nonneg. apply land_low_nonneg. lia.
    + apply Z.shiftl_nonneg. apply land_low_nonneg. lia.
  - apply lor_ge_128.
    + apply (shiftl_land_ge p0 7 3 18); [lia|lia| |reflexivity].
      change (2 ^ 3) with 8. change (2 ^ 18) with 262144.
      Z.div_mod_to_equations. lia.
    + apply Z.lor_nonneg. split.
      * apply Z.shiftl_nonneg. apply land_low_nonneg. lia.
      * apply Z.lor_nonneg. split; [|apply land_low_nonneg; lia].
        apply Z.shiftl_nonneg. apply land_low_nonneg. lia.
Qed.

Lemma DecodeRune_width p : 0 <= snd (DecodeRune p).
Proof.
  unfold DecodeRune.
  repeat match goal with
         | |- context [match ?l with [] => _ | _ :: _ => _ end] => destruct l
         | |- context [if ?c then _ else _] => destruct c
         end; cbn [snd]; lia.
Qed.

Lemma In_skipn_le {A} (l : list A) (a : A) n k :
  (n <= k)%nat -> In a (List.skipn k l) -> In a (List.skipn n l).
Proof.
  intros Hle H. replace k with ((k - n) + n)%nat in H by lia.
  rewrite <- List.skipn_skipn in H.
  rewrite <- (List.firstn_skipn (k - n) (List.skipn n l)).
  apply List.in_or_app. right. exact H.
Qed.

Lemma readRune_clean stops x :
  (forall t, In t stops -> 0 <= t < 128) ->
  (forall t, In t stops -> ~ In t (unread x)) ->
  clean stops (readRune x).
Proof.
  intros Hs Hu. unfold readRune.
  destruct (_ && _) eqn:Estuck.
  { split; [exact Hu|]. intros t Ht.
    apply andb_prop in Estuck as [_ E]. apply orb_prop in E.
    specialize (Hs t Ht).
    destruct E as [E|E]; apply Z.eqb_eq in E; rewrite E;
      unfold eof, invalid; lia. }
  pose proof (DecodeRune_width (List.skipn (Z.to_nat (next x)) (inner x))) as Hw.
  pose proof (DecodeRune_low (List.skipn (Z.to_nat (next x)) (inner x))) as Hl.
  destruct (DecodeRune _) as [k n]. cbn [fst snd] in Hw, Hl.
  split; unfold unread; cbn [inner next char].
  - intros t Ht Hin. apply (Hu t Ht).
    apply (In_skipn_le _ _ _ (Z.to_nat (next x + n))); [lia|exact Hin].
  - intros t Ht. specialize (Hs t Ht).
    destruct (Z.eqb_spec k RuneError) as [_|_].
    + destruct (n =? 0); unfold eof, invalid; lia.
    + intros ->. destruct Hl as [r Hr]; [lia|].
      apply (Hu t Ht). unfold unread. rewrite Hr. left. reflexivity.
Qed.

Lemma clean_incl stops stops' x :
  (forall t, In t stops' -> In t stops) -> clean stops x -> clean stops' x.
Proof. intros Hi [H1 H2]. split; intros t Ht; [apply H1|apply H2]; auto. Qed.

Lemma skipSpace_clean stops fuel x x' :
  (forall t, In t stops -> 0 <= t < 128) ->
  clean stops x -> skipSpace fuel x = Some x' -> clean stops x'.
Proof.
  intros Hs. revert x. induction fuel as [|fuel IH]; intros x Hc H; [discriminate|].
  cbn [skipSpace] in H. destruct (isSpace (char x)).
  - apply (IH (readRune x)); [|exact H].
    apply readRune_clean; [exact Hs|apply Hc].
  - injection H as <-. exact Hc.
Qed.

(** The loop of [readComment] ends on a newline only. *)
Lemma commentLoop_stuck fuel x : clean [nl] x -> commentLoop fuel x = None.
Proof.
  revert x. induction fuel as [|fuel IH]; intros x Hc; [reflexivity|].
  cbn [commentLoop].
  destruct (Z.eqb_spec (char x) nl) as [E|_].
  { exfalso. apply (proj2 Hc nl); [left; reflexivity|exact E]. }
  apply IH. apply readRune_clean; [|apply Hc].
  intros t [<-|[]]. unfold nl. lia.
Qed.

(** The loop of [readValue] ends on a blank, a newline, a comma or a
    closing parenthesis only. *)
Lemma readValue_stuck fuel start x :
  clean [space; nl; comma; rparen] x -> readValue fuel start x = None.
Proof.
  revert x. induction fuel as [|fuel IH]; intros x Hc; [reflexivity|].
  cbn [readValue].
  assert (E : forall t, In t [space; nl; comma; rparen] -> (char x =? t) = false).
  { intros t Ht. apply Z.eqb_neq. apply (proj2 Hc t Ht). }
  rewrite (E space), (E nl), (E comma), (E rparen) by (cbn; tauto).
  cbn [orb]. apply IH. apply readRune_clean; [|apply Hc].
  intros t Ht. cbn in Ht. unfold space, nl, comma, rparen in Ht. lia.
Qed.

Lemma readComment_stuck fuel x :
  ~ In nl (unread x) -> readComment fuel x = None.
Proof.
  intros Hu. unfold readComment.
  assert (Hs : forall t, In t [nl] -> 0 <= t < 128)
    by (intros t [<-|[]]; unfold nl; lia).
  assert (Hc : clean [nl] (readRune x)).
  { apply readRune_clean; [exact Hs|]. intros t [<-|[]]. exact Hu. }
  destruct (char (readRune x) =? space).
  - destruct (skipSpace fuel (readRune x)) as [x1|] eqn:E; [|reflexivity].
    rewrite commentLoop_stuck; [reflexivity|].
    apply (skipSpace_clean _ _ _ _ Hs Hc E).
  - rewrite commentLoop_stuck; [reflexivity|exact Hc].
Qed.

Variable commands : list Z -> bool.

(** X16: a comment that no newline follows is never returned: in the
    default state, on the [#] that opens it, [Next] returns no token
    whatever the fuel, since the loop of [readComment] waits for a
    newline and [readRune] no longer moves at the end of the input. *)
Theorem Next_never_returns_on_comment_without_newline fuel x :
  char x = comment ->
  Z.land (state x) 65280 = lexDefault ->
  ~ In nl (unread x) ->
  Next commands fuel x = None.
Proof.
  intros Hc Hst Hu. destruct fuel as [|fuel]; [reflexivity|].
  assert (Hnone : nextDefault commands fuel x = None).
  { unfold nextDefault. destruct fuel as [|fuel]; [reflexivity|].
    cbn [skipSpace]. rewrite Hc.
    replace (isSpace comment) with false by reflexivity.
    rewrite Hc.
    replace (isIdent comment) with false by reflexivity.
    replace (isQuote comment) with false by reflexivity.
    replace (isComment comment) with true by reflexivity.
    apply readComment_stuck. exact Hu. }
  cbn [Next]. rewrite Hc, Hst, Hnone. reflexivity.
Qed.

(** X17: a value that runs to the end of the input is never returned:
    in the value state, when neither a blank, a newline, a comma nor a
    closing parenthesis is left to read (and no quote, [-] or [%] that
    would start another kind of value), [Next] returns no token
    whatever the fuel. The last line of a file must end in a newline. *)
Theorem Next_never_returns_on_value_without_terminator fuel x :
  Z.land (state x) 65280 = lexValue ->
  char x <> eof -> char x <> invalid ->
  ~ In (char x) [nl; comma; rparen; minus; quote; tick; percent] ->
  (forall t, In t [space; nl; comma; rparen; minus; quote; tick; percent] ->
             ~ In t (unread x)) ->
  Next commands fuel x = None.
Proof.
  intros Hst He Hi Hc Hu. destruct fuel as [|fuel]; [reflexivity|].
  cbn [Next].
  destruct (Z.eqb_spec (char x) eof) as [E|_]; [contradiction|].
  destruct (Z.eqb_spec (char x) invalid) as [E|_]; [contradiction|].
  cbn [orb]. rewrite Hst. cbn [lexValue Z.eqb Pos.eqb].
  set (stops := [space; nl; comma; rparen; minus; quote; tick; percent]) in *.
  assert (Hs : forall t, In t stops -> 0 <= t < 128).
  { intros t Ht. cbn in Ht.
    unfold space, nl, comma, rparen, minus, quote, tick, percent in Ht. lia. }
  assert (Hnone : nextValue fuel x = None); [|rewrite Hnone; reflexivity].
  unfold nextValue.
  destruct (if char x =? space then skipSpace fuel x else Some x) as [x1|] eqn:E1;
    [|reflexivity].
  assert (Hc1 : clean stops x1).
  { destruct (Z.eqb_spec (char x) space) as [Es|Es].
    - destruct fuel as [|fuel]; [discriminate|].
      cbn [skipSpace] in E1. rewrite Es in E1.
      cbn [isSpace space tab nl Z.eqb Pos.eqb orb] in E1.
      apply (skipSpace_clean stops fuel (readRune x) x1 Hs); [|exact E1].
      apply readRune_clean; [exact Hs|exact Hu].
    - injection E1 as <-. split; [exact Hu|].
      intros t Ht E. destruct Ht as [<-|Ht]; [apply Es; exact E|].
      apply Hc. rewrite E. exact Ht. }
  assert (E : forall t, In t stops -> (char x1 =? t) = false).
  { intros t Ht. apply Z.eqb_neq. apply (proj2 Hc1 t Ht). }
  unfold isQuote.
  rewrite (E nl), (E comma), (E rparen), (E minus), (E quote), (E tick),
    (E percent) by (cbn; tauto).
  cbn [orb]. apply readValue_stuck.
  apply (clean_incl stops); [|exact Hc1]. cbn. tauto.
Qed.

End LexerLoops.

Lemma Next_never_returns_on_comment_without_newline_witness :
  Lexer.Next noKeywords 50 (Lexer.Lex commentOnly) = None.
Proof.
  apply (Next_never_returns_on_comment_without_newline noKeywords 50
           (Lexer.Lex commentOnly)).
  - reflexivity.
  - reflexivity.
  - unfold unread. cbn. unfold Lexer.nl. intros [H|[H|[]]]; discriminate H.
Defined.

(** The lexer reaches [afterEqual] on the input [a= b]. *)
Lemma afterEqual_reached :
  match Lexer.Next noKeywords 9 (Lexer.Lex assignment) with
  | Some (_, x1) => Lexer.Next noKeywords 9 x1
  | None => None
  end = Some (Lexer.mkToken [] Lexer.equal, afterEqual).
Proof. reflexivity. Qed.

Lemma Next_never_returns_on_value_without_terminator_witness :
  Lexer.Next noKeywords 50 afterEqual = None.
Proof.
  apply (Next_never_returns_on_value_without_terminator noKeywords 50 afterEqual).
  - reflexivity.
  - intros H. discriminate H.
  - intros H. discriminate H.
  - cbn. unfold Lexer.nl, Lexer.comma, Lexer.rparen, Lexer.minus, Lexer.quote,
      Lexer.tick, Lexer.percent.
    intuition discriminate.
  - unfold unread. cbn.
    unfold Lexer.nl, Lexer.comma, Lexer.rparen, Lexer.minus, Lexer.quote,
      Lexer.tick, Lexer.percent, Lexer.space.
    intros t Ht [H|[]]. subst t. intuition discriminate.
Defined.

(** ** Identifiers *)

Section LexerIdent.

Import Lexer.
Local Open Scope Z_scope.

Lemma skipn_length_app {A} (a b : list A) : List.skipn (length a) (a ++ b) = b.
Proof. induction a as [|h a IH]; [reflexivity|exact IH]. Qed.

Lemma firstn_length_app {A} (a b : list A) : List.firstn (length a) (a ++ b) = a.
Proof. induction a as [|h a IH]; [reflexivity|cbn; f_equal; exact IH]. Qed.

Lemma identRune_ascii b : identRune b = true -> 48 <= b < 128.
Proof.
  unfold identRune, isIdent, isDigit. intros H.
  repeat (apply orb_prop in H as [H|H]); apply andb_prop in H as [H1 H2];
    apply Z.leb_le in H1, H2; lia.
Qed.

Lemma DecodeRune_ascii b r : 0 <= b < 128 -> DecodeRune (b :: r) = (b, 1).
Proof.
  intros H. unfold DecodeRune.
  destruct (Z.ltb_spec b 128); [reflexivity|lia].
Qed.

Lemma runeAt_not_ident p :
  identRune (fst (DecodeRune p)) = false -> identRune (runeAt p) = false.
Proof.
  unfold runeAt. destruct (DecodeRune p) as [k n]. cbn [fst]. intros H.
  destruct (k =? RuneError); [destruct (n =? 0); reflexivity|exact H].
Qed.

(** [readRune] on a lexer that sits before the bytes [p], after a rune
    that is a letter or a digit. *)
Lemma readRune_at x p :
  identRune (char x) = true ->
  List.skipn (Z.to_nat (next x)) (inner x) = p ->
  inner (readRune x) = inner x /\ state (readRune x) = state x /\
  char (readRune x) = runeAt p /\ pos (readRune x) = next x /\
  next (readRune x) = next x + snd (DecodeRune p).
Proof.
  intros Hc Hp. unfold readRune.
  apply identRune_ascii in Hc.
  destruct (Z.eqb_spec (char x) eof) as [E|_]; [unfold eof in E; lia|].
  destruct (Z.eqb_spec (char x) invalid) as [E|_]; [unfold invalid in E; lia|].
  rewrite andb_false_r. rewrite Hp. unfold runeAt.
  destruct (DecodeRune p) as [k n]. cbn. repeat split; reflexivity.
Qed.

(** The loop of [readIdent] over a run [c :: w] of letters and digits
    that a rune of another kind, or the end of the input, follows. *)
Lemma identLoop_run w : forall pre c rest fuel x,
  inner x = pre ++ c :: w ++ rest ->
  pos x = Z.of_nat (length pre) -> next x = pos x + 1 -> char x = c ->
  identRune c = true ->
  List.Forall (fun b => identRune b = true) w ->
  identRune (fst (DecodeRune rest)) = false ->
  (length w + 2 <= fuel)%nat ->
  exists x', identLoop fuel x = Some x' /\
    inner x' = inner x /\ state x' = state x /\
    pos x' = Z.of_nat (length (pre ++ c :: w)) /\
    char x' = runeAt rest.
Proof.
  induction w as [|b w IH]; intros pre c rest fuel x Hin Hpos Hnext Hc Hi Hw Hstop Hf.
  - destruct fuel as [|[|fuel]]; [cbn in Hf; lia|cbn in Hf; lia|].
    assert (Hp : List.skipn (Z.to_nat (next x)) (inner x) = rest).
    { rewrite Hin, Hnext, Hpos.
      replace (Z.to_nat (Z.of_nat (length pre) + 1)) with (length (pre ++ [c]))
        by (rewrite List.length_app; cbn; lia).
      change (pre ++ c :: [] ++ rest) with (pre ++ [c] ++ rest).
      rewrite List.app_assoc. apply skipn_length_app. }
    destruct (readRune_at x rest) as (R1 & R2 & R3 & R4 & R5);
      [rewrite Hc; exact Hi|exact Hp|].
    exists (readRune x).
    cbn [identLoop]. fold (identRune (char x)). rewrite Hc, Hi.
    fold (identRune (char (readRune x))). rewrite R3.
    rewrite (runeAt_not_ident rest Hstop).
    repeat split; try assumption.
    rewrite R4, Hnext, Hpos, List.length_app. cbn. lia.
  - destruct fuel as [|fuel]; [cbn in Hf; lia|].
    inversion Hw as [|b' w' Hb Hw']; subst b' w'.
    assert (Hp : List.skipn (Z.to_nat (next x)) (inner x) = b :: w ++ rest).
    { rewrite Hin, Hnext, Hpos.
      replace (Z.to_nat (Z.of_nat (length pre) + 1)) with (length (pre ++ [c]))
        by (rewrite List.length_app; cbn; lia).
      change (pre ++ c :: (b :: w) ++ rest) with (pre ++ [c] ++ b :: w ++ rest).
      rewrite List.app_assoc. apply skipn_length_app. }
    destruct (readRune_at x (b :: w ++ rest)) as (R1 & R2 & R3 & R4 & R5);
      [rewrite Hc; exact Hi|exact Hp|].
    pose proof (identRune_ascii b Hb) as Hb'.
    assert (Hd : DecodeRune (b :: w ++ rest) = (b, 1))
      by (apply DecodeRune_ascii; lia).
    assert (Hr : runeAt (b :: w ++ rest) = b).
    { unfold runeAt. rewrite Hd.
      destruct (Z.eqb_spec b RuneError) as [E|_]; [unfold RuneError in E; lia|].
      reflexivity. }
    rewrite Hd in R5. cbn [snd] in R5. rewrite Hr in R3.
    destruct (IH (pre ++ [c]) b rest fuel (readRune x))
      as (x' & L1 & L2 & L3 & L4 & L5).
    + rewrite R1, Hin. rewrite <- List.app_assoc. reflexivity.
    + rewrite R4, Hnext, Hpos, List.length_app. cbn. lia.
    + rewrite R5, R4. reflexivity.
    + exact R3.
    + exact Hb.
    + exact Hw'.
    + exact Hstop.
    + cbn in Hf. lia.
    + exists x'. cbn [identLoop]. fold (identRune (char x)). rewrite Hc, Hi.
      repeat split.
      * exact L1.
      * rewrite L2. exact R1.
      * rewrite L3. exact R2.
      * rewrite L4. rewrite <- List.app_assoc. reflexivity.
      * exact L5.
Qed.

Variable commands : list Z -> bool.

(** X18: in the default state, on the first letter of a run [c :: w]
    of letters and digits that a rune of another kind or the end of the
    input follows, [Next] returns the run as one token, of type
    [command] when the table of keywords holds it and [ident]
    otherwise, and leaves the lexer on the rune that follows; a keyword
    switches the lexer to the value state. *)
Theorem Next_ident fuel x pre c w rest :
  inner x = pre ++ c :: w ++ rest ->
  pos x = Z.of_nat (length pre) -> next x = pos x + 1 -> char x = c ->
  Z.land (state x) 65280 = lexDefault ->
  isIdent c = true ->
  List.Forall (fun b => identRune b = true) w ->
  identRune (fst (DecodeRune rest)) = false ->
  (length w + 4 <= fuel)%nat ->
  exists x',
    Next commands fuel x =
      Some (mkToken (c :: w) (if commands (c :: w) then command else ident), x') /\
    char x' = runeAt rest /\
    state x' = if commands (c :: w) then Z.lor (state x) lexValue else state x.
Proof.
  intros Hin Hpos Hnext Hc Hst Hi Hw Hstop Hf.
  destruct fuel as [|[|fuel]]; [lia|lia|].
  assert (Hic : identRune c = true) by (unfold identRune; rewrite Hi; reflexivity).
  pose proof (identRune_ascii c Hic) as Hc'.
  destruct (identLoop_run w pre c rest (S fuel) x Hin Hpos Hnext Hc Hic Hw Hstop)
    as (x1 & L1 & L2 & L3 & L4 & L5); [lia|].
  set (lit := c :: w).
  set (ty := if commands lit then command else ident).
  assert (Hlit : slice (inner x1) (pos x) (pos x1) = lit).
  { unfold slice. rewrite L2, Hin, L4, Hpos.
    replace (Z.to_nat (Z.of_nat (length (pre ++ c :: w)) - Z.of_nat (length pre)))
      with (length lit) by (rewrite List.length_app; unfold lit; cbn; lia).
    rewrite Nat2Z.id, skipn_length_app.
    change (c :: w ++ rest) with (lit ++ rest). apply firstn_length_app. }
  assert (Hri : readIdent commands (S fuel) x = Some (mkToken lit ty, unreadRune x1)).
  { unfold readIdent. rewrite L1, Hlit. reflexivity. }
  assert (Hnd : nextDefault commands (S fuel) x = Some (mkToken lit ty, unreadRune x1)).
  { unfold nextDefault. cbn [skipSpace]. rewrite Hc.
    replace (isSpace c) with false.
    2:{ unfold isSpace, space, tab, nl.
        destruct (Z.eqb_spec c 32), (Z.eqb_spec c 9), (Z.eqb_spec c 10);
          try reflexivity; lia. }
    rewrite Hc, Hi. exact Hri. }
  (* the lexer after [updateState] *)
  set (x2 := if commands lit
             then set_state (Z.lor (state (unreadRune x1)) lexValue) (unreadRune x1)
             else unreadRune x1).
  assert (Hup : updateState (unreadRune x1) (mkToken lit ty) = (x2, false)).
  { unfold updateState, x2, ty. cbn [Type_].
    destruct (commands lit); reflexivity. }
  assert (Hch : char (readRune x2) = runeAt rest).
  { assert (E1 : char x2 = runeAt rest)
      by (unfold x2; destruct (commands lit); cbn; exact L5).
    assert (E2 : next x2 = pos x1)
      by (unfold x2; destruct (commands lit); reflexivity).
    assert (E3 : inner x2 = inner x)
      by (unfold x2; destruct (commands lit); cbn; exact L2).
    unfold readRune. destruct (_ && _); [exact E1|].
    rewrite E2, E3, Hin, L4, Nat2Z.id.
    change (pre ++ c :: w ++ rest) with (pre ++ (c :: w) ++ rest).
    rewrite List.app_assoc, skipn_length_app.
    unfold runeAt. destruct (DecodeRune rest) as [k n]. reflexivity. }
  exists (readRune x2). split; [|split].
  - cbn [Next].
    destruct (Z.eqb_spec (char x) eof) as [E|_];
      [rewrite Hc in E; unfold eof in E; lia|].
    destruct (Z.eqb_spec (char x) invalid) as [E|_];
      [rewrite Hc in E; unfold invalid in E; lia|].
    cbn [orb]. rewrite Hst.
    replace (lexDefault =? lexValue) with false by reflexivity.
    replace (lexDefault =? lexScript) with false by reflexivity.
    replace (lexDefault =? lexDeps) with false by reflexivity.
    rewrite Hnd, Hup. reflexivity.
  - exact Hch.
  - assert (E : state (readRune x2) = state x2).
    { unfold readRune. destruct (_ && _); [reflexivity|].
      destruct (DecodeRune (List.skipn _ _)) as [k n]. reflexivity. }
    rewrite E. unfold x2. fold lit.
    destruct (commands lit); cbn; rewrite L3; reflexivity.
Qed.

End LexerIdent.

Lemma Next_ident_witness :
  exists x',
    Lexer.Next noKeywords 9 (Lexer.Lex word) =
      Some (Lexer.mkToken [97; 98; 49]%Z Lexer.ident, x') /\
    Lexer.char x' = Lexer.nl /\ Lexer.state x' = Lexer.lexDefault.
Proof.
  refine (Next_ident noKeywords 9 (Lexer.Lex word) [] 97%Z [98; 49]%Z [10]%Z
            eq_refl eq_refl eq_refl eq_refl eq_refl eq_refl _ eq_refl _).
  - repeat constructor.
  - cbn. lia.
Defined.


(** ** The decoder: meta directives, dependencies and scripts *)

Section DecoderFrame.

Import Decoder.

Variable Env : Type.
Variable Resolve : Env -> string -> list string * option error.
Variable Unwrap : Env -> Env.
Variable IsValue IsVariable IsBlank IsEOF : Token -> bool.
Variable AppendValues : list (list string) -> list string -> list (list string).
Variable ParseInt : string -> Z * option error.

Lemma sameRegistry_refl m : sameRegistry m m.
Proof. repeat split. Qed.

Lemma finish_keeps mst err d e d' mst' :
  finish Env Unwrap IsEOF mst err d = (e, d', mst') -> mst' = mst.
Proof.
  unfold finish. destruct err.
  - intros H. injection H as _ _ <-. reflexivity.
  - destruct (ensureEOL _ _ _ d). intros H. injection H as _ _ <-. reflexivity.
Qed.

Lemma store_keeps {A} (p : out Env A) (set : A -> Maestro -> Maestro) mst e d' mst' :
  (forall v m, sameRegistry m (set v m)) ->
  store Env Unwrap IsEOF p set mst = Some (e, d', mst') ->
  sameRegistry mst mst'.
Proof.
  intros Hset. unfold store. destruct p as [[[v err] d]|]; [|discriminate].
  intros H. rewrite (finish_keeps (set v mst) err d e d' mst') by congruence.
  apply Hset.
Qed.

(** X19: a meta directive changes meta records only: whatever
    [decodeMeta] returns, error or not, the commands registered, the
    duplicate policy and the flags of the run are those it was given. *)
Theorem decodeMeta_keeps_registry fuel d mst e d' mst' :
  decodeMeta Env Resolve Unwrap IsValue IsVariable IsBlank IsEOF AppendValues
    ParseInt fuel d mst = Some (e, d', mst') ->
  sameRegistry mst mst'.
Proof.
  unfold decodeMeta. intros H.
  destruct (negb _).
  { injection H as _ _ <-. apply sameRegistry_refl. }
  repeat match type of H with
  | context [if String.eqb ?a ?b then _ else _] => destruct (String.eqb a b)
  end;
  try (eapply store_keeps; [|exact H]; intros v m; repeat split);
  try (match type of H with
       | Some (finish _ _ _ ?m ?er ?dd) = _ =>
           rewrite (finish_keeps m er dd e d' mst') by congruence
       end; apply sameRegistry_refl).
  injection H as _ _ <-. apply sameRegistry_refl.
Qed.

End DecoderFrame.

Lemma decodeMeta_keeps_registry_witness :
  match sampleDecodeMeta (metaLine "SSH_USER" "root") diamond with
  | Some (_, _, mst') => sameRegistry diamond mst'
  | None => False
  end.
Proof.
  destruct (sampleDecodeMeta (metaLine "SSH_USER" "root") diamond)
    as [[[e d] m]|] eqn:E.
  - exact (decodeMeta_keeps_registry unit sampleResolve (fun ev => ev)
             sampleIsValue sampleIsVariable sampleIsBlank sampleIsEOF
             sampleAppend sampleParseInt 9 _ _ e d m E).
  - vm_compute in E. discriminate E.
Defined.

Section CommandDecoderFacts.

Import Decoder CommandDecoder.

Variable Env : Type.
Variable Resolve : Env -> string -> list string * option error.
Variable Unwrap : Env -> Env.
Variable IsPrimitive IsVariable IsEOF : Token -> bool.
Variable TrimSpace : string -> string.

(** The end-of-input test of a token looks at its type. *)
Hypothesis IsEOF_spec : forall t, IsEOF t = isKind (Type_ t) Eof.

(** A decoder with one frame, on the tokens [ts]. *)
Abbreviation on ev ts := (mkDecoder Env ev [makeFrame ts]).

Lemma frame_next_makeFrame t ts : frame_next (makeFrame (t :: ts)) = makeFrame ts.
Proof. destruct ts as [|t1 [|t2 ts]]; reflexivity. Qed.

Lemma next_on ev t ts :
  Decoder.next Env Unwrap IsEOF (on ev (t :: ts)) = on ev ts.
Proof.
  unfold Decoder.next. cbn [frames locals]. rewrite frame_next_makeFrame.
  destruct (frame_done IsEOF (makeFrame ts)); reflexivity.
Qed.

Lemma curr_on ev t ts : Decoder.curr Env (on ev (t :: ts)) = t.
Proof. destruct ts as [|t1 ts]; reflexivity. Qed.

Lemma done_on ev t ts :
  Decoder.done Env IsEOF (on ev (t :: ts)) = isKind (Type_ t) Eof.
Proof.
  unfold Decoder.done. cbn [frames]. unfold frame_done.
  change (f_curr (makeFrame (t :: ts))) with (Decoder.curr Env (on ev (t :: ts))).
  rewrite curr_on. apply IsEOF_spec.
Qed.

Lemma is_on ev t ts k :
  Decoder.is_ Env (on ev (t :: ts)) k = isKind (Type_ t) k.
Proof. unfold Decoder.is_. rewrite curr_on. reflexivity. Qed.

Lemma depsLoop_names ev tail lit ns : forall fuel deps,
  length ns + 1 <= fuel ->
  depsLoop Env Resolve Unwrap IsPrimitive IsVariable IsEOF fuel
    (on ev (depList ns ++ mkToken lit BegScript :: tail)) deps =
  Some (None, deps ++ List.map plainDep ns, on ev (mkToken lit BegScript :: tail)).
Proof.
  induction ns as [|n ns IH]; intros fuel deps Hf.
  - destruct fuel as [|fuel]; [cbn in Hf; lia|].
    cbn [depList app depsLoop]. rewrite done_on, is_on. cbn.
    rewrite List.app_nil_r. reflexivity.
  - destruct fuel as [|fuel]; [cbn in Hf; lia|].
    assert (Hstep : forall ts,
      depsLoop Env Resolve Unwrap IsPrimitive IsVariable IsEOF (S fuel)
        (on ev (mkToken n Ident :: ts)) deps =
      match Type_ (Decoder.curr Env (on ev ts)) with
      | Comma => depsLoop Env Resolve Unwrap IsPrimitive IsVariable IsEOF fuel
                   (Decoder.next Env Unwrap IsEOF (on ev ts)) (deps ++ [plainDep n])
      | BegScript => depsLoop Env Resolve Unwrap IsPrimitive IsVariable IsEOF fuel
                   (on ev ts) (deps ++ [plainDep n])
      | _ => Some (Some (Decoder.unexpected Env (on ev ts)), deps ++ [plainDep n],
                   on ev ts)
      end \/ Decoder.is_ Env (on ev ts) BegList = true).
    { intros ts. destruct (Decoder.is_ Env (on ev ts) BegList) eqn:EB;
        [right; reflexivity|left].
      cbn [depsLoop]. rewrite done_on, is_on, is_on, next_on, curr_on.
      cbn [Type_ isKind negb andb]. unfold depArgs. rewrite EB. reflexivity. }
    destruct ns as [|n2 ns].
    + cbn [depList app]. cbn [depList app] in IH.
      destruct (Hstep (mkToken lit BegScript :: tail)) as [->|E].
      2:{ rewrite is_on in E. discriminate E. }
      rewrite curr_on. cbn [Type_].
      rewrite (IH fuel (deps ++ [plainDep n])) by (cbn in Hf |- *; lia).
      cbn [List.map]. rewrite <- List.app_assoc. reflexivity.
    + change (depList (n :: n2 :: ns))
        with (mkToken n Ident :: mkToken "" Comma :: depList (n2 :: ns)).
      cbn [app].
      destruct (Hstep (mkToken "" Comma :: depList (n2 :: ns)
                         ++ mkToken lit BegScript :: tail)) as [->|E].
      2:{ rewrite is_on in E. discriminate E. }
      rewrite curr_on, next_on. cbn [Type_].
      rewrite (IH fuel (deps ++ [plainDep n])) by (cbn in Hf |- *; lia).
      cbn [List.map]. rewrite <- List.app_assoc. reflexivity.
Qed.

(** X20: a dependency list is decoded in the order it is written: on
    the names [n1, ..., nk] separated by commas and followed by the
    opening of the script, [decodeCommandDependencies] appends one
    dependency without arguments per name, in this order, to those the
    command has, reports no error and stops on the opening of the
    script. *)
Theorem decodeCommandDependencies_names fuel ev t0 lit ns tail deps :
  length ns + 1 <= fuel ->
  decodeCommandDependencies Env Resolve Unwrap IsPrimitive IsVariable IsEOF fuel
    (on ev (t0 :: depList ns ++ mkToken lit BegScript :: tail)) deps =
  Some (None, deps ++ List.map plainDep ns, on ev (mkToken lit BegScript :: tail)).
Proof.
  intros Hf. unfold decodeCommandDependencies.
  rewrite next_on, depsLoop_names by exact Hf.
  rewrite is_on. reflexivity.
Qed.

Lemma helpLoop_comments ev tail lit toks : forall fuel help prev,
  List.Forall bodyToken toks ->
  length toks + 1 <= fuel ->
  exists h toks',
    helpLoop Env Unwrap IsEOF TrimSpace fuel
      (on ev (toks ++ mkToken lit EndScript :: tail)) help prev =
    Some (h, on ev (toks' ++ mkToken lit EndScript :: tail)) /\
    scriptLines toks' = scriptLines toks /\
    List.Forall bodyToken toks' /\ length toks' <= length toks.
Proof.
  induction toks as [|t toks IH]; intros fuel help prev Hb Hf.
  - destruct fuel as [|fuel]; [cbn in Hf; lia|].
    exists help, []. cbn [app helpLoop]. rewrite done_on, is_on. cbn.
    repeat split; [constructor|lia].
  - destruct fuel as [|fuel]; [cbn in Hf; lia|].
    inversion Hb as [|t' toks' Ht Hb']; subst t' toks'.
    cbn [app helpLoop]. rewrite done_on, is_on, next_on, curr_on.
    destruct Ht as [Ht|Ht]; rewrite Ht; cbn [isKind negb andb].
    + exists help, (t :: toks). repeat split; [exact Hb|lia].
    + assert (Hs : scriptLines (t :: toks) = scriptLines toks)
        by (unfold scriptLines; cbn [List.filter]; rewrite Ht; reflexivity).
      destruct (String.eqb (Literal t) "" && String.eqb prev "").
      * destruct (IH fuel help prev Hb') as (h & toks' & E & E1 & E2 & E3);
          [cbn in Hf; lia|].
        exists h, toks'. rewrite E, Hs. cbn [length].
        repeat split; [exact E1|exact E2|lia].
      * destruct (IH fuel (help ++ TrimSpace (Literal t)
                             ++ String (Ascii.ascii_of_nat 10) "")%string
                    (Literal t) Hb')
          as (h & toks' & E & E1 & E2 & E3); [cbn in Hf; lia|].
        exists h, toks'. rewrite E, Hs. cbn [length].
        repeat split; [exact E1|exact E2|lia].
Qed.

Lemma scriptsLoop_lines ev tail lit toks : forall fuel lines,
  List.Forall bodyToken toks ->
  length toks + 1 <= fuel ->
  scriptsLoop Env Unwrap IsEOF fuel
    (on ev (toks ++ mkToken lit EndScript :: tail)) lines =
  Some (None, lines ++ scriptLines toks, on ev (mkToken lit EndScript :: tail)).
Proof.
  induction toks as [|t toks IH]; intros fuel lines Hb Hf.
  - destruct fuel as [|fuel]; [cbn in Hf; lia|].
    cbn [app scriptsLoop]. rewrite done_on, is_on. cbn.
    rewrite List.app_nil_r. reflexivity.
  - destruct fuel as [|fuel]; [cbn in Hf; lia|].
    inversion Hb as [|t' toks' Ht Hb']; subst t' toks'.
    cbn [app scriptsLoop]. rewrite done_on, is_on, curr_on.
    unfold decodeScriptLine. rewrite is_on, next_on, curr_on.
    destruct Ht as [Ht|Ht]; rewrite Ht; cbn [isKind negb andb].
    + rewrite IH by (cbn in Hf; try assumption; lia).
      unfold scriptLines. cbn [List.filter]. rewrite Ht. cbn [isKind List.map].
      rewrite <- List.app_assoc. reflexivity.
    + rewrite IH by (cbn in Hf; try assumption; lia).
      unfold scriptLines. cbn [List.filter]. rewrite Ht. reflexivity.
Qed.

(** X21: the lines of a script are kept in the order they are written
    and its comments are dropped: on a body of script lines and
    comments between the braces, and an end of line after the closing
    one, [decodeCommandScripts] appends the script lines, in this
    order, to those the command has, reports no error and leaves the
    decoder after the end of line. *)
Theorem decodeCommandScripts_lines fuel ev t0 lit eol toks tail lines :
  List.Forall bodyToken toks ->
  Type_ eol = Eol ->
  length toks + 1 <= fuel ->
  exists desc,
    decodeCommandScripts Env Unwrap IsEOF TrimSpace fuel
      (on ev (t0 :: toks ++ mkToken lit EndScript :: eol :: tail)) lines =
    Some (None, desc, lines ++ scriptLines toks, on ev tail).
Proof.
  intros Hb He Hf. unfold decodeCommandScripts, decodeCommandHelp.
  rewrite next_on.
  destruct (helpLoop_comments ev (eol :: tail) lit toks fuel "" "" Hb Hf)
    as (h & toks' & E & E1 & E2 & E3).
  rewrite E. exists (TrimSpace h).
  rewrite scriptsLoop_lines by (try assumption; lia).
  rewrite is_on, next_on. cbn [Type_ isKind negb].
  unfold Decoder.ensureEOL. rewrite curr_on, He, next_on, E1. reflexivity.
Qed.

End CommandDecoderFacts.

Lemma sampleIsEOF_spec t : sampleIsEOF t = Decoder.isKind (Decoder.Type_ t) Eof.
Proof. reflexivity. Qed.

Lemma decodeCommandDependencies_names_witness :
  CommandDecoder.decodeCommandDependencies unit sampleResolve (fun ev => ev)
    sampleIsValue sampleIsVariable sampleIsEOF 9 (sampleDecoder sampleDeps) [] =
  Some (None, [plainDep "a"; plainDep "b"],
        sampleDecoder [Decoder.mkToken "" BegScript]).
Proof.
  apply (decodeCommandDependencies_names unit sampleResolve (fun ev => ev)
           sampleIsValue sampleIsVariable sampleIsEOF sampleIsEOF_spec
           9 tt (Decoder.mkToken "" Dependency) "" ["a"; "b"] [] []).
  cbn. lia.
Defined.

Lemma decodeCommandScripts_lines_witness :
  exists desc,
    CommandDecoder.decodeCommandScripts unit (fun ev => ev) sampleIsEOF
      (fun s => s) 9 (sampleDecoder sampleScript) [] =
    Some (None, desc, ["go build"; "go vet"], sampleDecoder []).
Proof.
  apply (decodeCommandScripts_lines unit (fun ev => ev) sampleIsEOF (fun s => s)
           sampleIsEOF_spec 9 tt (Decoder.mkToken "" BegScript) ""
           (Decoder.mkToken "" Eol)
           [Decoder.mkToken "build" Comment; Decoder.mkToken "go build" Script_;
            Decoder.mkToken "then" Comment; Decoder.mkToken "go vet" Script_]
           [] []).
  - repeat constructor; (left; reflexivity) || (right; reflexivity).
  - reflexivity.
  - cbn. lia.
Defined.


(** ** The package [wrap] *)

Section WrapFacts.

Import Wrap.
Local Open Scope Z_scope.

Lemma to_nat_len (p : list Z) : Z.to_nat (len p) = length p.
Proof. unfold len. apply Nat2Z.id. Qed.

Lemma len_app (p q : list Z) : len (p ++ q) = len p + len q.
Proof. unfold len. rewrite List.length_app. lia. Qed.

Lemma isBlank_ascii r : isBlank r = true -> 0 <= r < 128.
Proof.
  unfold isBlank, space, tab. intros H.
  apply orb_prop in H as [H|H]; apply Z.eqb_eq in H; lia.
Qed.

Lemma WriteRune_ascii ws b : 0 <= b < 128 -> WriteRune ws b = ws ++ [b].
Proof.
  intros H. unfold WriteRune, Lexer.RuneLen, Lexer.EncodeRune.
  destruct (Z.ltb_spec b 0); [lia|].
  destruct (Z.leb_spec b 127); [|lia].
  cbn. destruct (Z.leb_spec b 127); [reflexivity|lia].
Qed.

(** [skip] stops at once on a rune that [fn] refuses. *)
Lemma skip_stop fuel str fn :
  (1 <= fuel)%nat ->
  fn (fst (Lexer.DecodeRune str)) = false -> skip fuel str fn = Some 0.
Proof.
  intros Hf H. destruct fuel as [|fuel]; [lia|]. unfold skip. cbn [skipLoop]. change (Z.to_nat 0) with 0%nat.
  change (List.skipn 0 str) with str. destruct (Lexer.DecodeRune str) as [r z].
  cbn [fst] in H. cbv iota beta. rewrite H. reflexivity.
Qed.

(** [skip] over blanks returns, the string being finite. *)
Lemma skipLoop_blank_total fuel : forall str n,
  0 <= n -> (length str - Z.to_nat n < fuel)%nat ->
  exists k, skipLoop fuel str isBlank n = Some k.
Proof.
  induction fuel as [|fuel IH]; intros str n Hn Hf.
  - lia.
  - cbn [skipLoop].
    pose proof (DecodeRune_low (List.skipn (Z.to_nat n) str)) as Hl.
    destruct (Lexer.DecodeRune (List.skipn (Z.to_nat n) str)) as [r z] eqn:E.
    cbn [fst] in Hl.
    destruct (isBlank r) eqn:Hb; cbn [negb]; [|eexists; reflexivity].
    pose proof (isBlank_ascii r Hb) as Hr.
    destruct Hl as [tl Htl]; [lia|].
    rewrite Htl, DecodeRune_ascii in E by lia. injection E as <-.
    assert (Z.to_nat n < length str)%nat.
    { apply (f_equal (@length Z)) in Htl. rewrite List.length_skipn in Htl.
      cbn in Htl. lia. }
    apply IH; lia.
Qed.

(** One round of the loop of [advance] on a byte of a word. *)
Lemma advanceLoop_word fuel str n p b q prev :
  str = p ++ b :: q -> wordByte b ->
  advanceLoop (S fuel) str n (len p) prev p =
  advanceLoop fuel str n (len (p ++ [b])) prev (p ++ [b]).
Proof.
  intros -> [[Hb Hnl] Hbl]. cbn [advanceLoop].
  rewrite to_nat_len, skipn_length_app, DecodeRune_ascii by exact Hb.
  destruct (Z.eqb_spec b Lexer.RuneError) as [E|_];
    [unfold Lexer.RuneError in E; lia|].
  cbn [negb orb]. unfold isNL.
  destruct (Z.eqb_spec b nl) as [E|_]; [contradiction|].
  rewrite Hbl, WriteRune_ascii, len_app by exact Hb. reflexivity.
Qed.

Lemma advanceLoop_words str n w : forall fuel p rest prev,
  str = p ++ w ++ rest -> List.Forall wordByte w ->
  advanceLoop (length w + fuel) str n (len p) prev p =
  advanceLoop fuel str n (len (p ++ w)) prev (p ++ w).
Proof.
  induction w as [|b w IH]; intros fuel p rest prev Hs Hw.
  - rewrite List.app_nil_r. reflexivity.
  - inversion Hw as [|b' w' Hb Hw']; subst b' w'.
    cbn [length Nat.add].
    rewrite (advanceLoop_word _ str n p b (w ++ rest) prev Hs Hb).
    rewrite (IH fuel (p ++ [b]) rest prev);
      [|rewrite <- List.app_assoc; exact Hs|exact Hw'].
    rewrite <- List.app_assoc. reflexivity.
Qed.

(** One round of the loop of [advance] on a blank that no blank
    follows, before the length [n] is reached. *)
Lemma advanceLoop_blank fuel str n p b q prev :
  str = p ++ b :: q -> isBlank b = true ->
  isBlank (fst (Lexer.DecodeRune q)) = false ->
  len p < n ->
  (1 <= fuel)%nat ->
  advanceLoop (S fuel) str n (len p) prev p =
  advanceLoop fuel str n (len (p ++ [b])) (len (p ++ [b])) (p ++ [b]).
Proof.
  intros -> Hbl Hq Hn Hf. pose proof (isBlank_ascii b Hbl) as Hb.
  cbn [advanceLoop].
  rewrite to_nat_len, skipn_length_app, DecodeRune_ascii by exact Hb.
  destruct (Z.eqb_spec b Lexer.RuneError) as [E|_];
    [unfold Lexer.RuneError in E; lia|].
  cbn [negb]. unfold isNL.
  destruct (Z.eqb_spec b nl) as [E|_];
    [unfold isBlank, space, tab in Hbl; unfold nl in E; subst b; discriminate Hbl|].
  rewrite Hbl. cbn [orb].
  replace (Z.to_nat (len p + 1)) with (length (p ++ [b]))
    by (rewrite List.length_app; unfold len; cbn; lia).
  replace (p ++ b :: q) with ((p ++ [b]) ++ q) by (rewrite <- List.app_assoc; reflexivity).
  rewrite skipn_length_app, skip_stop; [|exact Hf|exact Hq].
  destruct (Z.eqb_spec (len p) n); [lia|].
  destruct (Z.ltb_spec n (len p)); [lia|].
  cbn [orb andb]. rewrite (WriteRune_ascii p b Hb), len_app.
  rewrite Z.add_0_r. reflexivity.
Qed.

(** The loop of [advance] over a line that fits. *)
Lemma advanceLoop_line str n q : forall fuel p prev,
  str = p ++ q -> List.Forall lineByte q -> singleBlanks q -> len str <= n ->
  exists prev',
    advanceLoop (length q + S fuel) str n (len p) prev p =
    advanceLoop (S fuel) str n (len str) prev' str.
Proof.
  induction q as [|b q IH]; intros fuel p prev Hs Hl Hsb Hn.
  - exists prev. rewrite List.app_nil_r in Hs. subst p. reflexivity.
  - inversion Hl as [|b' q' Hb Hl']; subst b' q'.
    assert (Hs' : str = (p ++ [b]) ++ q) by (rewrite <- List.app_assoc; exact Hs).
    assert (Hsb' : singleBlanks q) by (destruct q; [exact I|apply Hsb]).
    destruct (IH fuel (p ++ [b]) prev Hs' Hl' Hsb' Hn) as [prev1 E1].
    destruct (IH fuel (p ++ [b]) (len (p ++ [b])) Hs' Hl' Hsb' Hn) as [prev2 E2].
    cbn [length Nat.add].
    destruct (isBlank b) eqn:Hbl.
    + exists prev2. rewrite <- E2.
      apply (advanceLoop_blank _ str n p b q prev Hs Hbl); [| |lia].
      * destruct q as [|c q]; [reflexivity|].
        inversion Hl' as [|c' q' [Hc _] _]; subst c' q'.
        rewrite DecodeRune_ascii by exact Hc. apply (proj1 Hsb Hbl).
      * rewrite Hs, len_app in Hn. unfold len in Hn |- *. cbn [length] in Hn. lia.
    + exists prev1. rewrite <- E1.
      apply (advanceLoop_word _ str n p b q prev Hs). split; assumption.
Qed.

(** At the end of the text the loop of [advance] writes U+FFFD until
    the builder holds [n] bytes or more, and keeps its offset. *)
Lemma advanceLoop_pad str n : forall fuel ws prev,
  prev = len str \/ len ws <= n ->
  (Z.to_nat (n + 3 - len ws) + 2 <= fuel)%nat ->
  exists pad, advanceLoop fuel str n (len str) prev ws = Some (len str, ws ++ pad).
Proof.
  induction fuel as [|fuel IH]; intros ws prev Hp Hf; [lia|].
  cbn [advanceLoop]. rewrite to_nat_len, List.skipn_all.
  cbn [Lexer.DecodeRune].
  replace (Lexer.RuneError =? Lexer.RuneError) with true by reflexivity.
  replace (isNL Lexer.RuneError) with false by reflexivity.
  cbn [negb]. rewrite orb_true_r, to_nat_len, List.skipn_all.
  rewrite skip_stop; [|lia|reflexivity]. rewrite Z.add_0_r.
  unfold DefaultThreshold.
  destruct (Z.eqb_spec (len ws) n) as [E|E].
  { exists []. rewrite List.app_nil_r. reflexivity. }
  destruct (Z.ltb_spec n (len ws)) as [H1|H1];
    destruct (Z.ltb_spec (len ws - n) 2) as [H2|H2];
    destruct (Z.ltb_spec 2 (len ws - n)) as [H3|H3];
    cbn [orb andb]; try lia;
    try (exists []; rewrite List.app_nil_r;
         destruct Hp as [->|Hp]; [reflexivity|lia]);
    try (exists []; rewrite List.app_nil_r; reflexivity).
  all: destruct (IH (WriteRune ws Lexer.RuneError) (len str)) as [pad E1];
    [left; reflexivity
    |unfold WriteRune; rewrite len_app; cbn; unfold len at 2; cbn [length]; lia
    |exists ([239; 191; 189] ++ pad); rewrite E1;
     unfold WriteRune; rewrite <- List.app_assoc; reflexivity].
Qed.

Variable TrimSpace : list Z -> list Z.

(** X22: a text that opens with a word of more than [n + 2] bytes is
    lost: when the word is followed by a blank or by the end of the
    text, the first call of [advance] goes back to the offset 0 and
    [WrapN] returns the empty string. *)
Theorem WrapN_long_word_is_lost fuel n w rest :
  w <> [] -> List.Forall wordByte w -> blankOrEnd rest ->
  n + 2 < len w ->
  (length (w ++ rest) + 3 <= fuel)%nat ->
  WrapN TrimSpace fuel (w ++ rest) n = Some [].
Proof.
  intros Hne Hw Hr Hn Hf.
  rewrite List.length_app in Hf.
  destruct fuel as [|fuel]; [lia|].
  assert (Hadv : advance fuel (w ++ rest) n = Some ([], 0)).
  { unfold advance. destruct (w ++ rest) as [|c s] eqn:Es.
    { destruct w; [contradiction|discriminate Es]. }
    rewrite <- Es.
    replace fuel with (length w + (fuel - length w))%nat by lia.
    change 0 with (len []) at 1.
    rewrite (advanceLoop_words (w ++ rest) n w _ [] rest 0 eq_refl Hw).
    cbn [app].
    destruct (fuel - length w)%nat as [|f] eqn:Ef; [lia|].
    assert (Hlen : (0 <? len w) = true)
      by (apply Z.ltb_lt; destruct w; [contradiction|unfold len; cbn; lia]).
    assert (Hz : ((len w =? n) || ((n <? len w) && (len w - n <? DefaultThreshold)))
                 = false).
    { unfold DefaultThreshold.
      destruct (Z.eqb_spec (len w) n); [lia|].
      destruct (Z.ltb_spec (len w - n) 2); [lia|].
      rewrite andb_false_r. reflexivity. }
    assert (Hz2 : ((n <? len w) && (DefaultThreshold <? len w - n)) = true).
    { unfold DefaultThreshold.
      destruct (Z.ltb_spec n (len w)); [|lia].
      destruct (Z.ltb_spec 2 (len w - n)); [reflexivity|lia]. }
    cbn [advanceLoop]. rewrite to_nat_len, skipn_length_app.
    destruct rest as [|b tl].
    - cbn [Lexer.DecodeRune].
      replace (Lexer.RuneError =? Lexer.RuneError) with true by reflexivity.
      replace (isNL Lexer.RuneError) with false by reflexivity.
      cbn [negb]. rewrite orb_true_r, to_nat_len, skipn_length_app.
      rewrite skip_stop; [|lia|reflexivity].
      rewrite Hz, Hz2. cbv iota beta. rewrite Hlen. reflexivity.
    - cbn [blankOrEnd] in Hr. pose proof (isBlank_ascii b Hr) as Hb.
      rewrite DecodeRune_ascii by exact Hb.
      destruct (Z.eqb_spec b Lexer.RuneError) as [E|_];
        [unfold Lexer.RuneError in E; lia|].
      cbn [negb]. unfold isNL.
      destruct (Z.eqb_spec b nl) as [E|_];
        [unfold isBlank, space, tab in Hr; unfold nl in E; subst b; discriminate Hr|].
      rewrite Hr. cbn [orb].
      destruct (skipLoop_blank_total f
                  (List.skipn (Z.to_nat (len w + 1)) (w ++ b :: tl)) 0) as [k Hk];
        [lia| |].
      { rewrite List.length_skipn, List.length_app. unfold len.
        cbn [length] in *. lia. }
      unfold skip. rewrite Hk, Hz, Hz2. cbv iota beta. rewrite Hlen. reflexivity. }
  unfold WrapN. cbn [wrapLoop].
  assert (Hp : (0 <? len (w ++ rest)) = true).
  { apply Z.ltb_lt. rewrite len_app. destruct w; [contradiction|].
    unfold len. cbn. lia. }
  rewrite Hp. change (Z.to_nat 0) with 0%nat.
  change (List.skipn 0 (w ++ rest)) with (w ++ rest).
  rewrite Hadv. reflexivity.
Qed.

(** X23: a line that fits is returned as it is, up to the blanks at
    its ends: for a text of ASCII bytes without a newline, where no
    blank follows another one, of [n] bytes at most, [WrapN] returns
    the text trimmed. *)
Theorem WrapN_line_fits fuel n str :
  str <> [] -> List.Forall lineByte str -> singleBlanks str ->
  len str <= n ->
  (length str + Z.to_nat n + 7 <= fuel)%nat ->
  WrapN TrimSpace fuel str n = Some (TrimSpace str).
Proof.
  intros Hne Hl Hsb Hn Hf.
  destruct fuel as [|fuel]; [lia|].
  assert (Hpos : 0 < len str) by (destruct str; [contradiction|unfold len; cbn; lia]).
  assert (Hadv : advance fuel str n = Some (str, len str)).
  { unfold advance. destruct str as [|c s] eqn:Es; [contradiction|].
    rewrite <- Es in *.
    destruct (advanceLoop_line str n str (fuel - length str - 1) [] 0 eq_refl Hl Hsb Hn)
      as [prev' E1].
    replace (length str + S (fuel - length str - 1))%nat with fuel in E1 by lia.
    change (len []) with 0 in E1. rewrite E1.
    destruct (advanceLoop_pad str n (S (fuel - length str - 1)) str prev') as [pad E2];
      [right; exact Hn|unfold len; lia|].
    rewrite E2.
    destruct (Z.ltb_spec (len str) (len (str ++ pad))) as [H|H].
    - rewrite to_nat_len, firstn_length_app. reflexivity.
    - rewrite len_app in H. destruct pad; [|unfold len in H; cbn [length] in H; lia].
      rewrite List.app_nil_r. reflexivity. }
  unfold WrapN. cbn [wrapLoop].
  destruct (Z.ltb_spec 0 (len str)) as [_|H]; [|lia].
  change (Z.to_nat 0) with 0%nat. change (List.skipn 0 str) with str.
  rewrite Hadv.
  destruct (Z.eqb_spec (len str) 0) as [E|_]; [lia|].
  destruct fuel as [|fuel]; [lia|].
  cbn [wrapLoop app]. rewrite Z.add_0_l, Z.ltb_irrefl. reflexivity.
Qed.

End WrapFacts.

Lemma WrapN_long_word_is_lost_witness :
  Wrap.WrapN asciiTrimSpace 12 longWord 3 = Some [].
Proof.
  apply (WrapN_long_word_is_lost asciiTrimSpace 12 3
           [97; 98; 99; 100; 101; 102]%Z [32; 103; 104]%Z).
  - discriminate.
  - repeat (apply List.Forall_cons;
            [unfold wordByte, lineByte, Wrap.nl; repeat split;
             try lia; try reflexivity; try discriminate|]).
    apply List.Forall_nil.
  - reflexivity.
  - reflexivity.
  - cbn. lia.
Defined.

Lemma WrapN_line_fits_witness :
  Wrap.WrapN asciiTrimSpace 81 shortLine 70 = Some shortLine.
Proof.
  apply (WrapN_line_fits asciiTrimSpace 81 70 shortLine).
  - discriminate.
  - repeat (apply List.Forall_cons;
            [unfold lineByte, Wrap.nl; repeat split;
             try lia; try reflexivity; try discriminate|]).
    apply List.Forall_nil.
  - cbn. intuition discriminate.
  - unfold Wrap.len. cbn. lia.
  - cbn. lia.
Defined.


(** ** Quoted strings *)

Section LexerString.

Import Lexer.
Local Open Scope Z_scope.

(** [readRune] on a lexer that sits before the bytes [p], on a rune of
    the input. *)
Lemma readRune_from x p :
  0 <= char x ->
  List.skipn (Z.to_nat (next x)) (inner x) = p ->
  inner (readRune x) = inner x /\ state (readRune x) = state x /\
  char (readRune x) = runeAt p /\ pos (readRune x) = next x /\
  next (readRune x) = next x + snd (DecodeRune p).
Proof.
  intros Hc Hp. unfold readRune.
  destruct (Z.eqb_spec (char x) eof) as [E|_]; [unfold eof in E; lia|].
  destruct (Z.eqb_spec (char x) invalid) as [E|_]; [unfold invalid in E; lia|].
  rewrite andb_false_r. rewrite Hp. unfold runeAt.
  destruct (DecodeRune p) as [k n]. cbn. repeat split; reflexivity.
Qed.

Lemma runeAt_ascii b r : 0 <= b < 128 -> runeAt (b :: r) = b.
Proof.
  intros H. unfold runeAt. rewrite DecodeRune_ascii by exact H.
  destruct (Z.eqb_spec b RuneError) as [E|_]; [unfold RuneError in E; lia|].
  reflexivity.
Qed.

Lemma builderString_ascii w :
  List.Forall (fun b => 0 <= b < 128) w -> builderString w = w.
Proof.
  induction 1 as [|b w Hb _ IH]; [reflexivity|].
  unfold builderString in *. cbn [List.flat_map]. rewrite IH.
  unfold EncodeRune. destruct (Z.leb_spec b 127); [reflexivity|lia].
Qed.

(** The loop of [readString] over the text [w] of a double-quoted
    string, up to its closing quote. *)
Lemma stringLoop_text w : forall pre rest fuel x b,
  inner x = pre ++ w ++ quote :: rest ->
  next x = Z.of_nat (length pre) + 1 ->
  char x = runeAt (w ++ quote :: rest) ->
  List.Forall textByte w ->
  (length w + 1 <= fuel)%nat ->
  exists x', stringLoop fuel false quote x b = Some (b ++ w, x') /\
    inner x' = inner x /\ state x' = state x /\ char x' = quote /\
    next x' = Z.of_nat (length (pre ++ w)) + 1.
Proof.
  induction w as [|c w IH]; intros pre rest fuel x b Hin Hnext Hc Hw Hf.
  - destruct fuel as [|fuel]; [cbn in Hf; lia|].
    cbn [app] in Hc. rewrite runeAt_ascii in Hc by (unfold quote; lia).
    exists x. cbn [stringLoop]. rewrite Hc, Z.eqb_refl.
    rewrite !List.app_nil_r. repeat split; assumption.
  - destruct fuel as [|fuel]; [cbn in Hf; lia|].
    inversion Hw as [|c' w' [Hc0 [Hq Hb]] Hw']; subst c' w'.
    cbn [app] in Hc. rewrite runeAt_ascii in Hc by exact Hc0.
    assert (Hp : List.skipn (Z.to_nat (next x)) (inner x) = w ++ quote :: rest).
    { rewrite Hin, Hnext.
      replace (Z.to_nat (Z.of_nat (length pre) + 1)) with (length (pre ++ [c]))
        by (rewrite List.length_app; cbn; lia).
      change (pre ++ (c :: w) ++ quote :: rest)
        with (pre ++ [c] ++ w ++ quote :: rest).
      rewrite List.app_assoc. apply skipn_length_app. }
    destruct (readRune_from x _ ltac:(lia) Hp) as (R1 & R2 & R3 & R4 & R5).
    assert (Hn1 : next (readRune x) = Z.of_nat (length (pre ++ [c])) + 1).
    { rewrite R5, Hnext, List.length_app.
      destruct w as [|c2 w].
      - cbn [app]. rewrite DecodeRune_ascii by (unfold quote; lia). cbn. lia.
      - inversion Hw' as [|c' w' [Hc2 _] _]; subst c' w'.
        cbn [app]. rewrite DecodeRune_ascii by exact Hc2. cbn. lia. }
    destruct (IH (pre ++ [c]) rest fuel (readRune x) (WriteRune b c))
      as (x' & L1 & L2 & L3 & L4 & L5).
    + rewrite R1, Hin, <- List.app_assoc. reflexivity.
    + exact Hn1.
    + exact R3.
    + exact Hw'.
    + cbn in Hf. lia.
    + exists x'. cbn [stringLoop]. rewrite Hc.
      destruct (Z.eqb_spec c quote) as [E|_]; [contradiction|].
      destruct (Z.eqb_spec c backslash) as [E|_]; [contradiction|].
      rewrite andb_false_r. cbn [andb]. rewrite Hc, L1.
      unfold WriteRune, RuneLen.
      destruct (Z.ltb_spec c 0); [lia|]. destruct (Z.leb_spec c 127); [|lia].
      cbn. rewrite <- !List.app_assoc. cbn [app].
      repeat split.
      * rewrite L2. exact R1.
      * rewrite L3. exact R2.
      * exact L4.
      * rewrite L5, <- List.app_assoc. reflexivity.
Qed.

Lemma isSpace_runeAt p : isSpace (runeAt p) = isSpace (fst (DecodeRune p)).
Proof.
  unfold runeAt. destruct (DecodeRune p) as [k n]. cbn [fst].
  destruct (Z.eqb_spec k RuneError) as [->|_]; [|reflexivity].
  destruct (n =? 0); reflexivity.
Qed.

Lemma isSpace_ascii b : isSpace b = true -> 0 <= b < 128.
Proof.
  unfold isSpace, space, tab, nl. intros H.
  repeat (apply orb_prop in H as [H|H]); apply Z.eqb_eq in H; lia.
Qed.

(** [skipSpace] over the blanks [sp], up to the rune that follows. *)
Lemma skipSpace_blanks sp : forall pre rest fuel y,
  inner y = pre ++ sp ++ rest ->
  pos y = Z.of_nat (length pre) ->
  next y = pos y + snd (DecodeRune (sp ++ rest)) ->
  char y = runeAt (sp ++ rest) ->
  List.Forall (fun b => isSpace b = true) sp ->
  isSpace (runeAt rest) = false ->
  (length sp + 1 <= fuel)%nat ->
  exists y', skipSpace fuel y = Some y' /\
    inner y' = inner y /\ state y' = state y /\ char y' = runeAt rest /\
    pos y' = Z.of_nat (length (pre ++ sp)).
Proof.
  induction sp as [|b sp IH]; intros pre rest fuel y Hin Hpos Hnext Hc Hsp Hr Hf.
  - destruct fuel as [|fuel]; [cbn in Hf; lia|].
    exists y. cbn [skipSpace]. cbn [app] in Hc. rewrite Hc, Hr.
    rewrite List.app_nil_r. repeat split; assumption.
  - destruct fuel as [|fuel]; [cbn in Hf; lia|].
    inversion Hsp as [|b' sp' Hb Hsp']; subst b' sp'.
    pose proof (isSpace_ascii b Hb) as Hb'.
    cbn [app] in Hc, Hnext. rewrite runeAt_ascii in Hc by exact Hb'.
    rewrite DecodeRune_ascii in Hnext by exact Hb'. cbn [snd] in Hnext.
    assert (Hp : List.skipn (Z.to_nat (next y)) (inner y) = sp ++ rest).
    { rewrite Hin, Hnext, Hpos.
      replace (Z.to_nat (Z.of_nat (length pre) + 1)) with (length (pre ++ [b]))
        by (rewrite List.length_app; cbn; lia).
      change (pre ++ (b :: sp) ++ rest) with (pre ++ [b] ++ sp ++ rest).
      rewrite List.app_assoc. apply skipn_length_app. }
    destruct (readRune_from y _ ltac:(lia) Hp) as (R1 & R2 & R3 & R4 & R5).
    destruct (IH (pre ++ [b]) rest fuel (readRune y)) as (y' & L1 & L2 & L3 & L4 & L5).
    + rewrite R1, Hin, <- List.app_assoc. reflexivity.
    + rewrite R4, Hnext, Hpos, List.length_app. cbn. lia.
    + rewrite R5, R4. reflexivity.
    + exact R3.
    + exact Hsp'.
    + exact Hr.
    + cbn in Hf. lia.
    + exists y'. cbn [skipSpace]. rewrite Hc, Hb.
      repeat split.
      * exact L1.
      * rewrite L2. exact R1.
      * rewrite L3. exact R2.
      * exact L4.
      * rewrite L5, <- List.app_assoc. reflexivity.
Qed.

Variable commands : list Z -> bool.

(** X24: a double-quoted string is returned as one value token that
    holds its text: in the default or in the value state, whatever the
    sub-state, on the opening quote of a text of ASCII bytes other than
    the quote and the backslash, followed by the closing quote, [Next]
    returns the text and keeps the state. It leaves the lexer on the
    rune after the closing quote; in the value state of a property
    list, where the blanks [sp] after a value are skipped, on the rune
    after these blanks. *)
Theorem Next_quoted_string fuel x pre w sp rest :
  inner x = pre ++ quote :: w ++ quote :: sp ++ rest ->
  pos x = Z.of_nat (length pre) -> next x = pos x + 1 -> char x = quote ->
  Z.land (state x) 65280 = lexDefault \/ Z.land (state x) 65280 = lexValue ->
  List.Forall textByte w ->
  List.Forall (fun b => isSpace b = true) sp ->
  isSpace (runeAt rest) = false ->
  (length w + length sp + 4 <= fuel)%nat ->
  exists x',
    Next commands fuel x = Some (mkToken w value, x') /\
    char x' = runeAt (if skipsBlanks (state x) then rest else sp ++ rest) /\
    state x' = state x.
Proof.
  intros Hin Hpos Hnext Hc Hst Hw Hsp Hr Hf.
  destruct fuel as [|[|fuel]]; [lia|lia|].
  assert (Hp : List.skipn (Z.to_nat (next x)) (inner x)
               = w ++ quote :: sp ++ rest).
  { rewrite Hin, Hnext, Hpos.
    replace (Z.to_nat (Z.of_nat (length pre) + 1)) with (length (pre ++ [quote]))
      by (rewrite List.length_app; cbn; lia).
    change (pre ++ quote :: w ++ quote :: sp ++ rest)
      with (pre ++ [quote] ++ w ++ quote :: sp ++ rest).
    rewrite List.app_assoc. apply skipn_length_app. }
  destruct (readRune_from x _ ltac:(rewrite Hc; unfold quote; lia) Hp)
    as (R1 & R2 & R3 & R4 & R5).
  assert (Hn1 : next (readRune x) = Z.of_nat (length (pre ++ [quote])) + 1).
  { rewrite R5, Hnext, Hpos, List.length_app.
    destruct w as [|c2 w].
    - cbn [app]. rewrite DecodeRune_ascii by (unfold quote; lia). cbn. lia.
    - inversion Hw as [|c' w' [Hc2 _] _]; subst c' w'.
      cbn [app]. rewrite DecodeRune_ascii by exact Hc2. cbn. lia. }
  destruct (stringLoop_text w (pre ++ [quote]) (sp ++ rest) (S fuel) (readRune x) [])
    as (x1 & L1 & L2 & L3 & L4 & L5).
  { rewrite R1, Hin, <- List.app_assoc. reflexivity. }
  { exact Hn1. }
  { exact R3. }
  { exact Hw. }
  { lia. }
  assert (Hascii : List.Forall (fun b => 0 <= b < 128) w).
  { eapply List.Forall_impl; [|exact Hw]. intros b [H _]. exact H. }
  assert (Hrs : readString (S fuel) x = Some (mkToken w value, x1)).
  { unfold readString. rewrite Hc.
    replace (quote =? tick) with false by reflexivity.
    rewrite L1. cbn [app]. rewrite builderString_ascii by exact Hascii.
    reflexivity. }
  assert (Hs1 : state x1 = state x) by (rewrite L3; exact R2).
  assert (Hi1 : inner x1 = inner x) by (rewrite L2; exact R1).
  set (pre4 := ((pre ++ [quote]) ++ w) ++ [quote]).
  assert (Hin4 : inner x = pre4 ++ sp ++ rest).
  { rewrite Hin. unfold pre4. rewrite <- !List.app_assoc. reflexivity. }
  assert (Hn4 : next x1 = Z.of_nat (length pre4)).
  { rewrite L5. unfold pre4. rewrite (List.length_app _ [quote]). cbn. lia. }
  assert (Hp1 : List.skipn (Z.to_nat (next x1)) (inner x1) = sp ++ rest).
  { rewrite Hn4, Hi1, Hin4, Nat2Z.id. apply skipn_length_app. }
  destruct (readRune_from x1 _ ltac:(rewrite L4; unfold quote; lia) Hp1)
    as (Q1 & Q2 & Q3 & Q4 & Q5).
  assert (Hnd : nextDefault commands (S fuel) x = Some (mkToken w value, x1)).
  { unfold nextDefault. cbn [skipSpace]. rewrite Hc.
    replace (isSpace quote) with false by reflexivity.
    rewrite Hc.
    replace (isIdent quote) with false by reflexivity.
    replace (isQuote quote) with true by reflexivity.
    exact Hrs. }
  assert (Hnv : nextValue (S fuel) x = Some (mkToken w value, x1)).
  { unfold nextValue. rewrite Hc.
    replace (quote =? space) with false by reflexivity.
    rewrite Hc.
    replace ((quote =? nl) || (quote =? comma) || (quote =? rparen))
      with false by reflexivity.
    replace (quote =? minus) with false by reflexivity.
    replace (isQuote quote) with true by reflexivity.
    exact Hrs. }
  assert (Hup : forall y, updateState y (mkToken w value) = (y, false))
    by reflexivity.
  assert (Hsr : forall y, state (readRune y) = state y).
  { intros y. unfold readRune. destruct (_ && _); [reflexivity|].
    destruct (DecodeRune (List.skipn _ _)) as [k n]. reflexivity. }
  (* the two ways out of [Next] *)
  assert (Hplain : forall r0,
            r0 = Some (mkToken w value, x1) ->
            exists x',
              match r0 with
              | None => None
              | Some (t, y1) =>
                  let '(y2, repeat) := updateState y1 t in
                  if repeat then Next commands (S fuel) y2
                  else Some (t, readRune y2)
              end = Some (mkToken w value, x') /\
              char x' = runeAt (sp ++ rest) /\ state x' = state x).
  { intros r0 ->. exists (readRune x1). rewrite Hup.
    split; [reflexivity|]. split; [exact Q3|]. rewrite Q2. exact Hs1. }
  cbn [Next]. rewrite Hc.
  replace ((quote =? eof) || (quote =? invalid)) with false by reflexivity.
  unfold skipsBlanks.
  destruct Hst as [Hs|Hs]; rewrite Hs.
  - replace (lexDefault =? lexValue) with false by reflexivity.
    replace (lexDefault =? lexScript) with false by reflexivity.
    replace (lexDefault =? lexDeps) with false by reflexivity.
    cbn [andb]. apply Hplain. exact Hnd.
  - replace (lexValue =? lexValue) with true by reflexivity.
    cbn [andb]. rewrite Hnv. cbv iota beta. rewrite Hs1.
    destruct (Z.land (state x) 255 =? lexProps) eqn:Eprops; cbn [andb].
    2:{ apply (Hplain (Some (mkToken w value, x1))). reflexivity. }
    unfold peekRune. rewrite Hp1, <- isSpace_runeAt.
    destruct sp as [|b sp].
    { cbn [app]. rewrite Hr.
      apply (Hplain (Some (mkToken w value, x1))). reflexivity. }
    inversion Hsp as [|b' sp' Hb _]; subst b' sp'.
    pose proof (isSpace_ascii b Hb) as Hb'.
    replace (isSpace (runeAt ((b :: sp) ++ rest))) with true
      by (cbn [app]; rewrite runeAt_ascii by exact Hb'; symmetry; exact Hb).
    destruct (skipSpace_blanks (b :: sp) pre4 rest (S fuel) (readRune x1))
      as (y' & S1 & S2 & S3 & S4 & S5).
    { rewrite Q1, Hi1. exact Hin4. }
    { rewrite Q4. exact Hn4. }
    { rewrite Q5, Q4. reflexivity. }
    { exact Q3. }
    { exact Hsp. }
    { exact Hr. }
    { cbn [length] in Hf |- *. lia. }
    rewrite S1, Hup.
    exists (readRune (unreadRune y')). split; [reflexivity|]. split.
    + unfold readRune. destruct (_ && _); [exact S4|].
      cbn [unreadRune next inner]. rewrite S5, S2, Q1, Hi1, Hin4, Nat2Z.id.
      rewrite List.app_assoc, skipn_length_app.
      unfold runeAt. destruct (DecodeRune rest) as [k n]. reflexivity.
    + rewrite Hsr. cbn [unreadRune state]. rewrite S3, Q2. exact Hs1.
Qed.

End LexerString.

Lemma Next_quoted_string_witness :
  (exists x',
     Lexer.Next noKeywords 9 onQuote =
       Some (Lexer.mkToken [104; 105]%Z Lexer.value, x') /\
     Lexer.char x' = Lexer.nl /\ Lexer.state x' = Lexer.lexValue) /\
  (exists x',
     Lexer.Next noKeywords 9 onQuoteProp =
       Some (Lexer.mkToken [104; 105]%Z Lexer.value, x') /\
     Lexer.char x' = Lexer.comma /\
     Lexer.state x' = Z.lor Lexer.lexValue Lexer.lexProps).
Proof.
  assert (Hw : List.Forall textByte [104; 105]%Z).
  { repeat (apply List.Forall_cons;
            [unfold textByte, Lexer.quote, Lexer.backslash; repeat split;
             try lia; try discriminate|]).
    apply List.Forall_nil. }
  split.
  - refine (Next_quoted_string noKeywords 9 onQuote [] [104; 105]%Z [10]%Z []
              eq_refl eq_refl eq_refl eq_refl (or_intror eq_refl) Hw _ eq_refl _).
    + repeat constructor.
    + cbn. lia.
  - refine (Next_quoted_string noKeywords 9 onQuoteProp [] [104; 105]%Z
              [32; 32]%Z [44]%Z
              eq_refl eq_refl eq_refl eq_refl (or_intror eq_refl) Hw _ eq_refl _).
    + repeat constructor.
    + cbn. lia.
Defined.
